(** * The two-sided fee transform of [prototype/outbound-inverse.py]

    The prototype derives two coefficients [m] and [n] from four integer fee
    parameters and converts between the outbound amount of a hop and the
    inbound amount it has to receive:

      - [inbound_from_outbound] is the forward direction, floored at the
        outbound amount;
      - [outbound_from_inbound] is the derived inverse.

    Two embeddings of the same class are given.

    - [Binary64] is the program: it evaluates the expressions of the class on
      IEEE-754 doubles ([SpecFloat] with 53 bits of precision) with Python's
      [int]/[float] coercions, its exceptions, infinities and NaN.
      [Binary64Round] and [Binary64Error] bound the rounding error of every
      operation the class performs, [Binary64Exceptions] says which
      exceptions can be raised, [Binary64Moderate] follows construction and
      both directions through every input that cannot overflow.
    - [Exact] reads every Python number as a rational ([Q]): integers are
      injected, [/] is the field division and the only exception left is
      [ZeroDivisionError].  Rounding, infinities and NaN do not exist here.
      It is the reference the doubles are measured against, and the place
      of the statements that are about exact arithmetic in so many words.

    [Main] is the test program under [__main__], run on [Binary64] with the
    random generator as a parameter.

    The properties of the transform come last: first those the description
    of the prototype states, in the form in which they hold of the program,
    together with the runs that refute the other forms; then further ones
    read off the code (the other composition of the two directions, the sign
    of the inverse, the distance between doubles and exact arithmetic, strict
    monotonicity, the floor, exceptions and the test program as a whole). *)

From Stdlib Require Import ZArith QArith Qround Qminmax Qpower Qabs.
From Stdlib Require Import Lqa Lia Bool.
From Stdlib Require Import SpecFloat.

Set Implicit Arguments.

(** ** Outcome of a Python expression *)

Inductive exn : Set :=
| ZeroDivisionError
| OverflowError.

Inductive result (A : Type) : Type :=
| Return (a : A)
| Raise (e : exn).

Arguments Return {A} a.
Arguments Raise {A} e.

Definition bind {A B : Type} (r : result A) (k : A -> result B) : result B :=
  match r with
  | Return a => k a
  | Raise e => Raise e
  end.

Notation "x <- r ;; k" := (bind r (fun x => k))
  (at level 61, r at next level, right associativity).

(** [UNIT_M = 1_000_000] *)
Definition UNIT_M : Z := 1000000.

(** ** Exact arithmetic *)

Module Exact.

Local Open Scope Q_scope.
Local Coercion inject_Z : Z >-> Q.

(** Python's [a > b]. *)
Definition gt (a b : Q) : bool :=
  match a ?= b with
  | Gt => true
  | _ => false
  end.

(** Python's [max(a, b)]: the second argument replaces the first only when
    it compares strictly greater. *)
Definition max (a b : Q) : Q :=
  if gt b a then b else a.

(** Python's [a / b] on floats: a zero divisor raises. *)
Definition div (a b : Q) : result Q :=
  if Qeq_bool b 0 then Raise ZeroDivisionError else Return (a / b).

(** Python's [round(x, 0)]: to the nearest integer, ties to the even one. *)
Definition round (x : Q) : Z :=
  let fl := Qfloor x in
  match (x - fl ?= 1 # 2)%Q with
  | Lt => fl
  | Gt => (fl + 1)%Z
  | Eq => if Z.even fl then fl else (fl + 1)%Z
  end.

(** The attributes [self.m] and [self.n]. *)
Record FeeStructure : Set := { m : Q; n : Q }.

(** [FeeStructure.__init__].  The divisor [UNIT_M] is a non-zero literal, so
    these divisions cannot raise. *)
Definition __init__ (fee_rate_out base_out fee_rate_in base_in : Z)
  : FeeStructure :=
  {| m := 1 + fee_rate_out / UNIT_M * (1 + fee_rate_in / UNIT_M)
          + fee_rate_in / UNIT_M;
     n := base_out * (1 + fee_rate_in / UNIT_M) + base_in |}.

(** [FeeStructure.f]: the inbound amount ignoring the floor. *)
Definition f (self : FeeStructure) (x : Q) : Q :=
  m self * x + n self.

(** [FeeStructure.inbound_from_outbound] *)
Definition inbound_from_outbound (self : FeeStructure) (amount : Q) : Q :=
  max (f self amount) amount.

(** [FeeStructure.outbound_from_inbound] *)
Definition outbound_from_inbound (self : FeeStructure) (amount : Q)
  : result Q :=
  if gt (f self amount) amount
  then div (amount - n self) (m self)
  else Return amount.

(** One step of the test loop in [__main__]: forward, inverse, and the
    comparison [round(t.amt_inv, 0) != t.amt_out]; [true] is a passed test. *)
Definition test_amount (fee : FeeStructure) (amt_out : Z) : result bool :=
  let amt_in := inbound_from_outbound fee amt_out in
  amt_inv <- outbound_from_inbound fee amt_in ;;
  Return (Z.eqb (round amt_inv) amt_out).

(** The parameter ranges drawn by [__main__]. *)
Definition valid_params (fee_rate_out base_out fee_rate_in base_in : Z)
  : Prop :=
  (0 <= fee_rate_out <= 10000)%Z /\ (0 <= base_out <= 2000)%Z /\
  (-10000 <= fee_rate_in <= 10000)%Z /\ (-2000 <= base_in <= 2000)%Z.

(** *** The formulas of the specification, in its own words *)

Definition spec_m (fee_rate_out fee_rate_in : Z) : Q :=
  1 + (fee_rate_out / 1e6) * (1 + fee_rate_in / 1e6) + fee_rate_in / 1e6.

Definition spec_n (base_out fee_rate_in base_in : Z) : Q :=
  base_out * (1 + fee_rate_in / 1e6) + base_in.

End Exact.

(** ** IEEE-754 doubles *)

Module Binary64.

Local Open Scope Z_scope.

Definition prec : Z := 53.
Definition emax : Z := 1024.

(** A Python number is an [int] of any size or a [float] (a double). *)
Inductive number : Set :=
| Int (z : Z)
| Float (x : spec_float).

(** [float(z)]: the nearest double, ties to even; too large an [int] raises. *)
Definition of_int (z : Z) : result spec_float :=
  match binary_normalize prec emax z 0 false with
  | S754_infinity _ => Raise OverflowError
  | x => Return x
  end.

Definition to_float (a : number) : result spec_float :=
  match a with
  | Int z => of_int z
  | Float x => Return x
  end.

Definition is_zero (x : spec_float) : bool :=
  match x with
  | S754_zero _ => true
  | _ => false
  end.

(** [int / int]: the correctly rounded quotient of the two integers. *)
Definition int_truediv (a b : Z) : result spec_float :=
  let s := xorb (a <? 0) (b <? 0) in
  match a, b with
  | _, 0 => Raise ZeroDivisionError
  | 0, _ => Return (S754_zero s)
  | _, _ =>
      match SFdiv prec emax
              (S754_finite (a <? 0) (Z.to_pos (Z.abs a)) 0)
              (S754_finite (b <? 0) (Z.to_pos (Z.abs b)) 0) with
      | S754_infinity _ => Raise OverflowError
      | q => Return q
      end
  end.

(** A binary operator with an [int] case and a [float] case; a mixed pair is
    converted to [float] first, left operand first. *)
Definition arith (on_int : Z -> Z -> result number)
    (on_float : spec_float -> spec_float -> result number)
    (a b : number) : result number :=
  match a, b with
  | Int x, Int y => on_int x y
  | _, _ => x <- to_float a ;; y <- to_float b ;; on_float x y
  end.

Definition add : number -> number -> result number :=
  arith (fun x y => Return (Int (x + y)))
        (fun x y => Return (Float (SFadd prec emax x y))).

Definition sub : number -> number -> result number :=
  arith (fun x y => Return (Int (x - y)))
        (fun x y => Return (Float (SFsub prec emax x y))).

Definition mul : number -> number -> result number :=
  arith (fun x y => Return (Int (x * y)))
        (fun x y => Return (Float (SFmul prec emax x y))).

Definition truediv : number -> number -> result number :=
  arith (fun x y => q <- int_truediv x y ;; Return (Float q))
        (fun x y => if is_zero y then Raise ZeroDivisionError
                    else Return (Float (SFdiv prec emax x y))).

(** Comparison of an [int] with a [float] is exact: nothing is rounded. *)
Definition compare_int_float (z : Z) (x : spec_float) : option comparison :=
  match x with
  | S754_nan => None
  | S754_infinity s => Some (if s then Gt else Lt)
  | S754_zero _ => Some (z ?= 0)
  | S754_finite s m e =>
      let v := cond_Zopp s (Zpos m) in
      Some (if 0 <=? e then z ?= v * 2 ^ e else z * 2 ^ (- e) ?= v)
  end.

Definition compare (a b : number) : option comparison :=
  match a, b with
  | Int x, Int y => Some (x ?= y)
  | Int x, Float y => compare_int_float x y
  | Float x, Int y => option_map CompOpp (compare_int_float y x)
  | Float x, Float y => SFcompare x y
  end.

(** [a > b], [a >= b] and [a != b]; every comparison with NaN is false, but
    for [!=]. *)
Definition gt (a b : number) : bool :=
  match compare a b with
  | Some Gt => true
  | _ => false
  end.

Definition ge (a b : number) : bool :=
  match compare a b with
  | Some Gt | Some Eq => true
  | _ => false
  end.

Definition ne (a b : number) : bool :=
  match compare a b with
  | Some Eq => false
  | _ => true
  end.

(** [max(a, b)] *)
Definition max (a b : number) : number :=
  if gt b a then b else a.

(** [round(a, 0)]: an [int] is returned as it is; a finite [float] goes to the
    nearest integral double, ties to even; infinities and NaN are kept. *)
Definition round (a : number) : number :=
  match a with
  | Float (S754_finite s m e) =>
      if 0 <=? e then a
      else
        let k := 2 ^ (- e) in
        let fl := Zpos m / k in
        let i := match 2 * (Zpos m mod k) ?= k with
                 | Lt => fl
                 | Gt => fl + 1
                 | Eq => if Z.even fl then fl else fl + 1
                 end in
        Float (binary_normalize prec emax (cond_Zopp s i) 0 s)
  | _ => a
  end.

(** Python expressions: operands are evaluated left to right and the first
    exception wins. *)
Declare Scope py_scope.
Delimit Scope py_scope with py.

Definition op2 (op : number -> number -> result number)
    (a b : result number) : result number :=
  x <- a ;; y <- b ;; op x y.

Definition pure (a : number) : result number := Return a.

Coercion Int : Z >-> number.
Coercion pure : number >-> result.

Notation "a + b" := (op2 add a b) : py_scope.
Notation "a - b" := (op2 sub a b) : py_scope.
Notation "a * b" := (op2 mul a b) : py_scope.
Notation "a / b" := (op2 truediv a b) : py_scope.

Record FeeStructure : Set := { m : number; n : number }.

Definition __init__ (fee_rate_out base_out fee_rate_in base_in : Z)
  : result FeeStructure :=
  m <- (1 + fee_rate_out / UNIT_M * (1 + fee_rate_in / UNIT_M)
        + fee_rate_in / UNIT_M)%py ;;
  n <- (base_out * (1 + fee_rate_in / UNIT_M) + base_in)%py ;;
  Return {| m := m; n := n |}.

Definition f (self : FeeStructure) (x : number) : result number :=
  (m self * x + n self)%py.

Definition inbound_from_outbound (self : FeeStructure) (amount : number)
  : result number :=
  fx <- f self amount ;;
  Return (max fx amount).

Definition outbound_from_inbound (self : FeeStructure) (amount : number)
  : result number :=
  fx <- f self amount ;;
  if gt fx amount
  then ((amount - n self) / m self)%py
  else Return amount.

Definition test_amount (fee : FeeStructure) (amt_out : Z) : result bool :=
  amt_in <- inbound_from_outbound fee amt_out ;;
  amt_inv <- outbound_from_inbound fee amt_in ;;
  Return (negb (ne (round amt_inv) amt_out)).

End Binary64.

(** ** The test program *)

(** The block under [if __name__ == "__main__"].  [t] is the class
    [TestCase] itself; every attribute of it is assigned in an iteration
    before it is read, so an iteration depends on the numbers drawn and on
    nothing a previous iteration has left behind.  The generator of [random]
    is a parameter: a state, [seed] and [randint].  What is printed is kept
    as the list of the test cases that failed. *)

Module Main.
Import Binary64.
Local Open Scope Z_scope.
Local Open Scope list_scope.

(** The attributes of [TestCase], as a failed test prints them. *)
Record TestCase : Set := {
  fee_rate_out : Z;
  base_out : Z;
  fee_rate_in : Z;
  base_in : Z;
  fee : FeeStructure;
  amt_out : Z;
  amt_in : number;
  amt_inv : number }.

Section Program.

Variable generator : Type.
Variable seed : Z -> generator.
Variable randint : Z -> Z -> generator -> Z * generator.

(** The generator and the lines printed so far. *)
Definition state : Type := (generator * list TestCase)%type.

(** One test of an iteration: an amount is drawn from [lo .. hi], sent
    through both directions and compared; a failed test is printed. *)
Definition test (fee_rate_out base_out fee_rate_in base_in : Z)
    (fee : FeeStructure) (lo hi : Z) (s : state) : result state :=
  let '(g, out) := s in
  let '(amt_out, g) := randint lo hi g in
  amt_in <- inbound_from_outbound fee amt_out ;;
  amt_inv <- outbound_from_inbound fee amt_in ;;
  if ne (round amt_inv) amt_out
  then Return (g, out ++ {| fee_rate_out := fee_rate_out;
                            base_out := base_out;
                            fee_rate_in := fee_rate_in;
                            base_in := base_in;
                            fee := fee;
                            amt_out := amt_out;
                            amt_in := amt_in;
                            amt_inv := amt_inv |} :: nil)
  else Return (g, out).

(** The body of the loop: four parameters are drawn, the transform is
    constructed and three amounts are tested. *)
Definition iteration (s : state) : result state :=
  let '(g, out) := s in
  let '(fee_rate_out, g) := randint 0 10000 g in
  let '(base_out, g) := randint 0 2000 g in
  let '(fee_rate_in, g) := randint (-10000) 10000 g in
  let '(base_in, g) := randint (-2000) 2000 g in
  fee <- __init__ fee_rate_out base_out fee_rate_in base_in ;;
  s <- test fee_rate_out base_out fee_rate_in base_in fee
         0 1000 (g, out) ;;
  s <- test fee_rate_out base_out fee_rate_in base_in fee
         1000 1000000000 s ;;
  test fee_rate_out base_out fee_rate_in base_in fee
    1000000000 100000000000 s.

(** [for _ in range(count)]; an exception ends the program. *)
Definition loop (count : N) (s : state) : result state :=
  N.iter count (fun r => s <- r ;; iteration s) (Return s).

Definition main : result state :=
  loop 1000000 (seed 21000000, nil).

End Program.

End Main.

(** ** The value of a double *)

Module Binary64Value.

Local Open Scope Q_scope.

Definition sgn (s : bool) : Q := if s then -1 else 1.

(** The rational a finite double stands for; both zeros stand for [0]. *)
Definition value (x : spec_float) : Q :=
  match x with
  | S754_finite s m e => sgn s * (inject_Z (Zpos m) * 2 ^ e)
  | _ => 0
  end.

(** Zero, or a normal double: a mantissa of exactly 53 digits and an
    exponent inside a window. *)
Definition regular (lo hi : Z) (x : spec_float) : Prop :=
  match x with
  | S754_zero _ => True
  | S754_finite _ m e => Zpos (digits2_pos m) = 53%Z /\ (lo <= e <= hi)%Z
  | _ => False
  end.

(** Bounds on the relative rounding error: [2^-52] for sums and products,
    [2^-51] for quotients. *)
Definition u52 : Q := 1 # 4503599627370496.

Definition u51 : Q := 1 # 2251799813685248.

(** The rational a Python number stands for. *)
Definition number_value (a : Binary64.number) : Q :=
  match a with
  | Binary64.Int z => inject_Z z
  | Binary64.Float x => value x
  end.

(** A number that has a value: an [int], or a double that is zero or
    normal; infinities and NaN are left out. *)
Definition finite (a : Binary64.number) : Prop :=
  match a with
  | Binary64.Int _ => True
  | Binary64.Float x => regular (-1074) 971 x
  end.

(** An amount of moderate size: an [int] below [2^53] in absolute value,
    which converts to a double without rounding, or a double that is zero or
    normal with an exponent between [-350] and [300], that is, of a
    magnitude between [2^-298] and [2^353]. *)
Definition moderate (a : Binary64.number) : Prop :=
  match a with
  | Binary64.Int z => (Z.abs z < 2 ^ 53)%Z
  | Binary64.Float x => regular (-350) 300 x
  end.

End Binary64Value.

(** ** Facts about the exact embedding *)

Module ExactFacts.
Import Exact.
Local Open Scope Q_scope.
Local Coercion inject_Z : Z >-> Q.

(** *** The Python primitives *)

Lemma gt_spec (a b : Q) : gt a b = true <-> b < a.
Proof.
  unfold gt. rewrite (Qgt_alt a b).
  destruct (a ?= b); split; intro H; congruence.
Qed.

Lemma gt_false (a b : Q) : gt a b = false <-> a <= b.
Proof.
  unfold gt. rewrite Qle_alt.
  destruct (a ?= b); split; intro H; congruence.
Qed.

Lemma max_Qmax (a b : Q) : max a b = Qmax a b.
Proof.
  unfold max, gt, Qmax, GenericMinMax.gmax.
  rewrite <- (Qcompare_antisym a b).
  destruct (a ?= b); reflexivity.
Qed.

Lemma max_first (a b : Q) : b <= a -> max a b = a.
Proof.
  intro H. unfold max. apply gt_false in H. now rewrite H.
Qed.

Lemma max_second (a b : Q) : a < b -> max a b = b.
Proof.
  intro H. unfold max. apply gt_spec in H. now rewrite H.
Qed.

Lemma div_nonzero (a b : Q) : ~ b == 0 -> div a b = Return (a / b).
Proof.
  intro H. unfold div.
  destruct (Qeq_bool b 0) eqn:E; [|reflexivity].
  apply Qeq_bool_iff in E. contradiction.
Qed.

Lemma div_zero (a b : Q) : b == 0 -> div a b = Raise ZeroDivisionError.
Proof.
  intro H. unfold div. apply Qeq_bool_iff in H. now rewrite H.
Qed.

Lemma round_comp (x y : Q) : x == y -> round x = round y.
Proof.
  intro H. unfold round.
  rewrite (Qfloor_comp _ _ H).
  assert (E : x - Qfloor y == y - Qfloor y) by (rewrite H; reflexivity).
  now rewrite E.
Qed.

Lemma round_inject_Z (z : Z) : round z = z.
Proof.
  unfold round. rewrite Qfloor_Z.
  assert (E : z - z == 0) by ring.
  now rewrite E.
Qed.

Lemma max_ge_first (a b : Q) : a <= max a b.
Proof.
  rewrite max_Qmax. apply Q.le_max_l.
Qed.

Lemma max_ge_second (a b : Q) : b <= max a b.
Proof.
  rewrite max_Qmax. apply Q.le_max_r.
Qed.

(** *** The two branches of each direction *)

Section Branches.
Variable self : FeeStructure.

Lemma f_comp (x y : Q) : x == y -> f self x == f self y.
Proof.
  intro H. unfold f. now rewrite H.
Qed.

(** The distance to the floor is scaled by [m] when [f] is applied. *)
Lemma f_gap (x : Q) :
  f self (f self x) - f self x == m self * (f self x - x).
Proof.
  unfold f. ring.
Qed.

Lemma inbound_linear (x : Q) :
  x <= f self x -> inbound_from_outbound self x = f self x.
Proof.
  intro H. unfold inbound_from_outbound. now apply max_first.
Qed.

Lemma inbound_floor (x : Q) :
  f self x < x -> inbound_from_outbound self x = x.
Proof.
  intro H. unfold inbound_from_outbound. now apply max_second.
Qed.

Lemma inbound_cases (x : Q) :
  (x < f self x /\ inbound_from_outbound self x = f self x) \/
  (f self x <= x /\ inbound_from_outbound self x == x).
Proof.
  destruct (Qlt_le_dec x (f self x)) as [H|H].
  - left. split; [exact H|]. apply inbound_linear. lra.
  - right. split; [exact H|].
    destruct (Qlt_le_dec (f self x) x) as [H'|H'].
    + now rewrite inbound_floor.
    + rewrite inbound_linear by exact H'. lra.
Qed.

Lemma outbound_linear (x : Q) :
  x < f self x ->
  outbound_from_inbound self x = div (x - n self) (m self).
Proof.
  intro H. unfold outbound_from_inbound.
  apply gt_spec in H. now rewrite H.
Qed.

Lemma outbound_identity (x : Q) :
  f self x <= x -> outbound_from_inbound self x = Return x.
Proof.
  intro H. unfold outbound_from_inbound.
  apply gt_false in H. now rewrite H.
Qed.

(** With a positive multiplier the inverse undoes the forward direction. *)
Lemma round_trip (x : Q) :
  0 < m self ->
  exists q,
    outbound_from_inbound self (inbound_from_outbound self x) = Return q /\
    q == x.
Proof.
  intro Hm.
  destruct (inbound_cases x) as [[H E]|[H E]].
  - rewrite E, outbound_linear.
    + rewrite div_nonzero by lra.
      eexists; split; [reflexivity|]. unfold f. field. lra.
    + pose proof (f_gap x) as G.
      assert (0 < m self * (f self x - x)) by (apply Qmult_lt_0_compat; lra).
      lra.
  - rewrite outbound_identity.
    + eexists; split; [reflexivity|exact E].
    + rewrite (f_comp E). lra.
Qed.

End Branches.

End ExactFacts.

(** ** Facts about the comparisons on doubles *)

Module Binary64Facts.
Import Binary64.
Local Open Scope Z_scope.

Lemma SFcompare_antisym (x y : spec_float) (c : comparison) :
  SFcompare x y = Some c -> SFcompare y x = Some (CompOpp c).
Proof.
  destruct x as [sx|sx| |sx mx ex], y as [sy|sy| |sy my ey];
    try destruct sx; try destruct sy; simpl; intro H;
    try discriminate; try (injection H as <-; reflexivity).
  all: injection H as <-; f_equal.
  all: rewrite (Z.compare_antisym ex ey); destruct (ex ?= ey); simpl;
    try reflexivity.
  all: rewrite (Pos.compare_cont_antisym mx my Eq); simpl;
    try rewrite CompOpp_involutive; reflexivity.
Qed.

Lemma SFcompare_refl (x : spec_float) :
  SFcompare x x <> None -> SFcompare x x = Some Eq.
Proof.
  destruct x as [s|s| |s m e]; try destruct s; simpl; intro H;
    try reflexivity; try (now elim H).
  all: rewrite Z.compare_refl, Pos.compare_cont_refl; reflexivity.
Qed.

Lemma compare_antisym (a b : number) (c : comparison) :
  compare a b = Some c -> compare b a = Some (CompOpp c).
Proof.
  destruct a as [x|x], b as [y|y]; simpl.
  - intro H. injection H as <-. now rewrite (Z.compare_antisym x y).
  - intros ->. reflexivity.
  - destruct (compare_int_float y x) as [d|]; simpl; [|discriminate].
    intro H. injection H as <-. now rewrite CompOpp_involutive.
  - apply SFcompare_antisym.
Qed.

Lemma compare_refl (a : number) :
  compare a a <> None -> compare a a = Some Eq.
Proof.
  destruct a as [x|x]; simpl.
  - now rewrite Z.compare_refl.
  - apply SFcompare_refl.
Qed.

(** [max(a, b) >= b] unless NaN is involved. *)
Lemma max_ge_second_on_doubles (a b : number) :
  compare (max a b) b <> None -> ge (max a b) b = true.
Proof.
  unfold max, gt, ge.
  destruct (compare b a) as [c|] eqn:E.
  - destruct c.
    + rewrite (@compare_antisym _ _ _ E). reflexivity.
    + rewrite (@compare_antisym _ _ _ E). reflexivity.
    + intro H. now rewrite (@compare_refl _ H).
  - destruct (compare a b) as [c|] eqn:E'; [|intro H; now elim H].
    apply (@compare_antisym a b c) in E'. congruence.
Qed.

End Binary64Facts.

Unset Implicit Arguments.

(** ** Rounding of mantissas *)

Module Binary64Round.
Import Binary64.
Local Open Scope Z_scope.

(** *** Digits of a mantissa *)

Lemma digits2_pos_bounds (m : positive) :
  2 ^ (Zpos (digits2_pos m) - 1) <= Zpos m < 2 ^ Zpos (digits2_pos m).
Proof.
  induction m as [m IH|m IH|]; simpl digits2_pos.
  - rewrite Pos2Z.inj_succ, (Pos2Z.inj_xI m).
    replace (Z.succ (Zpos (digits2_pos m)) - 1)
      with (Z.succ (Zpos (digits2_pos m) - 1)) by lia.
    rewrite !Z.pow_succ_r by lia. lia.
  - rewrite Pos2Z.inj_succ, (Pos2Z.inj_xO m).
    replace (Z.succ (Zpos (digits2_pos m)) - 1)
      with (Z.succ (Zpos (digits2_pos m) - 1)) by lia.
    rewrite !Z.pow_succ_r by lia. lia.
  - simpl. lia.
Qed.

Lemma digits2_pos_unique (m : positive) (d : Z) :
  2 ^ (d - 1) <= Zpos m < 2 ^ d -> Zpos (digits2_pos m) = d.
Proof.
  intros [Hl Hu].
  pose proof (digits2_pos_bounds m) as [Bl Bu].
  assert (0 < d).
  { destruct (Z_lt_le_dec 0 d) as [?|Hd]; [assumption|].
    assert (2 ^ d <= 1).
    { destruct (Z.eq_dec d 0) as [->|]; [simpl; lia|].
      rewrite Z.pow_neg_r by lia. lia. }
    lia. }
  destruct (Z_lt_le_dec (Zpos (digits2_pos m)) d) as [Hlt|Hge].
  - assert (2 ^ Zpos (digits2_pos m) <= 2 ^ (d - 1))
      by (apply Z.pow_le_mono_r; lia). lia.
  - destruct (Z.eq_dec (Zpos (digits2_pos m)) d) as [?|Hne]; [assumption|].
    assert (2 ^ d <= 2 ^ (Zpos (digits2_pos m) - 1))
      by (apply Z.pow_le_mono_r; lia). lia.
Qed.

(** *** Right shifts divide the mantissa *)

Lemma shr_m_shr_1 (mrs : shr_record) :
  0 <= shr_m mrs -> shr_m (shr_1 mrs) = shr_m mrs / 2.
Proof.
  destruct mrs as [m r s]. simpl. intro H.
  destruct m as [|[p|p|]|p]; simpl; try reflexivity; try lia.
  - rewrite (Pos2Z.inj_xI p). apply (Z.div_unique _ 2 _ 1); lia.
  - rewrite (Pos2Z.inj_xO p). apply (Z.div_unique _ 2 _ 0); lia.
Qed.

(** [n] shifts divide by [2 ^ n]. *)
Lemma shr_m_iter_pos (p : positive) (mrs : shr_record) :
  0 <= shr_m mrs ->
  shr_m (iter_pos shr_1 p mrs) = shr_m mrs / 2 ^ Zpos p.
Proof.
  revert mrs. induction p as [p IH|p IH|]; intros mrs H; simpl iter_pos.
  - assert (H1 : 0 <= shr_m (shr_1 mrs))
      by (rewrite shr_m_shr_1 by assumption; apply Z.div_pos; lia).
    assert (H2 : 0 <= shr_m (iter_pos shr_1 p (shr_1 mrs)))
      by (rewrite IH by assumption; apply Z.div_pos; lia).
    rewrite IH, IH, shr_m_shr_1 by assumption.
    rewrite !Z.div_div by lia.
    f_equal. rewrite (Pos2Z.inj_xI p).
    replace (2 * Zpos p + 1) with (1 + Zpos p + Zpos p) by lia.
    rewrite !Z.pow_add_r by lia. change (2 ^ 1) with 2. lia.
  - assert (H2 : 0 <= shr_m (iter_pos shr_1 p mrs))
      by (rewrite IH by assumption; apply Z.div_pos; lia).
    rewrite IH, IH by assumption.
    rewrite !Z.div_div by lia.
    f_equal. rewrite (Pos2Z.inj_xO p).
    replace (2 * Zpos p) with (Zpos p + Zpos p) by lia.
    rewrite !Z.pow_add_r by lia. lia.
  - now apply shr_m_shr_1.
Qed.

Lemma shr_m_of_loc (m : Z) (l : location) :
  shr_m (shr_record_of_loc m l) = m.
Proof.
  destruct l as [|[]]; reflexivity.
Qed.

(** [shr_fexp] divides the mantissa by [2 ^ n], where [n] is the distance to
    the canonical exponent, when that distance is positive. *)
Lemma shr_fexp_shift (m e : Z) (l : location) :
  0 <= m ->
  0 < fexp prec emax (Zdigits2 m + e) - e ->
  let n := fexp prec emax (Zdigits2 m + e) - e in
  shr_m (fst (shr_fexp prec emax m e l)) = m / 2 ^ n /\
  snd (shr_fexp prec emax m e l) = e + n.
Proof.
  intros Hm Hn n. unfold shr_fexp, shr. fold n.
  destruct n as [|p|p] eqn:E; try lia.
  simpl fst; simpl snd. split; [|reflexivity].
  rewrite shr_m_iter_pos; rewrite shr_m_of_loc; [reflexivity|assumption].
Qed.

Lemma shr_fexp_keep (m e : Z) (l : location) :
  fexp prec emax (Zdigits2 m + e) - e <= 0 ->
  shr_fexp prec emax m e l = (shr_record_of_loc m l, e).
Proof.
  intro Hn. unfold shr_fexp, shr.
  destruct (fexp prec emax (Zdigits2 m + e) - e) as [|p|p];
    try reflexivity; lia.
Qed.

Lemma round_nearest_even_cases (m : Z) (l : location) :
  round_nearest_even m l = m \/ round_nearest_even m l = m + 1.
Proof.
  destruct l as [|[]]; simpl; auto.
  destruct (Z.even m); auto.
Qed.

(** *** The two stages of [binary_round_aux] *)

Lemma fexp_normal (k : Z) : -1074 <= k - 53 -> fexp prec emax k = k - 53.
Proof.
  intro H. unfold fexp, emin, prec, emax. lia.
Qed.

Lemma Zdigits2_pos (m : Z) (d : Z) :
  2 ^ (d - 1) <= m < 2 ^ d -> 0 < m -> Zdigits2 m = d.
Proof.
  intros H Hm. destruct m as [|p|p]; try lia.
  simpl. now apply digits2_pos_unique.
Qed.

(** First stage: the mantissa is cut down to 53 digits. *)
Lemma shr_fexp_first (mx : positive) (ex : Z) (lx : location) :
  let d := Zpos (digits2_pos mx) in
  prec <= d -> -1074 <= ex ->
  exists mrs,
    shr_fexp prec emax (Zpos mx) ex lx = (mrs, ex + (d - prec)) /\
    shr_m mrs = Zpos mx / 2 ^ (d - prec).
Proof.
  intros d Hd He.
  assert (Hf : fexp prec emax (Zdigits2 (Zpos mx) + ex) - ex = d - prec).
  { simpl Zdigits2. fold d. rewrite fexp_normal; unfold prec in *; lia. }
  destruct (Z.eq_dec d prec) as [E|E].
  - exists (shr_record_of_loc (Zpos mx) lx).
    rewrite shr_fexp_keep by lia.
    rewrite E, Z.sub_diag, Z.add_0_r, shr_m_of_loc.
    split; [reflexivity|]. simpl. now rewrite Z.div_1_r.
  - destruct (shr_fexp_shift (Zpos mx) ex lx) as [H1 H2]; [lia|lia|].
    rewrite Hf in H1, H2.
    exists (fst (shr_fexp prec emax (Zpos mx) ex lx)).
    split; [|exact H1].
    rewrite <- H2. apply surjective_pairing.
Qed.

(** Cutting a mantissa down to 53 digits leaves it between [2^52] and
    [2^53]. *)
Lemma quotient_bounds (mx : positive) :
  let d := Zpos (digits2_pos mx) in
  prec <= d ->
  2 ^ 52 <= Zpos mx / 2 ^ (d - prec) < 2 ^ 53.
Proof.
  intros d Hd.
  pose proof (digits2_pos_bounds mx) as [Bl Bu]. fold d in Bl, Bu.
  assert (P : 0 < 2 ^ (d - prec)) by (apply Z.pow_pos_nonneg; lia).
  assert (E1 : 2 ^ (d - 1) = 2 ^ 52 * 2 ^ (d - prec)).
  { rewrite <- Z.pow_add_r by (unfold prec in *; lia).
    f_equal. unfold prec. lia. }
  assert (E2 : 2 ^ d = 2 ^ 53 * 2 ^ (d - prec)).
  { rewrite <- Z.pow_add_r by (unfold prec in *; lia).
    f_equal. unfold prec. lia. }
  split.
  - apply Z.div_le_lower_bound; [assumption|]. lia.
  - apply Z.div_lt_upper_bound; [assumption|]. lia.
Qed.

(** Second stage: a mantissa of 53 digits is kept, [2 ^ 53] is halved. *)
Lemma shr_fexp_second (M1 e1 : Z) :
  2 ^ 52 <= M1 <= 2 ^ 53 -> -1074 <= e1 ->
  exists mrs e2,
    shr_fexp prec emax M1 e1 loc_Exact = (mrs, e2) /\
    2 ^ 52 <= shr_m mrs < 2 ^ 53 /\
    e1 <= e2 <= e1 + 1 /\
    shr_m mrs * 2 ^ (e2 - e1) = M1.
Proof.
  intros HM He.
  destruct (Z_lt_le_dec M1 (2 ^ 53)) as [Hlt|Hge].
  - exists (shr_record_of_loc M1 loc_Exact), e1.
    rewrite shr_fexp_keep.
    + rewrite shr_m_of_loc, Z.sub_diag. simpl (2 ^ 0). repeat split; lia.
    + rewrite (Zdigits2_pos M1 53) by (simpl (53 - 1); lia).
      rewrite fexp_normal; lia.
  - assert (E : M1 = 2 ^ 53) by lia. subst M1.
    assert (Hf : fexp prec emax (Zdigits2 (2 ^ 53) + e1) - e1 = 1).
    { rewrite (Zdigits2_pos (2 ^ 53) 54) by (simpl; lia).
      rewrite fexp_normal; lia. }
    destruct (shr_fexp_shift (2 ^ 53) e1 loc_Exact) as [H1 H2]; [lia|lia|].
    rewrite Hf in H1, H2.
    exists (fst (shr_fexp prec emax (2 ^ 53) e1 loc_Exact)), (e1 + 1).
    split; [rewrite <- H2; apply surjective_pairing|].
    rewrite H1. replace (e1 + 1 - e1) with 1 by lia.
    change (2 ^ 53 / 2 ^ 1) with (2 ^ 52).
    change (2 ^ 52 * 2 ^ 1) with (2 ^ 53).
    repeat split; lia.
Qed.

(** The rounding error model of [binary_round_aux] in the normal range. *)
Lemma binary_round_aux_normal (s : bool) (mx : positive) (ex : Z)
    (lx : location) :
  let d := Zpos (digits2_pos mx) in
  prec <= d -> -1074 <= ex -> ex + d <= 1023 ->
  exists (M : positive) (E : Z),
    binary_round_aux prec emax s (Zpos mx) ex lx = S754_finite s M E /\
    Zpos (digits2_pos M) = prec /\
    ex + (d - prec) <= E <= ex + (d - prec) + 1 /\
    Zpos mx - 2 ^ (d - prec) < Zpos M * 2 ^ (E - ex)
      <= Zpos mx + 2 ^ (d - prec).
Proof.
  intros d Hd He Ho.
  destruct (shr_fexp_first mx ex lx Hd He) as (mrs1 & S1 & Q1).
  fold d in S1, Q1.
  pose proof (quotient_bounds mx Hd) as QB. fold d in QB.
  set (n1 := d - prec) in *.
  set (M1 := round_nearest_even (shr_m mrs1) (loc_of_shr_record mrs1)).
  assert (HM1 : M1 = shr_m mrs1 \/ M1 = shr_m mrs1 + 1)
    by apply round_nearest_even_cases.
  destruct (shr_fexp_second M1 (ex + n1)) as (mrs2 & e2 & S2 & B2 & E2 & V2);
    [lia|lia|].
  unfold binary_round_aux. rewrite S1. fold M1. rewrite S2.
  destruct (shr_m mrs2) as [|M|M] eqn:EM; try lia.
  exists M, e2.
  assert (Hle : (e2 <=? emax - prec) = true)
    by (apply Z.leb_le; unfold n1, emax, prec in *; lia).
  rewrite Hle. split; [reflexivity|].
  split; [apply digits2_pos_unique; simpl (prec - 1); unfold prec; lia|].
  split; [lia|].
  assert (P : 0 < 2 ^ n1) by (apply Z.pow_pos_nonneg; unfold n1; lia).
  replace (e2 - ex) with ((e2 - (ex + n1)) + n1) by lia.
  rewrite Z.pow_add_r by (unfold n1; lia).
  rewrite Z.mul_assoc, V2.
  pose proof (Z.div_mod (Zpos mx) (2 ^ n1)) as DM.
  pose proof (Z.mod_pos_bound (Zpos mx) (2 ^ n1) P) as MB.
  rewrite <- Q1 in DM.
  nia.
Qed.

(** A mantissa of exactly 53 digits goes through unchanged. *)
Lemma binary_round_aux_exact (s : bool) (mx : positive) (ex : Z) :
  Zpos (digits2_pos mx) = prec -> -1074 <= ex -> ex <= 970 ->
  binary_round_aux prec emax s (Zpos mx) ex loc_Exact = S754_finite s mx ex.
Proof.
  intros Hd He Ho.
  assert (K : fexp prec emax (Zdigits2 (Zpos mx) + ex) - ex <= 0).
  { simpl Zdigits2. rewrite Hd, fexp_normal; unfold prec; lia. }
  unfold binary_round_aux.
  rewrite shr_fexp_keep by exact K. simpl round_nearest_even.
  rewrite shr_fexp_keep by exact K. simpl shr_m.
  assert (Hle : (ex <=? emax - prec) = true)
    by (apply Z.leb_le; unfold emax, prec; lia).
  now rewrite Hle.
Qed.

(** Whatever the exponent, a mantissa of at least 53 digits is rounded to
    53 digits, and to infinity when the exponent of the result is too
    large. *)
Lemma binary_round_aux_large (s : bool) (mx : positive) (ex : Z)
    (lx : location) :
  let d := Zpos (digits2_pos mx) in
  prec <= d -> -1074 <= ex ->
  exists (M : positive) (E : Z),
    binary_round_aux prec emax s (Zpos mx) ex lx
    = (if E <=? emax - prec then S754_finite s M E else S754_infinity s) /\
    Zpos (digits2_pos M) = prec /\
    ex + (d - prec) <= E <= ex + (d - prec) + 1.
Proof.
  intros d Hd He.
  destruct (shr_fexp_first mx ex lx Hd He) as (mrs1 & S1 & Q1).
  fold d in S1, Q1.
  pose proof (quotient_bounds mx Hd) as QB. fold d in QB.
  set (n1 := d - prec) in *.
  set (M1 := round_nearest_even (shr_m mrs1) (loc_of_shr_record mrs1)).
  assert (HM1 : M1 = shr_m mrs1 \/ M1 = shr_m mrs1 + 1)
    by apply round_nearest_even_cases.
  destruct (shr_fexp_second M1 (ex + n1)) as (mrs2 & e2 & S2 & B2 & E2 & V2);
    [lia|lia|].
  unfold binary_round_aux. rewrite S1. fold M1. rewrite S2.
  destruct (shr_m mrs2) as [|M|M] eqn:EM; try lia.
  exists M, e2. split; [reflexivity|].
  split; [apply digits2_pos_unique; simpl (prec - 1); unfold prec; lia|].
  lia.
Qed.

End Binary64Round.

(** ** The rounding error of the operations on doubles *)

Module Binary64Error.
Import Binary64 Binary64Value Binary64Round.
Local Open Scope Q_scope.

(** *** Powers of two, signs and exponent windows *)

Lemma pow2_pos (e : Z) : 0 < 2 ^ e.
Proof. apply Qpower_0_lt. reflexivity. Qed.

Lemma pow2_add (a b : Z) : 2 ^ (a + b) == 2 ^ a * 2 ^ b.
Proof. apply Qpower_plus. discriminate. Qed.

Lemma pow2_inject (n : Z) : (0 <= n)%Z -> inject_Z (2 ^ n) == 2 ^ n.
Proof. intro H. now rewrite Zpower_Qpower. Qed.

Lemma sgn_xorb (a b : bool) : sgn (xorb a b) == sgn a * sgn b.
Proof. destruct a, b; reflexivity. Qed.

(** A window can be widened. *)
Lemma regular_weaken (lo hi lo' hi' : Z) (x : spec_float) :
  regular lo hi x -> (lo' <= lo)%Z -> (hi <= hi')%Z -> regular lo' hi' x.
Proof.
  destruct x; simpl; auto. intros [H1 H2] ? ?. split; [assumption|lia].
Qed.

(** *** From rounded mantissas to relative errors *)

(** Scaled integer bounds turn into a relative error. *)
Lemma scaled_error (s : bool) (k m t : Z) (ex : Z) :
  (m - t < k <= m + t)%Z -> (t * 2 ^ 52 <= m)%Z -> (0 <= t)%Z ->
  Qabs (sgn s * (inject_Z k * 2 ^ ex) - sgn s * (inject_Z m * 2 ^ ex))
  <= u52 * (inject_Z m * 2 ^ ex).
Proof.
  intros [H1 H2] H3 H4.
  pose proof (pow2_pos ex) as P. set (p := 2 ^ ex) in *.
  assert (Q1 : inject_Z m <= inject_Z k + inject_Z t).
  { rewrite <- inject_Z_plus, <- Zle_Qle. lia. }
  assert (Q2 : inject_Z k <= inject_Z m + inject_Z t).
  { rewrite <- inject_Z_plus, <- Zle_Qle. lia. }
  assert (Q3 : inject_Z t * 4503599627370496 <= inject_Z m).
  { change 4503599627370496 with (inject_Z (2 ^ 52)).
    rewrite <- inject_Z_mult, <- Zle_Qle. exact H3. }
  assert (Q4 : 0 <= inject_Z t)
    by (change 0 with (inject_Z 0); now rewrite <- Zle_Qle).
  unfold u52. apply Qabs_Qle_condition.
  assert (B1 : (inject_Z k - inject_Z m) * p <= inject_Z t * p)
    by (apply Qmult_le_compat_r; lra).
  assert (B2 : - (inject_Z t * p) <= (inject_Z k - inject_Z m) * p).
  { assert (X : (inject_Z m - inject_Z k) * p <= inject_Z t * p)
      by (apply Qmult_le_compat_r; lra). lra. }
  assert (B3 : inject_Z t * p <= (1 # 4503599627370496) * (inject_Z m * p)).
  { assert (X : inject_Z t * 4503599627370496 * p <= inject_Z m * p)
      by (apply Qmult_le_compat_r; lra). lra. }
  destruct s; unfold sgn; split; lra.
Qed.

(** [binary_round_aux] on a mantissa of at least 53 digits: a normal double
    within [2^-52] of the mantissa it was given. *)
Lemma round_value (s : bool) (mx : positive) (ex : Z) (lx : location) :
  let d := Zpos (digits2_pos mx) in
  (53 <= d)%Z -> (-1074 <= ex)%Z -> (ex + d <= 1023)%Z ->
  exists z,
    binary_round_aux prec emax s (Zpos mx) ex lx = z /\
    (exists m e, z = S754_finite s m e) /\
    regular (ex + (d - 53)) (ex + (d - 53) + 1) z /\
    Qabs (value z - sgn s * (inject_Z (Zpos mx) * 2 ^ ex))
    <= u52 * (inject_Z (Zpos mx) * 2 ^ ex).
Proof.
  intros d Hd He Ho.
  destruct (binary_round_aux_normal s mx ex lx Hd He Ho)
    as (M & E & R & D & EB & VB).
  fold d in EB, VB. unfold prec in *.
  pose proof (digits2_pos_bounds mx) as [Bl _]. fold d in Bl.
  clearbody d.
  exists (S754_finite s M E). split; [exact R|].
  split; [eauto|]. split; [simpl; split; [exact D|lia]|].
  simpl value.
  assert (EQ : inject_Z (Zpos M) * 2 ^ E
               == inject_Z (Zpos M * 2 ^ (E - ex)) * 2 ^ ex).
  { rewrite inject_Z_mult, pow2_inject by lia.
    rewrite <- Qmult_assoc, <- pow2_add.
    replace (E - ex + ex)%Z with E by lia. reflexivity. }
  rewrite EQ.
  apply (scaled_error s _ _ (2 ^ (d - 53))%Z);
    [exact VB| |apply Z.pow_nonneg; lia].
  rewrite <- Z.pow_add_r by lia.
  replace (d - 53 + 52)%Z with (d - 1)%Z by lia. exact Bl.
Qed.

(** *** Multiplication *)

Lemma mag_pos (m : positive) (e : Z) : 0 < inject_Z (Zpos m) * 2 ^ e.
Proof.
  apply Qmult_lt_0_compat; [reflexivity|apply pow2_pos].
Qed.

Lemma Qabs_sgn (s : bool) (a : Q) : 0 <= a -> Qabs (sgn s * a) == a.
Proof.
  intro H. destruct s; unfold sgn.
  - assert (E : -1 * a == - a) by ring. rewrite E, Qabs_opp. now apply Qabs_pos.
  - assert (E : 1 * a == a) by ring. rewrite E. now apply Qabs_pos.
Qed.

Lemma Qabs_zero_le (a b : Q) : a == 0 -> 0 <= b -> Qabs a <= b.
Proof.
  intros -> H. exact H.
Qed.

(** The product of two 53-digit mantissas has 105 or 106 digits. *)
Lemma digits_product (mx my : positive) :
  Zpos (digits2_pos mx) = 53%Z -> Zpos (digits2_pos my) = 53%Z ->
  (105 <= Zpos (digits2_pos (mx * my)) <= 106)%Z.
Proof.
  intros Hx Hy.
  pose proof (digits2_pos_bounds mx) as [Xl Xu].
  pose proof (digits2_pos_bounds my) as [Yl Yu].
  pose proof (digits2_pos_bounds (mx * my)) as [Pl Pu].
  rewrite Hx in Xl, Xu. rewrite Hy in Yl, Yu.
  rewrite Pos2Z.inj_mul in Pl, Pu.
  set (d := Zpos (digits2_pos (mx * my))) in *.
  assert (L : (2 ^ 104 <= Zpos mx * Zpos my)%Z)
    by (change (2 ^ 104)%Z with (2 ^ 52 * 2 ^ 52)%Z;
        simpl (53 - 1)%Z in *; nia).
  assert (U : (Zpos mx * Zpos my < 2 ^ 106)%Z)
    by (change (2 ^ 106)%Z with (2 ^ 53 * 2 ^ 53)%Z; nia).
  split.
  - destruct (Z_lt_le_dec d 105) as [H|H]; [|exact H].
    assert (2 ^ d <= 2 ^ 104)%Z by (apply Z.pow_le_mono_r; lia). lia.
  - destruct (Z_lt_le_dec 106 d) as [H|H]; [|exact H].
    assert (2 ^ 106 <= 2 ^ (d - 1))%Z by (apply Z.pow_le_mono_r; lia). lia.
Qed.

(** Multiplication: [fl(x * y) = x * y * (1 + delta)], [|delta| <= 2^-52]. *)
Lemma SFmul_spec (lo1 hi1 lo2 hi2 : Z) (x y : spec_float) :
  regular lo1 hi1 x -> regular lo2 hi2 y ->
  (-1074 <= lo1 + lo2)%Z -> (hi1 + hi2 <= 900)%Z ->
  regular (lo1 + lo2 + 52) (hi1 + hi2 + 54) (SFmul prec emax x y) /\
  Qabs (value (SFmul prec emax x y) - value x * value y)
  <= u52 * Qabs (value x * value y).
Proof.
  intros Rx Ry Hlo Hhi.
  assert (Zero : forall a : Q, a == 0 -> Qabs (0 - a) <= u52 * Qabs a).
  { intros a ->. discriminate. }
  destruct x as [sx|sx| |sx mx ex], y as [sy|sy| |sy my ey];
    simpl in Rx, Ry; try contradiction; simpl SFmul.
  - split; [exact I|]. apply Zero. simpl; ring.
  - split; [exact I|]. apply Zero. simpl; ring.
  - split; [exact I|]. apply Zero. simpl; ring.
  - destruct Rx as [Dx Ex], Ry as [Dy Ey].
    pose proof (digits_product mx my Dx Dy) as DP.
    destruct (round_value (xorb sx sy) (mx * my) (ex + ey) loc_Exact)
      as (z & -> & _ & R & V); [lia|lia|lia|].
    split.
    + eapply regular_weaken; [exact R|lia|lia].
    + simpl value.
      assert (E : sgn sx * (inject_Z (Zpos mx) * 2 ^ ex)
                  * (sgn sy * (inject_Z (Zpos my) * 2 ^ ey))
                  == sgn (xorb sx sy)
                     * (inject_Z (Zpos (mx * my)) * 2 ^ (ex + ey))).
      { rewrite sgn_xorb, Pos2Z.inj_mul, inject_Z_mult, pow2_add. ring. }
      rewrite E, Qabs_sgn; [exact V|].
      apply Qlt_le_weak, mag_pos.
Qed.

(** *** Alignment, normalization, sums and differences *)

Lemma Pos_iter_xO (m p : positive) :
  Zpos (Pos.iter xO m p) = (Zpos m * 2 ^ Zpos p)%Z.
Proof.
  induction p as [|p IH] using Pos.peano_ind.
  - simpl. rewrite (Pos2Z.inj_xO m). lia.
  - rewrite Pos.iter_succ, (Pos2Z.inj_xO (Pos.iter xO m p)), IH.
    rewrite Pos2Z.inj_succ, Z.pow_succ_r by lia. lia.
Qed.

Lemma shl_align_value (mx : positive) (ex ez : Z) :
  (ez <= ex)%Z ->
  Zpos (fst (shl_align mx ex ez)) = (Zpos mx * 2 ^ (ex - ez))%Z /\
  snd (shl_align mx ex ez) = ez.
Proof.
  intro H. unfold shl_align.
  destruct (ez - ex)%Z as [|d|d] eqn:E; try lia.
  - simpl. replace (ex - ez)%Z with 0%Z by lia. simpl. split; lia.
  - simpl. rewrite Pos_iter_xO. replace (ex - ez)%Z with (Zpos d) by lia.
    split; reflexivity.
Qed.

Lemma shl_align_keep (mx : positive) (ex ez : Z) :
  (ex <= ez)%Z -> shl_align mx ex ez = (mx, ex).
Proof.
  intro H. unfold shl_align.
  destruct (ez - ex)%Z as [|d|d] eqn:E; try reflexivity; lia.
Qed.

Lemma digits_shift (p : positive) (k : Z) (q : positive) :
  (0 <= k)%Z -> Zpos q = (Zpos p * 2 ^ k)%Z ->
  Zpos (digits2_pos q) = (Zpos (digits2_pos p) + k)%Z.
Proof.
  intros Hk E. apply digits2_pos_unique. rewrite E.
  pose proof (digits2_pos_bounds p) as [Bl Bu].
  replace (Zpos (digits2_pos p) + k - 1)%Z
    with (Zpos (digits2_pos p) - 1 + k)%Z by lia.
  rewrite !Z.pow_add_r by lia.
  assert (0 < 2 ^ k)%Z by (apply Z.pow_pos_nonneg; lia).
  split; nia.
Qed.

(** [binary_round]: exact up to 53 digits, relative error [2^-52] beyond. *)
Lemma binary_round_spec (s : bool) (p : positive) (ez : Z) :
  let d := Zpos (digits2_pos p) in
  (-1022 <= ez)%Z -> (ez + d <= 1023)%Z ->
  exists m e,
    binary_round prec emax s p ez = S754_finite s m e /\
    regular (ez + d - 53) (ez + d - 52) (S754_finite s m e) /\
    Qabs (value (S754_finite s m e) - sgn s * (inject_Z (Zpos p) * 2 ^ ez))
    <= u52 * (inject_Z (Zpos p) * 2 ^ ez) /\
    ((d <= 53)%Z ->
     value (S754_finite s m e) == sgn s * (inject_Z (Zpos p) * 2 ^ ez)).
Proof.
  intros d He Ho.
  assert (Hd : (1 <= d)%Z) by (unfold d; lia).
  unfold binary_round.
  assert (F : fexp prec emax (Zpos (digits2_pos p) + ez) = (d + ez - 53)%Z)
    by (fold d; rewrite fexp_normal; lia).
  rewrite F.
  assert (Dp : Zpos (digits2_pos p) = d) by reflexivity.
  clearbody d.
  destruct (Z_lt_le_dec d 53) as [Hlt|Hge].
  - destruct (shl_align_value p ez (d + ez - 53)) as [V1 V2]; [lia|].
    destruct (shl_align p ez (d + ez - 53)) as [mz ez'] eqn:SA.
    cbn [fst snd] in V1, V2. subst ez'.
    assert (Dz : Zpos (digits2_pos mz) = 53%Z).
    { rewrite (digits_shift p (ez - (d + ez - 53)) mz) by (lia || exact V1).
      lia. }
    rewrite binary_round_aux_exact by (unfold prec; lia).
    exists mz, (d + ez - 53)%Z. split; [reflexivity|].
    assert (EQ : value (S754_finite s mz (d + ez - 53))
                 == sgn s * (inject_Z (Zpos p) * 2 ^ ez)).
    { unfold value. rewrite V1, inject_Z_mult, pow2_inject by lia.
      rewrite <- (Qmult_assoc (inject_Z (Zpos p))), <- pow2_add.
      replace (ez - (d + ez - 53) + (d + ez - 53))%Z with ez by lia.
      reflexivity. }
    split; [simpl; split; [exact Dz|lia]|].
    split; [|intros _; exact EQ].
    apply Qabs_zero_le; [rewrite EQ; ring|].
    apply Qmult_le_0_compat; [discriminate|apply Qlt_le_weak, mag_pos].
  - rewrite shl_align_keep by lia.
    destruct (Z.eq_dec d 53) as [E53|N53].
    + rewrite binary_round_aux_exact by (unfold prec; lia).
      exists p, ez. split; [reflexivity|].
      split; [simpl; split; lia|].
      split; [|intros _; reflexivity].
      apply Qabs_zero_le; [unfold value; ring|].
      apply Qmult_le_0_compat; [discriminate|apply Qlt_le_weak, mag_pos].
    + destruct (round_value s p ez loc_Exact) as (z & R & (m & e & ->) & G & V);
        [lia|lia|lia|].
      rewrite Dp in G. rewrite R.
      exists m, e. split; [reflexivity|].
      split; [eapply regular_weaken; [exact G|lia|lia]|].
      split; [exact V|]. intro. lia.
Qed.

(** A number below [2 ^ k] has at most [k] digits. *)
Lemma Zdigits2_le (S k : Z) :
  (0 <= k)%Z -> (Z.abs S < 2 ^ k)%Z -> (Zdigits2 S <= k)%Z.
Proof.
  intros Hk H.
  assert (G : forall p, (Zpos p < 2 ^ k)%Z -> (Zpos (digits2_pos p) <= k)%Z).
  { intros p Hp. pose proof (digits2_pos_bounds p) as [Bl _].
    destruct (Z_lt_le_dec k (Zpos (digits2_pos p))) as [C|C]; [|exact C].
    assert (2 ^ k <= 2 ^ (Zpos (digits2_pos p) - 1))%Z
      by (apply Z.pow_le_mono_r; lia). lia. }
  destruct S as [|p|p]; simpl in *; [lia|now apply G|now apply G].
Qed.

Lemma Zdigits2_nonneg (S : Z) : (0 <= Zdigits2 S)%Z.
Proof. destruct S; simpl; lia. Qed.

Lemma inject_cond_Zopp (s : bool) (m : Z) :
  inject_Z (cond_Zopp s m) == sgn s * inject_Z m.
Proof.
  destruct s; unfold cond_Zopp, sgn.
  - rewrite inject_Z_opp. ring.
  - ring.
Qed.

(** [binary_normalize]: the rounding of the integer [S] scaled by [2 ^ ez]. *)
Lemma binary_normalize_spec (S ez : Z) (sz : bool) :
  (-1022 <= ez)%Z -> (ez + Zdigits2 S <= 1023)%Z ->
  regular (ez - 52) (ez + Zdigits2 S - 52)
    (binary_normalize prec emax S ez sz) /\
  Qabs (value (binary_normalize prec emax S ez sz) - inject_Z S * 2 ^ ez)
  <= u52 * Qabs (inject_Z S * 2 ^ ez) /\
  ((Zdigits2 S <= 53)%Z ->
   value (binary_normalize prec emax S ez sz) == inject_Z S * 2 ^ ez).
Proof.
  intros He Ho.
  destruct S as [|p|p]; simpl binary_normalize; simpl Zdigits2 in *.
  - split; [exact I|]. split; [|intros _; simpl; ring].
    apply Qabs_zero_le; [simpl; ring|].
    apply Qmult_le_0_compat; [discriminate|apply Qabs_nonneg].
  - destruct (binary_round_spec false p ez He Ho) as (m & e & -> & R & V & X).
    split; [eapply regular_weaken; [exact R|lia|lia]|].
    assert (E : inject_Z (Zpos p) * 2 ^ ez
                == sgn false * (inject_Z (Zpos p) * 2 ^ ez))
      by (unfold sgn; ring).
    split.
    + rewrite E at 1 2. rewrite Qabs_sgn; [exact V|].
      apply Qlt_le_weak, mag_pos.
    + intro H. rewrite E. now apply X.
  - destruct (binary_round_spec true p ez He Ho) as (m & e & -> & R & V & X).
    split; [eapply regular_weaken; [exact R|lia|lia]|].
    assert (E : inject_Z (Zneg p) * 2 ^ ez
                == sgn true * (inject_Z (Zpos p) * 2 ^ ez)).
    { change (Zneg p) with (- Zpos p)%Z. rewrite inject_Z_opp.
      unfold sgn. ring. }
    split.
    + rewrite E at 1 2. rewrite Qabs_sgn; [exact V|].
      apply Qlt_le_weak, mag_pos.
    + intro H. rewrite E. now apply X.
Qed.

Lemma mant_bounds (m : positive) :
  Zpos (digits2_pos m) = 53%Z -> (2 ^ 52 <= Zpos m < 2 ^ 53)%Z.
Proof.
  intro H. pose proof (digits2_pos_bounds m) as B. rewrite H in B. exact B.
Qed.

(** The aligned sum or difference of two 53-digit mantissas. *)
Lemma aligned_sum (sx sy : bool) (mx my : positive) (ex ey lo hi : Z)
    (sy' : bool) :
  Zpos (digits2_pos mx) = 53%Z -> Zpos (digits2_pos my) = 53%Z ->
  (lo <= ex <= hi)%Z -> (lo <= ey <= hi)%Z ->
  let ez := Z.min ex ey in
  let S := (cond_Zopp sx (Zpos (fst (shl_align mx ex ez)))
            + cond_Zopp sy' (Zpos (fst (shl_align my ey ez))))%Z in
  (ez + Zdigits2 S <= hi + 54)%Z /\
  inject_Z S * 2 ^ ez
  == value (S754_finite sx mx ex) + value (S754_finite sy' my ey).
Proof.
  intros Dx Dy Ex Ey ez S.
  destruct (shl_align_value mx ex ez) as [Vx _]; [unfold ez; lia|].
  destruct (shl_align_value my ey ez) as [Vy _]; [unfold ez; lia|].
  pose proof (mant_bounds mx Dx) as Bx.
  pose proof (mant_bounds my Dy) as By.
  split.
  - assert (K : (Zdigits2 S <= 54 + (Z.max ex ey - ez))%Z).
    { apply Zdigits2_le; [unfold ez; lia|].
      unfold S. rewrite Vx, Vy.
      replace (54 + (Z.max ex ey - ez))%Z
        with (1 + (53 + (Z.max ex ey - ez)))%Z by lia.
      rewrite Z.pow_add_r by (unfold ez; lia). change (2 ^ 1)%Z with 2%Z.
      assert (Px : (Zpos mx * 2 ^ (ex - ez) < 2 ^ (53 + (Z.max ex ey - ez)))%Z).
      { apply Z.lt_le_trans with (2 ^ 53 * 2 ^ (ex - ez))%Z.
        - apply Z.mul_lt_mono_pos_r; [|lia].
          apply Z.pow_pos_nonneg; unfold ez; lia.
        - rewrite <- Z.pow_add_r by (unfold ez; lia).
          apply Z.pow_le_mono_r; unfold ez; lia. }
      assert (Py : (Zpos my * 2 ^ (ey - ez) < 2 ^ (53 + (Z.max ex ey - ez)))%Z).
      { apply Z.lt_le_trans with (2 ^ 53 * 2 ^ (ey - ez))%Z.
        - apply Z.mul_lt_mono_pos_r; [|lia].
          apply Z.pow_pos_nonneg; unfold ez; lia.
        - rewrite <- Z.pow_add_r by (unfold ez; lia).
          apply Z.pow_le_mono_r; unfold ez; lia. }
      assert (0 < Zpos mx * 2 ^ (ex - ez))%Z
        by (apply Z.mul_pos_pos; [lia|apply Z.pow_pos_nonneg; unfold ez; lia]).
      assert (0 < Zpos my * 2 ^ (ey - ez))%Z
        by (apply Z.mul_pos_pos; [lia|apply Z.pow_pos_nonneg; unfold ez; lia]).
      destruct sx, sy'; unfold cond_Zopp; lia. }
    unfold ez in *. lia.
  - unfold S. rewrite inject_Z_plus, !inject_cond_Zopp, Vx, Vy.
    rewrite !inject_Z_mult, !pow2_inject by (unfold ez; lia).
    unfold value.
    assert (Ax : 2 ^ (ex - ez) * 2 ^ ez == 2 ^ ex).
    { rewrite <- pow2_add.
      replace (ex - ez + ez)%Z with ex by lia. reflexivity. }
    assert (Ay : 2 ^ (ey - ez) * 2 ^ ez == 2 ^ ey).
    { rewrite <- pow2_add.
      replace (ey - ez + ez)%Z with ey by lia. reflexivity. }
    rewrite <- Ax, <- Ay. ring.
Qed.

Lemma sgn_negb (s : bool) : sgn (negb s) == - sgn s.
Proof. destruct s; reflexivity. Qed.

Lemma exact_error (a b : Q) : a == b -> Qabs (a - b) <= u52 * Qabs b.
Proof.
  intro H. apply Qabs_zero_le; [rewrite H; ring|].
  apply Qmult_le_0_compat; [discriminate|apply Qabs_nonneg].
Qed.

(** Addition: [fl(x + y) = (x + y) * (1 + delta)], [|delta| <= 2^-52]. *)
Lemma SFadd_spec (lo hi : Z) (x y : spec_float) :
  regular lo hi x -> regular lo hi y ->
  (-1022 <= lo)%Z -> (hi <= 960)%Z ->
  regular (lo - 52) (hi + 2) (SFadd prec emax x y) /\
  Qabs (value (SFadd prec emax x y) - (value x + value y))
  <= u52 * Qabs (value x + value y).
Proof.
  intros Rx Ry Hlo Hhi.
  destruct x as [sx|sx| |sx mx ex], y as [sy|sy| |sy my ey];
    simpl in Rx, Ry; try contradiction.
  - split; [destruct sx, sy; exact I|].
    apply exact_error. destruct sx, sy; simpl; ring.
  - split; [simpl; split; [apply Ry|lia]|].
    apply exact_error. simpl; ring.
  - split; [simpl; split; [apply Rx|lia]|].
    apply exact_error. simpl; ring.
  - destruct Rx as [Dx Ex], Ry as [Dy Ey].
    destruct (aligned_sum sx sy mx my ex ey lo hi sy Dx Dy Ex Ey) as [HD HV].
    cbv zeta in HD, HV.
    unfold SFadd.
    set (ez := Z.min ex ey) in *.
    set (S := (cond_Zopp sx (Zpos (fst (shl_align mx ex ez)))
               + cond_Zopp sy (Zpos (fst (shl_align my ey ez))))%Z) in *.
    destruct (binary_normalize_spec S ez false) as (R & V & _);
      [unfold ez; lia|lia|].
    split.
    + eapply regular_weaken; [exact R|unfold ez; lia|lia].
    + rewrite <- HV. exact V.
Qed.

(** Subtraction: [fl(x - y) = (x - y) * (1 + delta)], [|delta| <= 2^-52]. *)
Lemma SFsub_spec (lo hi : Z) (x y : spec_float) :
  regular lo hi x -> regular lo hi y ->
  (-1022 <= lo)%Z -> (hi <= 960)%Z ->
  regular (lo - 52) (hi + 2) (SFsub prec emax x y) /\
  Qabs (value (SFsub prec emax x y) - (value x - value y))
  <= u52 * Qabs (value x - value y).
Proof.
  intros Rx Ry Hlo Hhi.
  destruct x as [sx|sx| |sx mx ex], y as [sy|sy| |sy my ey];
    simpl in Rx, Ry; try contradiction.
  - split; [destruct sx, sy; exact I|].
    apply exact_error. destruct sx, sy; simpl; ring.
  - split; [simpl; split; [apply Ry|lia]|].
    apply exact_error. unfold SFsub, value. rewrite sgn_negb. ring.
  - split; [simpl; split; [apply Rx|lia]|].
    apply exact_error. simpl; ring.
  - destruct Rx as [Dx Ex], Ry as [Dy Ey].
    destruct (aligned_sum sx sy mx my ex ey lo hi (negb sy) Dx Dy Ex Ey)
      as [HD HV].
    cbv zeta in HD, HV.
    unfold SFsub.
    set (ez := Z.min ex ey) in *.
    assert (ES : (cond_Zopp sx (Zpos (fst (shl_align mx ex ez)))
                  - cond_Zopp sy (Zpos (fst (shl_align my ey ez))))%Z
                 = (cond_Zopp sx (Zpos (fst (shl_align mx ex ez)))
                    + cond_Zopp (negb sy)
                        (Zpos (fst (shl_align my ey ez))))%Z)
      by (destruct sy; unfold cond_Zopp; simpl negb; lia).
    rewrite ES.
    set (S := (cond_Zopp sx (Zpos (fst (shl_align mx ex ez)))
               + cond_Zopp (negb sy)
                   (Zpos (fst (shl_align my ey ez))))%Z) in *.
    destruct (binary_normalize_spec S ez false) as (R & V & _);
      [unfold ez; lia|lia|].
    assert (EV : value (S754_finite sx mx ex) - value (S754_finite sy my ey)
                 == inject_Z S * 2 ^ ez).
    { rewrite HV. unfold value. rewrite sgn_negb. ring. }
    split.
    + eapply regular_weaken; [exact R|unfold ez; lia|lia].
    + rewrite EV. exact V.
Qed.

(** *** Quotients *)

(** The quotient computed by [SFdiv_core_binary] has at least 53 digits and
    brackets the exact quotient. *)
Lemma div_core_bounds (mx my : positive) (e1 e2 : Z) :
  let d1 := Zpos (digits2_pos mx) in
  let d2 := Zpos (digits2_pos my) in
  let k := (d1 + e1 - (d2 + e2))%Z in
  (-1021 <= k)%Z ->
  exists (q : positive) (r e' : Z) (l : location),
    SFdiv_core_binary prec emax (Zpos mx) e1 (Zpos my) e2 = (Zpos q, e', l) /\
    e' = Z.min (k - 53) (e1 - e2) /\
    (Zpos q * Zpos my <= Zpos mx * 2 ^ (e1 - e2 - e')
     < (Zpos q + 1) * Zpos my)%Z /\
    (53 <= Zpos (digits2_pos q))%Z /\
    (e' + Zpos (digits2_pos q) <= k + 1)%Z.
Proof.
  intros d1 d2 k Hk.
  pose proof (digits2_pos_bounds mx) as [X1 X2]. fold d1 in X1, X2.
  pose proof (digits2_pos_bounds my) as [Y1 Y2]. fold d2 in Y1, Y2.
  assert (Hd1 : (1 <= d1)%Z) by (unfold d1; lia).
  assert (Hd2 : (1 <= d2)%Z) by (unfold d2; lia).
  unfold SFdiv_core_binary. simpl Zdigits2. fold d1 d2 k.
  rewrite fexp_normal by lia.
  set (e' := Z.min (k - 53) (e1 - e2)).
  set (s := (e1 - e2 - e')%Z).
  assert (Hs : (0 <= s)%Z) by (unfold s, e'; lia).
  assert (Hs' : (53 - d1 + d2 <= s)%Z) by (unfold s, e', k; lia).
  set (m' := match s with
             | Zpos _ => Z.shiftl (Zpos mx) s
             | Z0 => Zpos mx
             | Zneg _ => Z0
             end).
  assert (Em : m' = (Zpos mx * 2 ^ s)%Z).
  { unfold m'. destruct s as [|p|p] eqn:Es; [| |lia].
    - change (2 ^ 0)%Z with 1%Z. lia.
    - now rewrite Z.shiftl_mul_pow2 by lia. }
  clearbody m'. subst m'.
  clearbody d1 d2.
  assert (P2 : (0 < 2 ^ s)%Z) by (apply Z.pow_pos_nonneg; lia).
  assert (L : (2 ^ 52 * Zpos my <= Zpos mx * 2 ^ s)%Z).
  { apply Z.le_trans with (2 ^ (d1 - 1) * 2 ^ s)%Z; [|nia].
    rewrite <- Z.pow_add_r by lia.
    apply Z.le_trans with (2 ^ 52 * 2 ^ d2)%Z; [nia|].
    rewrite <- Z.pow_add_r by lia. apply Z.pow_le_mono_r; lia. }
  pose proof (Z.div_mod (Zpos mx * 2 ^ s) (Zpos my)) as DM.
  pose proof (Z.mod_pos_bound (Zpos mx * 2 ^ s) (Zpos my)) as MB.
  assert (Hq : (2 ^ 52 <= Zpos mx * 2 ^ s / Zpos my)%Z)
    by (apply Z.div_le_lower_bound; lia).
  unfold Z.div, Z.modulo in DM, MB, Hq.
  destruct (Z.div_eucl (Zpos mx * 2 ^ s) (Zpos my)) as [q r].
  destruct q as [|q|q]; try lia.
  exists q, r, e', (new_location (Zpos my) r).
  split; [reflexivity|]. split; [reflexivity|].
  assert (B : (Zpos q * Zpos my <= Zpos mx * 2 ^ s < (Zpos q + 1) * Zpos my)%Z)
    by (specialize (MB ltac:(lia)); lia).
  split; [exact B|].
  pose proof (digits2_pos_bounds q) as [Q1 Q2].
  split.
  - destruct (Z_lt_le_dec (Zpos (digits2_pos q)) 53) as [C|C]; [|exact C].
    assert (2 ^ Zpos (digits2_pos q) <= 2 ^ 52)%Z
      by (apply Z.pow_le_mono_r; lia). lia.
  - assert (U : (Zpos q < 2 ^ (d1 + s - d2 + 1))%Z).
    { assert (K : (Zpos q * 2 ^ (d2 - 1)
                   < 2 ^ (d1 + s - d2 + 1) * 2 ^ (d2 - 1))%Z).
      { rewrite <- Z.pow_add_r by lia.
        replace (d1 + s - d2 + 1 + (d2 - 1))%Z with (d1 + s)%Z by lia.
        rewrite Z.pow_add_r by lia. nia. }
      assert (0 < 2 ^ (d2 - 1))%Z by (apply Z.pow_pos_nonneg; lia).
      nia. }
    assert (Zpos (digits2_pos q) <= d1 + s - d2 + 1)%Z.
    { destruct (Z_lt_le_dec (d1 + s - d2 + 1) (Zpos (digits2_pos q)))
        as [C|C]; [|exact C].
      assert (2 ^ (d1 + s - d2 + 1) <= 2 ^ (Zpos (digits2_pos q) - 1))%Z
        by (apply Z.pow_le_mono_r; lia). lia. }
    unfold s, k in *. lia.
Qed.

(** The rounded quotient of two positive scaled integers. *)
Lemma quotient_spec (s : bool) (mx my : positive) (e1 e2 : Z) :
  let d1 := Zpos (digits2_pos mx) in
  let d2 := Zpos (digits2_pos my) in
  let k := (d1 + e1 - (d2 + e2))%Z in
  (-1021 <= k)%Z -> (-1074 <= e1 - e2)%Z -> (k <= 1022)%Z ->
  exists m e,
    (let '(q, e', l) :=
       SFdiv_core_binary prec emax (Zpos mx) e1 (Zpos my) e2 in
     binary_round_aux prec emax s q e' l) = S754_finite s m e /\
    regular (Z.min (k - 53) (e1 - e2)) (k - 51) (S754_finite s m e) /\
    Qabs (value (S754_finite s m e)
          - sgn s * (inject_Z (Zpos mx) * 2 ^ e1
                     / (inject_Z (Zpos my) * 2 ^ e2)))
    <= u51 * (inject_Z (Zpos mx) * 2 ^ e1 / (inject_Z (Zpos my) * 2 ^ e2)).
Proof.
  intros d1 d2 k Hk He Hu.
  destruct (div_core_bounds mx my e1 e2 Hk)
    as (q & r & e' & l & -> & Ee & B & Dq & Eq).
  fold d1 d2 k in Ee, Eq.
  destruct (round_value s q e' l) as (z & R & (m & e & ->) & G & V);
    [lia|lia|lia|].
  exists m, e. split; [exact R|].
  split; [eapply regular_weaken; [exact G|lia|lia]|].
  set (t := inject_Z (Zpos mx) * 2 ^ e1 / (inject_Z (Zpos my) * 2 ^ e2)).
  set (qv := inject_Z (Zpos q) * 2 ^ e') in *.
  pose proof (pow2_pos e') as Pe.
  pose proof (pow2_pos e1) as P1.
  pose proof (pow2_pos e2) as P2.
  assert (Ypos : 0 < inject_Z (Zpos my)) by reflexivity.
  assert (Qpos : 0 < qv) by apply mag_pos.
  (* the exact quotient, scaled by the divisor *)
  assert (T : t * inject_Z (Zpos my)
              == inject_Z (Zpos mx * 2 ^ (e1 - e2 - e')) * 2 ^ e').
  { unfold t. rewrite inject_Z_mult, pow2_inject by lia.
    assert (X : 2 ^ e1 == 2 ^ (e1 - e2 - e') * 2 ^ e' * 2 ^ e2).
    { rewrite <- !pow2_add. replace (e1 - e2 - e' + e' + e2)%Z with e1 by lia.
      reflexivity. }
    rewrite X. field. split; lra. }
  destruct B as [B1 B2].
  assert (L1 : qv * inject_Z (Zpos my) <= t * inject_Z (Zpos my)).
  { rewrite T. unfold qv.
    assert (X : inject_Z (Zpos q) * 2 ^ e' * inject_Z (Zpos my)
                == inject_Z (Zpos q * Zpos my) * 2 ^ e')
      by (rewrite inject_Z_mult; ring).
    rewrite X. apply Qmult_le_compat_r; [|lra].
    now rewrite <- Zle_Qle. }
  assert (L2 : t * inject_Z (Zpos my) <= (qv + 2 ^ e') * inject_Z (Zpos my)).
  { rewrite T. unfold qv.
    assert (X : (inject_Z (Zpos q) * 2 ^ e' + 2 ^ e') * inject_Z (Zpos my)
                == inject_Z ((Zpos q + 1) * Zpos my) * 2 ^ e')
      by (rewrite inject_Z_mult, inject_Z_plus; ring).
    rewrite X. apply Qmult_le_compat_r; [|lra].
    rewrite <- Zle_Qle. lia. }
  apply Qmult_lt_0_le_reg_r in L1; [|exact Ypos].
  apply Qmult_lt_0_le_reg_r in L2; [|exact Ypos].
  (* one unit of the quotient is at most [2^-52] of it *)
  assert (L3 : 2 ^ e' <= u52 * qv).
  { unfold qv, u52.
    assert (X : 4503599627370496 <= inject_Z (Zpos q)).
    { change 4503599627370496 with (inject_Z (2 ^ 52)). rewrite <- Zle_Qle.
      pose proof (digits2_pos_bounds q) as [Q1 _].
      apply Z.le_trans with (2 ^ (Zpos (digits2_pos q) - 1))%Z; [|exact Q1].
      apply Z.pow_le_mono_r; lia. }
    assert (Y : 4503599627370496 * 2 ^ e' <= inject_Z (Zpos q) * 2 ^ e')
      by (apply Qmult_le_compat_r; lra).
    lra. }
  unfold u52 in *. unfold u51.
  apply Qabs_Qle_condition in V. apply Qabs_Qle_condition.
  destruct s; unfold sgn in *; split; lra.
Qed.

Lemma sgn_div (a b : bool) (p q : Q) :
  ~ q == 0 -> sgn (xorb a b) * (p / q) == sgn a * p / (sgn b * q).
Proof.
  intro H. destruct a, b; cbn [sgn xorb]; field; lra.
Qed.

(** Division by a non-zero double:
    [fl(x / y) = x / y * (1 + delta)], [|delta| <= 2^-51]. *)
Lemma SFdiv_spec (lo1 hi1 lo2 hi2 : Z) (x y : spec_float) :
  regular lo1 hi1 x -> regular lo2 hi2 y -> is_zero y = false ->
  (-1021 <= lo1 - hi2)%Z -> (hi1 - lo2 <= 1022)%Z ->
  regular (lo1 - hi2 - 53) (hi1 - lo2 - 51) (SFdiv prec emax x y) /\
  Qabs (value (SFdiv prec emax x y) - value x / value y)
  <= u51 * Qabs (value x / value y).
Proof.
  intros Rx Ry Hz Hlo Hhi.
  destruct x as [sx|sx| |sx mx ex], y as [sy|sy| |sy my ey];
    simpl in Rx, Ry, Hz; try contradiction; try discriminate.
  - split; [exact I|].
    assert (E : value (S754_zero sx) / value (S754_finite sy my ey) == 0)
      by (change (value (S754_zero sx)) with 0; unfold Qdiv; ring).
    cbn [SFdiv]. rewrite E. apply Qabs_zero_le; [simpl; ring|discriminate].
  - destruct Rx as [Dx Ex], Ry as [Dy Ey].
    unfold SFdiv.
    destruct (quotient_spec (xorb sx sy) mx my ex ey)
      as (m & e & R & G & V); try (rewrite ?Dx, ?Dy; lia).
    rewrite Dx, Dy in G.
    assert (RR : (let '(mz, ez, lz) :=
                    SFdiv_core_binary prec emax (Zpos mx) ex (Zpos my) ey in
                  binary_round_aux prec emax (xorb sx sy) mz ez lz)
                 = S754_finite (xorb sx sy) m e).
    { rewrite <- R.
      destruct (SFdiv_core_binary prec emax (Zpos mx) ex (Zpos my) ey)
        as [[q e'] l]. reflexivity. }
    rewrite RR.
    split; [eapply regular_weaken; [exact G|lia|lia]|].
    pose proof (mag_pos mx ex) as Px. pose proof (mag_pos my ey) as Py.
    assert (EQ : value (S754_finite sx mx ex) / value (S754_finite sy my ey)
                 == sgn (xorb sx sy)
                    * (inject_Z (Zpos mx) * 2 ^ ex
                       / (inject_Z (Zpos my) * 2 ^ ey))).
    { unfold value. rewrite sgn_div by lra. reflexivity. }
    rewrite EQ, Qabs_sgn; [exact V|].
    apply Qlt_le_weak, Qlt_shift_div_l; lra.
Qed.

(** *** Conversion and division of integers *)

(** [float(z)] is exact below [2 ^ 53]. *)
Lemma of_int_spec (z : Z) :
  (Z.abs z < 2 ^ 53)%Z ->
  exists x,
    of_int z = Return x /\ regular (-52) 1 x /\ value x == inject_Z z.
Proof.
  intro H.
  assert (D : (Zdigits2 z <= 53)%Z) by (apply Zdigits2_le; [lia|exact H]).
  pose proof (Zdigits2_nonneg z) as D0.
  destruct (binary_normalize_spec z 0 false) as (R & _ & X); [lia|lia|].
  specialize (X D). unfold of_int.
  destruct (binary_normalize prec emax z 0 false) as [s|s| |s m e];
    simpl in R; try contradiction.
  - exists (S754_zero s). split; [reflexivity|]. split; [exact I|].
    rewrite X. simpl (2 ^ 0). ring.
  - exists (S754_finite s m e). split; [reflexivity|].
    split; [simpl; split; [apply R|lia]|].
    rewrite X. simpl (2 ^ 0). ring.
Qed.

Lemma digits_UNIT_M : Zpos (digits2_pos 1000000) = 20%Z.
Proof. reflexivity. Qed.

(** [int / UNIT_M]: the quotient with a relative error of at most [2^-51]. *)
Lemma int_truediv_spec (a : Z) :
  (Z.abs a < 2 ^ 53)%Z ->
  exists q,
    int_truediv a UNIT_M = Return q /\ regular (-72) (-18) q /\
    Qabs (value q - inject_Z a / inject_Z UNIT_M)
    <= u51 * Qabs (inject_Z a / inject_Z UNIT_M).
Proof.
  intro H. unfold int_truediv, UNIT_M.
  destruct a as [|p|p].
  - exists (S754_zero false). split; [reflexivity|]. split; [exact I|].
    apply Qabs_zero_le; [simpl; reflexivity|discriminate].
  - assert (Dp : (Zpos (digits2_pos p) <= 53)%Z)
      by (apply (Zdigits2_le (Zpos p)); [lia|exact H]).
    pose proof (quotient_spec false p 1000000 0 0) as QS.
    cbv zeta in QS. rewrite digits_UNIT_M in QS.
    destruct QS as (m & e & R & G & V); [lia|lia|lia|].
    cbn [Z.ltb Z.compare xorb Z.abs Z.to_pos SFdiv].
    destruct (SFdiv_core_binary prec emax (Zpos p) 0 1000000 0) as [[q e'] l].
    rewrite R. exists (S754_finite false m e). split; [reflexivity|].
    split; [eapply regular_weaken; [exact G|lia|lia]|].
    assert (E : inject_Z (Zpos p) / 1000000
                == sgn false * (inject_Z (Zpos p) * 2 ^ 0
                                / (inject_Z 1000000 * 2 ^ 0)))
      by (unfold sgn; simpl (2 ^ 0); field).
    change (inject_Z 1000000) with 1000000 in *.
    rewrite E, Qabs_sgn; [exact V|].
    apply Qlt_le_weak, Qlt_shift_div_l; [reflexivity|].
    rewrite Qmult_0_l. apply mag_pos.
  - assert (Dp : (Zpos (digits2_pos p) <= 53)%Z)
      by (apply (Zdigits2_le (Zneg p)); [lia|exact H]).
    pose proof (quotient_spec true p 1000000 0 0) as QS.
    cbv zeta in QS. rewrite digits_UNIT_M in QS.
    destruct QS as (m & e & R & G & V); [lia|lia|lia|].
    cbn [Z.ltb Z.compare xorb Z.abs Z.to_pos SFdiv].
    destruct (SFdiv_core_binary prec emax (Zpos p) 0 1000000 0) as [[q e'] l].
    rewrite R. exists (S754_finite true m e). split; [reflexivity|].
    split; [eapply regular_weaken; [exact G|lia|lia]|].
    assert (E : inject_Z (Zneg p) / 1000000
                == sgn true * (inject_Z (Zpos p) * 2 ^ 0
                               / (inject_Z 1000000 * 2 ^ 0))).
    { change (Zneg p) with (- Zpos p)%Z. rewrite inject_Z_opp.
      unfold sgn; simpl (2 ^ 0); field. }
    change (inject_Z 1000000) with 1000000 in *.
    rewrite E, Qabs_sgn; [exact V|].
    apply Qlt_le_weak, Qlt_shift_div_l; [reflexivity|].
    rewrite Qmult_0_l. apply mag_pos.
Qed.

(** *** Comparisons are exact *)

Lemma Qcompare_unique (c : comparison) (a b : Q) :
  match c with Lt => a < b | Eq => a == b | Gt => b < a end ->
  (a ?= b) = c.
Proof.
  destruct c; intro H.
  - now apply Qeq_alt.
  - now apply Qlt_alt.
  - now apply Qgt_alt.
Qed.

Lemma Qcompare_inject_Z (a b : Z) :
  (inject_Z a ?= inject_Z b) = (a ?= b)%Z.
Proof.
  unfold Qcompare, inject_Z. simpl. now rewrite !Z.mul_1_r.
Qed.

Lemma Qcompare_opp (a b : Q) : (- a ?= - b) = CompOpp (a ?= b).
Proof.
  apply Qcompare_unique.
  destruct (Qcompare_spec a b) as [H|H|H]; simpl; lra.
Qed.

Lemma Qcompare_scale (a b c : Q) : 0 < c -> (a * c ?= b * c) = (a ?= b).
Proof.
  intro Hc. apply Qcompare_unique.
  destruct (Qcompare_spec a b) as [H|H|H].
  - now rewrite H.
  - now apply Qmult_lt_r.
  - now apply Qmult_lt_r.
Qed.

Lemma pow2_le (a b : Z) : (a <= b)%Z -> 2 ^ a <= 2 ^ b.
Proof. intro H. apply Qpower_le_compat_l; [exact H|discriminate]. Qed.

(** Magnitudes with 53 digits are ordered by exponent first. *)
Lemma mag_lt_exp (mx my : positive) (ex ey : Z) :
  Zpos (digits2_pos mx) = 53%Z -> Zpos (digits2_pos my) = 53%Z ->
  (ex < ey)%Z ->
  inject_Z (Zpos mx) * 2 ^ ex < inject_Z (Zpos my) * 2 ^ ey.
Proof.
  intros Dx Dy H.
  pose proof (mant_bounds mx Dx) as [_ Bx].
  pose proof (mant_bounds my Dy) as [By _].
  pose proof (pow2_pos ex) as Px. pose proof (pow2_pos ey) as Py.
  assert (X : inject_Z (Zpos mx) < 9007199254740992)
    by (change 9007199254740992 with (inject_Z (2 ^ 53));
        now rewrite <- Zlt_Qlt).
  assert (Y : 4503599627370496 <= inject_Z (Zpos my))
    by (change 4503599627370496 with (inject_Z (2 ^ 52));
        now rewrite <- Zle_Qle).
  assert (E : 2 * 2 ^ ex <= 2 ^ ey).
  { change 2 with (2 ^ 1) at 1. rewrite <- pow2_add. apply pow2_le. lia. }
  assert (A1 : inject_Z (Zpos mx) * 2 ^ ex < 9007199254740992 * 2 ^ ex)
    by (apply Qmult_lt_r; assumption).
  assert (A2 : 4503599627370496 * 2 ^ ey <= inject_Z (Zpos my) * 2 ^ ey)
    by (apply Qmult_le_compat_r; lra).
  lra.
Qed.

Lemma mag_compare (mx my : positive) (ex ey : Z) :
  Zpos (digits2_pos mx) = 53%Z -> Zpos (digits2_pos my) = 53%Z ->
  (inject_Z (Zpos mx) * 2 ^ ex ?= inject_Z (Zpos my) * 2 ^ ey)
  = match (ex ?= ey)%Z with
    | Lt => Lt
    | Gt => Gt
    | Eq => Pos.compare_cont Eq mx my
    end.
Proof.
  intros Dx Dy.
  destruct (Z.compare_spec ex ey) as [H|H|H].
  - subst ey. rewrite Qcompare_scale by apply pow2_pos.
    now rewrite Qcompare_inject_Z.
  - apply Qcompare_unique. now apply mag_lt_exp.
  - apply Qcompare_unique. now apply mag_lt_exp.
Qed.

Lemma Qcompare_sgn_true (a b : Q) :
  (sgn true * a ?= sgn true * b) = CompOpp (a ?= b).
Proof.
  rewrite <- Qcompare_opp. unfold sgn.
  assert (Ea : -1 * a == - a) by ring. assert (Eb : -1 * b == - b) by ring.
  now rewrite Ea, Eb.
Qed.

Lemma Qcompare_sgn_false (a b : Q) :
  (sgn false * a ?= sgn false * b) = (a ?= b).
Proof.
  unfold sgn.
  assert (Ea : 1 * a == a) by ring. assert (Eb : 1 * b == b) by ring.
  now rewrite Ea, Eb.
Qed.

(** [SFcompare] is the order of the values. *)
Lemma SFcompare_value (lo hi lo' hi' : Z) (x y : spec_float) :
  regular lo hi x -> regular lo' hi' y ->
  SFcompare x y = Some (value x ?= value y).
Proof.
  intros Rx Ry.
  destruct x as [sx|sx| |sx mx ex], y as [sy|sy| |sy my ey];
    simpl in Rx, Ry; try contradiction.
  - reflexivity.
  - pose proof (mag_pos my ey) as P.
    simpl SFcompare. f_equal. symmetry. apply Qcompare_unique.
    destruct sy; unfold value, sgn; lra.
  - pose proof (mag_pos mx ex) as P.
    simpl SFcompare. f_equal. symmetry. apply Qcompare_unique.
    destruct sx; unfold value, sgn; lra.
  - destruct Rx as [Dx _], Ry as [Dy _].
    pose proof (mag_pos mx ex) as Px. pose proof (mag_pos my ey) as Py.
    simpl SFcompare. f_equal. symmetry. unfold value.
    destruct sx, sy.
    + rewrite Qcompare_sgn_true, (mag_compare mx my ex ey Dx Dy).
      destruct (ex ?= ey)%Z; reflexivity.
    + apply Qcompare_unique. unfold sgn. lra.
    + apply Qcompare_unique. unfold sgn. lra.
    + rewrite Qcompare_sgn_false. now apply mag_compare.
Qed.

Lemma value_scaled_up (s : bool) (m : positive) (e : Z) :
  (0 <= e)%Z ->
  value (S754_finite s m e) == inject_Z (cond_Zopp s (Zpos m) * 2 ^ e).
Proof.
  intro H. unfold value.
  rewrite inject_Z_mult, inject_cond_Zopp, pow2_inject by exact H. ring.
Qed.

Lemma value_scaled_down (s : bool) (m : positive) (e : Z) :
  (e < 0)%Z ->
  value (S754_finite s m e) * inject_Z (2 ^ (- e))
  == inject_Z (cond_Zopp s (Zpos m)).
Proof.
  intro H. unfold value.
  rewrite inject_cond_Zopp, pow2_inject by lia.
  assert (E : 2 ^ e * 2 ^ (- e) == 1).
  { rewrite <- pow2_add. replace (e + - e)%Z with 0%Z by lia. reflexivity. }
  rewrite <- !Qmult_assoc, E. ring.
Qed.

(** The comparison of an [int] with a [float] is the order of the values. *)
Lemma compare_int_float_value (lo hi : Z) (z : Z) (x : spec_float) :
  regular lo hi x ->
  compare_int_float z x = Some (inject_Z z ?= value x).
Proof.
  intro R. destruct x as [s|s| |s m e]; simpl in R; try contradiction.
  - simpl. f_equal. symmetry. apply (Qcompare_inject_Z z 0).
  - unfold compare_int_float. f_equal.
    destruct (Z.leb_spec 0 e) as [H|H].
    + rewrite (value_scaled_up s m e H). symmetry. apply Qcompare_inject_Z.
    + rewrite <- (Qcompare_scale (inject_Z z) (value (S754_finite s m e))
                    (inject_Z (2 ^ (- e)))).
      * rewrite (value_scaled_down s m e H), <- inject_Z_mult.
        symmetry. apply Qcompare_inject_Z.
      * change 0 with (inject_Z 0). rewrite <- Zlt_Qlt.
        apply Z.pow_pos_nonneg; lia.
Qed.

(** *** Rounding to an integer *)

(** The nearest integer, ties to even, of [m / k] is the only integer closer
    than one half to it. *)
Lemma nearest_unique (M k x : Z) :
  (0 < k)%Z -> (0 <= M)%Z ->
  (- k < 2 * (M - x * k) < k)%Z ->
  match (2 * (M mod k) ?= k)%Z with
  | Lt => (M / k)%Z
  | Gt => (M / k + 1)%Z
  | Eq => if Z.even (M / k) then (M / k)%Z else (M / k + 1)%Z
  end = x.
Proof.
  intros Hk HM H.
  pose proof (Z.div_mod M k ltac:(lia)) as DM.
  pose proof (Z.mod_pos_bound M k Hk) as MB.
  set (q := (M / k)%Z) in *. set (r := (M mod k)%Z) in *.
  assert (C : (q = x \/ q + 1 = x)%Z) by nia.
  destruct (Z.compare_spec (2 * r) k) as [E|E|E].
  - exfalso. destruct C as [C|C]; subst x; nia.
  - destruct C as [C|C]; [exact C|]. subst x. nia.
  - destruct C as [C|C]; [|exact C]. subst x. nia.
Qed.

Lemma int_within_half (a b : Z) :
  Qabs (inject_Z a - inject_Z b) < 1 # 2 -> a = b.
Proof.
  intro H. apply Qabs_Qlt_condition in H. destruct H as [H1 H2].
  assert (X : inject_Z a < inject_Z b + 1) by lra.
  assert (Y : inject_Z b < inject_Z a + 1) by lra.
  change 1 with (inject_Z 1) in X, Y.
  rewrite <- inject_Z_plus, <- Zlt_Qlt in X, Y. lia.
Qed.

Lemma ne_float_int (lo hi : Z) (r : spec_float) (x : Z) :
  regular lo hi r -> value r == inject_Z x ->
  ne (Float r) (Int x) = false.
Proof.
  intros R E. unfold ne, compare.
  rewrite (compare_int_float_value lo hi x r R). simpl.
  assert (C : (inject_Z x ?= value r) = Eq)
    by (apply Qeq_alt; now symmetry).
  now rewrite C.
Qed.

(** [round(v, 0)] is the integer [x] when [v] is closer than one half to
    [x]. *)
Lemma round_spec (lo hi : Z) (v : spec_float) (x : Z) :
  regular lo hi v -> Qabs (value v - inject_Z x) < 1 # 2 ->
  ne (round (Float v)) (Int x) = false.
Proof.
  intros R H.
  destruct v as [s|s| |s m e]; simpl in R; try contradiction.
  - simpl round. apply (ne_float_int lo hi); [exact I|].
    change (value (S754_zero s)) with (inject_Z 0) in *.
    now rewrite (int_within_half 0 x H).
  - destruct R as [Dm Ee]. unfold round.
    destruct (Z.leb_spec 0 e) as [He|He].
    + apply (ne_float_int lo hi); [simpl; split; assumption|].
      rewrite (value_scaled_up s m e He) in *.
      now rewrite (int_within_half _ x H).
    + set (k := (2 ^ (- e))%Z).
      assert (Hk : (2 <= k)%Z).
      { unfold k. change 2%Z with (2 ^ 1)%Z at 1.
        apply Z.pow_le_mono_r; lia. }
      pose proof (mant_bounds m Dm) as [_ Bm].
      pose proof (value_scaled_down s m e He) as VS. fold k in VS.
      apply Qabs_Qlt_condition in H. destruct H as [H1 H2].
      assert (K : 0 < inject_Z k)
        by (change 0 with (inject_Z 0); rewrite <- Zlt_Qlt; lia).
      set (c := cond_Zopp s (Zpos m)) in *.
      assert (I1 : (- k < 2 * (c - x * k))%Z).
      { rewrite Zlt_Qlt, inject_Z_opp, !inject_Z_mult.
        assert (T : inject_Z (c - x * k)
                    == inject_Z c - inject_Z x * inject_Z k).
        { unfold Z.sub.
          now rewrite inject_Z_plus, inject_Z_opp, inject_Z_mult. }
        rewrite T, <- VS. change (inject_Z 2) with 2.
        assert (Z1 : (-(1 # 2)) * inject_Z k
                     < (value (S754_finite s m e) - inject_Z x) * inject_Z k)
          by (apply Qmult_lt_r; assumption).
        lra. }
      assert (I2 : (2 * (c - x * k) < k)%Z).
      { rewrite Zlt_Qlt, !inject_Z_mult.
        assert (T : inject_Z (c - x * k)
                    == inject_Z c - inject_Z x * inject_Z k).
        { unfold Z.sub.
          now rewrite inject_Z_plus, inject_Z_opp, inject_Z_mult. }
        rewrite T, <- VS. change (inject_Z 2) with 2.
        assert (Z1 : (value (S754_finite s m e) - inject_Z x) * inject_Z k
                     < (1 # 2) * inject_Z k)
          by (apply Qmult_lt_r; assumption).
        lra. }
      set (i := match (2 * (Zpos m mod k) ?= k)%Z with
                | Lt => (Zpos m / k)%Z
                | Gt => (Zpos m / k + 1)%Z
                | Eq => if Z.even (Zpos m / k) then (Zpos m / k)%Z
                        else (Zpos m / k + 1)%Z
                end).
      assert (Ei : cond_Zopp s i = x).
      { destruct s; unfold c, cond_Zopp in *.
        - assert (X : i = (- x)%Z)
            by (apply nearest_unique; lia).
          lia.
        - apply nearest_unique; lia. }
      assert (Bi : (Z.abs (cond_Zopp s i) < 2 ^ 53)%Z).
      { assert (0 <= i <= Zpos m / k + 1)%Z.
        { pose proof (Z.div_pos (Zpos m) k ltac:(lia) ltac:(lia)).
          unfold i. destruct (2 * (Zpos m mod k) ?= k)%Z;
            [destruct (Z.even (Zpos m / k))|..]; lia. }
        assert (Zpos m / k <= Zpos m / 2)%Z
          by (apply Z.div_le_compat_l; lia).
        assert (Zpos m / 2 < 2 ^ 52)%Z
          by (apply Z.div_lt_upper_bound; lia).
        destruct s; unfold cond_Zopp; lia. }
      destruct (binary_normalize_spec (cond_Zopp s i) 0 s) as (RN & _ & XN).
      * lia.
      * pose proof (Zdigits2_le (cond_Zopp s i) 53 ltac:(lia) Bi). lia.
      * apply (ne_float_int _ _ _ _ RN).
        rewrite XN by (apply Zdigits2_le; [lia|exact Bi]).
        rewrite Ei. simpl (2 ^ 0). ring.
Qed.

(** *** The two directions for a multiplier near one *)

Lemma Qabs_le_iff (a b : Q) : Qabs a <= b <-> - b <= a <= b.
Proof. apply Qabs_Qle_condition. Qed.

Lemma Qabs_bound (a b : Q) : - b <= a <= b -> Qabs a <= b.
Proof. apply Qabs_Qle_condition. Qed.

(** Products of bounded non-negative numbers. *)
Lemma prod_bound (a b A B : Q) :
  0 <= a <= A -> 0 <= b <= B -> 0 <= a * b <= A * B.
Proof.
  intros [Ha1 Ha2] [Hb1 Hb2]. split.
  - now apply Qmult_le_0_compat.
  - apply Qle_trans with (A * b).
    + apply Qmult_le_compat_r; assumption.
    + rewrite (Qmult_comm A b), (Qmult_comm A B).
      apply Qmult_le_compat_r; [assumption|lra].
Qed.

(** Products of numbers bounded in absolute value. *)
Lemma Qabs_prod_bound (a b A B : Q) :
  Qabs a <= A -> Qabs b <= B -> - (A * B) <= a * b <= A * B.
Proof.
  intros Ha Hb. apply Qabs_le_iff. rewrite Qabs_Qmult.
  apply prod_bound; split; (apply Qabs_nonneg || assumption).
Qed.

(** A relative error of [2^-51] on a quantity bounded by [2 * 10^11] is an
    absolute error of at most [10^-4]. *)
Lemma rel_to_abs (v t : Q) (eps : Q) :
  Qabs (v - t) <= eps * Qabs t -> 0 <= eps <= u51 ->
  Qabs t <= 200000000000 ->
  Qabs (v - t) <= 1 # 10000.
Proof.
  intros H [E0 E1] T.
  pose proof (Qabs_nonneg t) as T0.
  destruct (prod_bound eps (Qabs t) u51 200000000000) as [_ P];
    [split; assumption|split; assumption|].
  unfold u51 in P.
  eapply Qle_trans; [exact H|]. eapply Qle_trans; [exact P|].
  discriminate.
Qed.

Section Transform.

Variables xm xn : spec_float.
Hypothesis Rm : regular (-53) (-52) xm.
Hypothesis Vm : 98 # 100 <= value xm <= 103 # 100.
Hypothesis Rn : regular (-400) 100 xn.
Hypothesis Vn : -4100 <= value xn <= 4100.

Let fee : FeeStructure := {| m := Float xm; n := Float xn |}.

(** The value of [m * x + n] on doubles, for an amount up to [1.2 * 10^11]. *)
Lemma linear_step (lo hi : Z) (X : spec_float) :
  regular lo hi X -> (-600 <= lo)%Z -> (hi <= 200)%Z ->
  0 <= value X <= 120000000000 ->
  let r := SFadd prec emax (SFmul prec emax xm X) xn in
  regular (Z.min (lo - 1) (-400) - 52) (Z.max (hi + 2) 100 + 2) r /\
  Qabs (value r - (value xm * value X + value xn)) <= 2 # 10000.
Proof.
  intros RX Hlo Hhi VX r.
  destruct (SFmul_spec (-53) (-52) lo hi xm X Rm RX) as [R1 E1]; [lia|lia|].
  set (p := SFmul prec emax xm X) in *.
  destruct (SFadd_spec (Z.min (lo - 1) (-400)) (Z.max (hi + 2) 100) p xn)
    as [R2 E2].
  - eapply regular_weaken; [exact R1|lia|lia].
  - eapply regular_weaken; [exact Rn|lia|lia].
  - lia.
  - lia.
  - split; [exact R2|]. fold r in E2.
    destruct (prod_bound (value xm) (value X) (103 # 100) 120000000000)
      as [P0 P1]; [lra|lra|].
    assert (A1 : Qabs (value xm * value X) <= 200000000000).
    { rewrite Qabs_pos by exact P0. eapply Qle_trans; [exact P1|discriminate]. }
    assert (B1 : Qabs (value p - value xm * value X) <= 1 # 10000).
    { apply (rel_to_abs _ _ u52); [exact E1|split; discriminate|exact A1]. }
    apply Qabs_le_iff in B1.
    assert (A2 : Qabs (value p + value xn) <= 200000000000).
    { apply Qabs_bound. rewrite Qabs_pos in A1 by exact P0.
      assert (X1 : (103 # 100) * 120000000000 <= 123600000000) by discriminate.
      lra. }
    assert (B2 : Qabs (value r - (value p + value xn)) <= 1 # 10000).
    { apply (rel_to_abs _ _ u52); [exact E2|split; discriminate|exact A2]. }
    apply Qabs_le_iff in B2.
    apply Qabs_bound. lra.
Qed.

(** The Python expressions of the class, evaluated. *)
Lemma f_of_float (y : spec_float) :
  f fee (Float y)
  = Return (Float (SFadd prec emax (SFmul prec emax xm y) xn)).
Proof. reflexivity. Qed.

Lemma f_of_int (z : Z) (X : spec_float) :
  of_int z = Return X ->
  f fee (Int z)
  = Return (Float (SFadd prec emax (SFmul prec emax xm X) xn)).
Proof.
  intro H. unfold f, op2, pure, fee. simpl.
  unfold mul, arith, to_float. simpl. rewrite H. reflexivity.
Qed.

Lemma xm_not_zero : is_zero xm = false.
Proof.
  destruct xm; try reflexivity. simpl in Vm. lra.
Qed.

Lemma inverse_of_float (y : spec_float) :
  ((Float y - n fee) / m fee)%py
  = Return (Float (SFdiv prec emax (SFsub prec emax y xn) xm)).
Proof.
  unfold op2, pure, fee. simpl.
  unfold truediv, arith, to_float. simpl. now rewrite xm_not_zero.
Qed.

(** The linear branch of the inverse, within [10^-3] of the exact
    quotient. *)
Lemma inverse_step (y : spec_float) (x : Q) :
  regular (-452) 102 y -> 0 <= x <= 100000000000 ->
  Qabs (value y - (value xm * x + value xn)) <= 2 # 10000 ->
  let v := SFdiv prec emax (SFsub prec emax y xn) xm in
  regular (-557) 157 v /\ Qabs (value v - x) <= 1 # 1000.
Proof.
  intros Ry Hx Hy v.
  destruct (SFsub_spec (-452) 102 y xn) as [R1 E1];
    [exact Ry|eapply regular_weaken; [exact Rn|lia|lia]|lia|lia|].
  set (w := SFsub prec emax y xn) in *.
  destruct (SFdiv_spec (-504) 104 (-53) (-52) w xm) as [R2 E2];
    [exact R1|exact Rm|exact xm_not_zero|lia|lia|].
  fold v in R2, E2.
  split; [eapply regular_weaken; [exact R2|lia|lia]|].
  apply Qabs_le_iff in Hy.
  destruct (prod_bound (value xm) x (103 # 100) 100000000000)
    as [P0 P1]; [lra|lra|].
  assert (X1 : (103 # 100) * 100000000000 <= 103000000000) by discriminate.
  assert (A1 : Qabs (value y - value xn) <= 200000000000)
    by (apply Qabs_bound; lra).
  assert (B1 : Qabs (value w - (value y - value xn)) <= 1 # 10000)
    by (apply (rel_to_abs _ _ u52); [exact E1|split; discriminate|exact A1]).
  apply Qabs_le_iff in B1.
  (* the exact quotient *)
  set (rho := value w / value xm) in *.
  assert (Er : rho * value xm == value w) by (unfold rho; field; lra).
  (* [rho] is close to [x] *)
  assert (C1 : - (3 # 10000) <= value xm * (rho - x) <= 3 # 10000).
  { assert (T : value xm * (rho - x) == value w - value xm * x)
      by (rewrite <- Er; ring).
    rewrite T. lra. }
  assert (C2 : - (4 # 10000) <= rho - x <= 4 # 10000).
  { destruct (Qlt_le_dec (rho - x) 0) as [S|S].
    - assert (K : 0 <= (value xm - (98 # 100)) * (x - rho))
        by (apply Qmult_le_0_compat; lra).
      lra.
    - assert (K : 0 <= (value xm - (98 # 100)) * (rho - x))
        by (apply Qmult_le_0_compat; lra).
      lra. }
  assert (A2 : Qabs rho <= 200000000000) by (apply Qabs_bound; lra).
  assert (B2 : Qabs (value v - rho) <= 1 # 10000)
    by (apply (rel_to_abs _ _ u51); [exact E2|split; discriminate|exact A2]).
  apply Qabs_le_iff in B2.
  apply Qabs_bound. lra.
Qed.

(** The inverse applied to a double that the forward direction returned. *)
Lemma outbound_of_forward (fx : spec_float) (x : Z) :
  regular (-452) 102 fx -> (0 <= x <= 100000000000)%Z ->
  Qabs (value fx - (value xm * inject_Z x + value xn)) <= 2 # 10000 ->
  inject_Z x <= value fx ->
  exists inv,
    outbound_from_inbound fee (Float fx) = Return (Float inv) /\
    regular (-557) 157 inv /\
    Qabs (value inv - inject_Z x) < 1 # 2.
Proof.
  intros Rf Hx Ef Hge.
  assert (Qx : 0 <= inject_Z x <= 100000000000).
  { change 0 with (inject_Z 0).
    change 100000000000 with (inject_Z 100000000000).
    rewrite <- !Zle_Qle. exact Hx. }
  pose proof Ef as Ef'. apply Qabs_le_iff in Ef'.
  destruct (prod_bound (value xm) (inject_Z x) (103 # 100) 100000000000)
    as [P0 P1]; [lra|lra|].
  assert (X1 : (103 # 100) * 100000000000 <= 103000000000) by discriminate.
  destruct (linear_step (-452) 102 fx Rf) as [Rg Eg]; [lia|lia|lra|].
  set (g := SFadd prec emax (SFmul prec emax xm fx) xn) in *.
  unfold outbound_from_inbound. rewrite f_of_float. fold g.
  cbn [bind]. unfold gt. cbn [compare].
  rewrite (SFcompare_value _ _ _ _ g fx Rg Rf).
  destruct (Qcompare_spec (value g) (value fx)) as [C|C|C].
  - exists fx. split; [reflexivity|].
    split; [eapply regular_weaken; [exact Rf|lia|lia]|].
    apply Qabs_le_iff in Eg.
    assert (K : 0 <= (value xm - (98 # 100)) * (value fx - inject_Z x))
      by (apply Qmult_le_0_compat; lra).
    apply Qabs_Qlt_condition. split; lra.
  - exists fx. split; [reflexivity|].
    split; [eapply regular_weaken; [exact Rf|lia|lia]|].
    apply Qabs_le_iff in Eg.
    assert (K : 0 <= (value xm - (98 # 100)) * (value fx - inject_Z x))
      by (apply Qmult_le_0_compat; lra).
    apply Qabs_Qlt_condition. split; lra.
  - rewrite inverse_of_float.
    destruct (inverse_step fx (inject_Z x) Rf Qx Ef) as [Ri Ei].
    eexists. split; [reflexivity|]. split; [exact Ri|].
    apply Qabs_le_iff in Ei. apply Qabs_Qlt_condition. split; lra.
Qed.

(** The test of the prototype passes on doubles for every amount up to
    [10^11]. *)
Lemma test_passes_for (x : Z) :
  (0 <= x <= 100000000000)%Z -> test_amount fee x = Return true.
Proof.
  intro Hx.
  destruct (of_int_spec x) as (X & HX & RX & VX); [lia|].
  assert (Qx : 0 <= inject_Z x <= 100000000000).
  { change 0 with (inject_Z 0).
    change 100000000000 with (inject_Z 100000000000).
    rewrite <- !Zle_Qle. exact Hx. }
  destruct (linear_step (-52) 1 X RX) as [Rf Ef]; [lia|lia|rewrite VX; lra|].
  simpl Z.min in Rf. simpl Z.max in Rf. simpl Z.add in Rf. simpl Z.sub in Rf.
  set (fx := SFadd prec emax (SFmul prec emax xm X) xn) in *.
  rewrite VX in Ef.
  unfold test_amount, inbound_from_outbound.
  rewrite (f_of_int x X HX). fold fx. cbn [bind].
  unfold max, gt at 1. cbn [compare].
  rewrite (compare_int_float_value _ _ x fx Rf).
  destruct (Qcompare_spec (inject_Z x) (value fx)) as [C|C|C].
  - destruct (outbound_of_forward fx x Rf Hx Ef) as (inv & -> & Ri & Vi);
      [lra|].
    cbn [bind]. now rewrite (round_spec _ _ inv x Ri Vi).
  - destruct (outbound_of_forward fx x Rf Hx Ef) as (inv & -> & Ri & Vi);
      [lra|].
    cbn [bind]. now rewrite (round_spec _ _ inv x Ri Vi).
  - unfold outbound_from_inbound.
    rewrite (f_of_int x X HX). fold fx. cbn [bind].
    unfold gt. cbn [compare].
    rewrite (compare_int_float_value _ _ x fx Rf).
    assert (G : (inject_Z x ?= value fx) = Gt) by now apply Qgt_alt.
    rewrite G. cbn [option_map CompOpp bind round].
    unfold ne. cbn [compare]. now rewrite Z.compare_refl.
Qed.

End Transform.

(** *** Construction inside the parameter ranges *)

(** A double between one half and two has exponent [-53] or [-52]. *)
Lemma regular_near_one (lo hi : Z) (x : spec_float) :
  regular lo hi x -> 1 # 2 < value x < 2 -> regular (-53) (-52) x.
Proof.
  intros R [V1 V2].
  destruct x as [s|s| |s m e]; simpl in R; try contradiction.
  - simpl in V1. lra.
  - destruct R as [Dm _]. split; [exact Dm|].
    pose proof (mant_bounds m Dm) as [B1 B2].
    pose proof (mag_pos m e) as P. pose proof (pow2_pos e) as Pe.
    assert (X : inject_Z (Zpos m) < 9007199254740992)
      by (change 9007199254740992 with (inject_Z (2 ^ 53));
          now rewrite <- Zlt_Qlt).
    assert (Y : 4503599627370496 <= inject_Z (Zpos m))
      by (change 4503599627370496 with (inject_Z (2 ^ 52));
          now rewrite <- Zle_Qle).
    assert (A1 : inject_Z (Zpos m) * 2 ^ e < 9007199254740992 * 2 ^ e)
      by (apply Qmult_lt_r; assumption).
    assert (A2 : 4503599627370496 * 2 ^ e <= inject_Z (Zpos m) * 2 ^ e)
      by (apply Qmult_le_compat_r; lra).
    unfold value in V1, V2.
    destruct s; unfold sgn in V1, V2; [lra|].
    assert (U : 2 ^ e < 2 ^ (-51)).
    { change (2 ^ (-51)) with (1 # 2251799813685248). lra. }
    assert (L : 2 ^ (-54) < 2 ^ e).
    { change (2 ^ (-54)) with (1 # 18014398509481984). lra. }
    apply Qpower_lt_compat_l_inv in U; [|reflexivity].
    apply Qpower_lt_compat_l_inv in L; [|reflexivity].
    lia.
Qed.

(** The Python operators of [__init__], evaluated. *)
Lemma truediv_int (a b : Z) (q : spec_float) :
  int_truediv a b = Return q -> truediv (Int a) (Int b) = Return (Float q).
Proof. intro H. unfold truediv, arith. now rewrite H. Qed.

Lemma add_int_float (z : Z) (X y : spec_float) :
  of_int z = Return X ->
  add (Int z) (Float y) = Return (Float (SFadd prec emax X y)).
Proof. intro H. unfold add, arith, to_float. now rewrite H. Qed.

Lemma add_float_int (z : Z) (X y : spec_float) :
  of_int z = Return X ->
  add (Float y) (Int z) = Return (Float (SFadd prec emax y X)).
Proof. intro H. unfold add, arith, to_float. cbn [bind]. now rewrite H. Qed.

Lemma mul_int_float (z : Z) (X y : spec_float) :
  of_int z = Return X ->
  mul (Int z) (Float y) = Return (Float (SFmul prec emax X y)).
Proof. intro H. unfold mul, arith, to_float. now rewrite H. Qed.

Lemma mul_float_float (x y : spec_float) :
  mul (Float x) (Float y) = Return (Float (SFmul prec emax x y)).
Proof. reflexivity. Qed.

Lemma add_float_float (x y : spec_float) :
  add (Float x) (Float y) = Return (Float (SFadd prec emax x y)).
Proof. reflexivity. Qed.

Lemma inject_Z_range (z lo hi : Z) :
  (lo <= z <= hi)%Z -> inject_Z lo <= inject_Z z <= inject_Z hi.
Proof. intros [H1 H2]. rewrite <- !Zle_Qle. split; assumption. Qed.

Lemma ppm_fraction (z : Z) :
  inject_Z z / inject_Z UNIT_M == inject_Z z * (1 # 1000000).
Proof. unfold UNIT_M. field. Qed.

(** Construction on doubles for parameters inside the ranges of the test,
    operation by operation: the multiplier is a double near one, the offset
    a double of moderate size, and both are the exact coefficients up to
    rounding. *)
Lemma init_analysis (fee_rate_out base_out fee_rate_in base_in : Z) :
  Exact.valid_params fee_rate_out base_out fee_rate_in base_in ->
  let exact := Exact.__init__ fee_rate_out base_out fee_rate_in base_in in
  exists xm xn,
    __init__ fee_rate_out base_out fee_rate_in base_in
    = Return {| m := Float xm; n := Float xn |} /\
    regular (-53) (-52) xm /\ 98 # 100 <= value xm <= 103 # 100 /\
    regular (-400) 100 xn /\ -4100 <= value xn <= 4100 /\
    Qabs (value xm - Exact.m exact) <= 1 # 1000000000000000 /\
    Qabs (value xn - Exact.n exact) <= 2 # 1000000000000.
Proof.
  intros (Ho & Hbo & Hi & Hbi) exact.
  pose proof (inject_Z_range _ _ _ Ho) as Qo.
  pose proof (inject_Z_range _ _ _ Hbo) as Qbo.
  pose proof (inject_Z_range _ _ _ Hi) as Qi.
  pose proof (inject_Z_range _ _ _ Hbi) as Qbi.
  change (inject_Z 0) with 0 in *. change (inject_Z 10000) with 10000 in *.
  change (inject_Z 2000) with 2000 in *.
  change (inject_Z (-10000)) with (-10000) in *.
  change (inject_Z (-2000)) with (-2000) in *.
  (* the exact coefficients *)
  assert (Xm : Exact.m exact
               == 1 + inject_Z fee_rate_out * (1 # 1000000)
                      * (1 + inject_Z fee_rate_in * (1 # 1000000))
                  + inject_Z fee_rate_in * (1 # 1000000)).
  { unfold exact. cbn [Exact.m Exact.__init__]. now rewrite !ppm_fraction. }
  assert (Xn : Exact.n exact
               == inject_Z base_out
                  * (1 + inject_Z fee_rate_in * (1 # 1000000))
                  + inject_Z base_in).
  { unfold exact. cbn [Exact.n Exact.__init__]. now rewrite !ppm_fraction. }
  (* the two rates *)
  destruct (int_truediv_spec fee_rate_out) as (a & Ha & Ra & Ea); [lia|].
  destruct (int_truediv_spec fee_rate_in) as (b & Hb & Rb & Eb); [lia|].
  rewrite ppm_fraction in Ea, Eb.
  set (ta := inject_Z fee_rate_out * (1 # 1000000)) in *.
  set (tb := inject_Z fee_rate_in * (1 # 1000000)) in *.
  assert (Ta : 0 <= ta <= 1 # 100) by (unfold ta; lra).
  assert (Tb : - (1 # 100) <= tb <= 1 # 100) by (unfold tb; lra).
  clearbody ta tb.
  rewrite (Qabs_pos ta) in Ea by lra.
  assert (Tb' : Qabs tb <= 1 # 100) by (apply Qabs_bound; lra).
  apply Qabs_le_iff in Ea, Eb. unfold u51 in Ea, Eb.
  (* the integers *)
  destruct (of_int_spec 1) as (X1 & H1 & R1 & V1); [simpl; lia|].
  destruct (of_int_spec base_out) as (Xo & H2 & R2 & V2); [lia|].
  destruct (of_int_spec base_in) as (Xi & H3 & R3 & V3); [lia|].
  change (inject_Z 1) with 1 in V1.
  (* c = 1 + fee_rate_in / UNIT_M *)
  destruct (SFadd_spec (-72) 1 X1 b) as [Rc Ec];
    [eapply regular_weaken; [exact R1|lia|lia]
    |eapply regular_weaken; [exact Rb|lia|lia]|lia|lia|].
  set (c := SFadd prec emax X1 b) in *.
  rewrite V1 in Ec.
  assert (Tc : Qabs (1 + value b) <= 102 # 100) by (apply Qabs_bound; lra).
  apply Qabs_le_iff in Ec. unfold u52 in Ec.
  assert (Vc : 98 # 100 <= value c <= 102 # 100) by lra.
  assert (Kc : Qabs (value c - (1 + tb)) <= 3 # 10000000000000000)
    by (apply Qabs_bound; lra).
  (* d = fee_rate_out / UNIT_M * c *)
  destruct (SFmul_spec (-72) (-18) (-124) 3 a c Ra Rc) as [Rd Ed]; [lia|lia|].
  set (d := SFmul prec emax a c) in *.
  destruct (prod_bound (value a) (value c) (2 # 100) (102 # 100))
    as [Pd0 Pd1]; [lra|lra|].
  rewrite (Qabs_pos (value a * value c)) in Ed by exact Pd0.
  apply Qabs_le_iff in Ed. unfold u52 in Ed.
  assert (Xd : (2 # 100) * (102 # 100) <= 3 # 100) by discriminate.
  assert (Vd : 0 <= value d <= 4 # 100) by lra.
  assert (G1 : - ((1 # 100000000000000000) * (102 # 100))
               <= (value a - ta) * value c
               <= (1 # 100000000000000000) * (102 # 100)).
  { apply Qabs_prod_bound; apply Qabs_bound; lra. }
  assert (G2 : - ((1 # 100) * (3 # 10000000000000000))
               <= ta * (value c - (1 + tb))
               <= (1 # 100) * (3 # 10000000000000000)).
  { apply Qabs_prod_bound; [apply Qabs_bound; lra|exact Kc]. }
  (* e = 1 + d *)
  destruct (SFadd_spec (-144) 39 X1 d) as [Re Ee];
    [eapply regular_weaken; [exact R1|lia|lia]
    |eapply regular_weaken; [exact Rd|lia|lia]|lia|lia|].
  set (e := SFadd prec emax X1 d) in *.
  rewrite V1 in Ee.
  assert (Te : Qabs (1 + value d) <= 104 # 100) by (apply Qabs_bound; lra).
  apply Qabs_le_iff in Ee. unfold u52 in Ee.
  (* m = e + fee_rate_in / UNIT_M *)
  destruct (SFadd_spec (-196) 41 e b) as [Rm Em];
    [exact Re|eapply regular_weaken; [exact Rb|lia|lia]|lia|lia|].
  set (xm := SFadd prec emax e b) in *.
  assert (Tm : Qabs (value e + value b) <= 106 # 100)
    by (apply Qabs_bound; lra).
  apply Qabs_le_iff in Em. unfold u52 in Em.
  assert (Cm : Qabs (value xm - Exact.m exact) <= 1 # 1000000000000000).
  { rewrite Xm. apply Qabs_bound. lra. }
  assert (Vm : 98 # 100 <= value xm <= 103 # 100).
  { assert (F1 : 0 <= value a * (value c - (98 # 100)))
      by (apply Qmult_le_0_compat; lra).
    assert (F2 : 0 <= value a * ((102 # 100) - value c))
      by (apply Qmult_le_0_compat; lra).
    lra. }
  (* n = base_out * c + base_in *)
  destruct (SFmul_spec (-52) 1 (-124) 3 Xo c R2 Rc) as [Rh Eh]; [lia|lia|].
  set (h := SFmul prec emax Xo c) in *.
  rewrite V2 in Eh.
  destruct (prod_bound (inject_Z base_out) (value c) 2000 (102 # 100))
    as [Ph0 Ph1]; [lra|lra|].
  rewrite (Qabs_pos (inject_Z base_out * value c)) in Eh by exact Ph0.
  apply Qabs_le_iff in Eh. unfold u52 in Eh.
  assert (Xh : 2000 * (102 # 100) <= 2040) by discriminate.
  assert (G3 : - (2000 * (3 # 10000000000000000))
               <= inject_Z base_out * (value c - (1 + tb))
               <= 2000 * (3 # 10000000000000000)).
  { apply Qabs_prod_bound; [apply Qabs_bound; lra|exact Kc]. }
  destruct (SFadd_spec (-124) 58 h Xi) as [Rn En];
    [exact Rh|eapply regular_weaken; [exact R3|lia|lia]|lia|lia|].
  set (xn := SFadd prec emax h Xi) in *.
  rewrite V3 in En.
  assert (Tn : Qabs (value h + inject_Z base_in) <= 4041)
    by (apply Qabs_bound; lra).
  apply Qabs_le_iff in En. unfold u52 in En.
  assert (Cn : Qabs (value xn - Exact.n exact) <= 2 # 1000000000000).
  { rewrite Xn. apply Qabs_bound. lra. }
  exists xm, xn.
  split.
  - unfold __init__, op2, pure. cbn [bind].
    rewrite (truediv_int _ _ a Ha). cbn [bind].
    rewrite (truediv_int _ _ b Hb). cbn [bind].
    rewrite (add_int_float 1 X1 b H1). fold c. cbn [bind].
    rewrite mul_float_float. fold d. cbn [bind].
    rewrite (add_int_float 1 X1 d H1). fold e. cbn [bind].
    rewrite add_float_float. fold xm. cbn [bind].
    rewrite (mul_int_float base_out Xo c H2). fold h. cbn [bind].
    rewrite (add_float_int base_in Xi h H3). fold xn. cbn [bind].
    reflexivity.
  - split; [apply (regular_near_one _ _ xm Rm); lra|].
    split; [exact Vm|].
    split; [eapply regular_weaken; [exact Rn|lia|lia]|].
    split; [lra|]. split; [exact Cm|exact Cn].
Qed.

(** Construction on doubles for parameters inside the ranges of the test:
    the multiplier is a double near one, the offset a double of moderate
    size. *)
Lemma init_on_doubles (fee_rate_out base_out fee_rate_in base_in : Z) :
  Exact.valid_params fee_rate_out base_out fee_rate_in base_in ->
  exists xm xn,
    __init__ fee_rate_out base_out fee_rate_in base_in
    = Return {| m := Float xm; n := Float xn |} /\
    regular (-53) (-52) xm /\ 98 # 100 <= value xm <= 103 # 100 /\
    regular (-400) 100 xn /\ -4100 <= value xn <= 4100.
Proof.
  intro Hv.
  destruct (init_analysis _ _ _ _ Hv)
    as (xm & xn & E & Rm & Vm & Rn & Vn & _).
  exists xm, xn. repeat split; solve [assumption | apply Vm | apply Vn].
Qed.

(** The test of the prototype passes on doubles for all parameters inside
    the ranges and every amount up to [10^11]. *)
Lemma test_passes_on_doubles
    (fee_rate_out base_out fee_rate_in base_in x : Z) :
  Exact.valid_params fee_rate_out base_out fee_rate_in base_in ->
  (0 <= x <= 100000000000)%Z ->
  (fee <- __init__ fee_rate_out base_out fee_rate_in base_in ;;
   test_amount fee x) = Return true.
Proof.
  intros Hv Hx.
  destruct (init_on_doubles _ _ _ _ Hv) as (xm & xn & -> & Rm & Vm & Rn & Vn).
  cbn [bind]. now apply test_passes_for.
Qed.

(** *** Construction and both directions below [2^53] *)

(** Construction does not overflow for parameters below [2^53]: both
    coefficients are zero or normal doubles. *)
Lemma init_returns (fee_rate_out base_out fee_rate_in base_in : Z) :
  (Z.abs fee_rate_out < 2 ^ 53)%Z -> (Z.abs base_out < 2 ^ 53)%Z ->
  (Z.abs fee_rate_in < 2 ^ 53)%Z -> (Z.abs base_in < 2 ^ 53)%Z ->
  exists xm xn,
    __init__ fee_rate_out base_out fee_rate_in base_in
    = Return {| m := Float xm; n := Float xn |} /\
    regular (-248) 43 xm /\ regular (-176) 60 xn.
Proof.
  intros Ho Hbo Hi Hbi.
  destruct (int_truediv_spec fee_rate_out Ho) as (a & Ha & Ra & _).
  destruct (int_truediv_spec fee_rate_in Hi) as (b & Hb & Rb & _).
  destruct (of_int_spec 1) as (X1 & H1 & R1 & _); [simpl; lia|].
  destruct (of_int_spec base_out Hbo) as (Xo & H2 & R2 & _).
  destruct (of_int_spec base_in Hbi) as (Xi & H3 & R3 & _).
  destruct (SFadd_spec (-72) 1 X1 b) as [Rc _];
    [eapply regular_weaken; [exact R1|lia|lia]
    |eapply regular_weaken; [exact Rb|lia|lia]|lia|lia|].
  set (c := SFadd prec emax X1 b) in *.
  destruct (SFmul_spec (-72) (-18) (-124) 3 a c Ra Rc) as [Rd _]; [lia|lia|].
  set (d := SFmul prec emax a c) in *.
  destruct (SFadd_spec (-144) 39 X1 d) as [Re _];
    [eapply regular_weaken; [exact R1|lia|lia]
    |eapply regular_weaken; [exact Rd|lia|lia]|lia|lia|].
  set (e := SFadd prec emax X1 d) in *.
  destruct (SFadd_spec (-196) 41 e b) as [Rm _];
    [exact Re|eapply regular_weaken; [exact Rb|lia|lia]|lia|lia|].
  set (xm := SFadd prec emax e b) in *.
  destruct (SFmul_spec (-52) 1 (-124) 3 Xo c R2 Rc) as [Rh _]; [lia|lia|].
  set (h := SFmul prec emax Xo c) in *.
  destruct (SFadd_spec (-124) 58 h Xi) as [Rn _];
    [exact Rh|eapply regular_weaken; [exact R3|lia|lia]|lia|lia|].
  set (xn := SFadd prec emax h Xi) in *.
  exists xm, xn. split; [|split; assumption].
  unfold __init__, op2, pure. cbn [bind].
  rewrite (truediv_int _ _ a Ha). cbn [bind].
  rewrite (truediv_int _ _ b Hb). cbn [bind].
  rewrite (add_int_float 1 X1 b H1). fold c. cbn [bind].
  rewrite mul_float_float. fold d. cbn [bind].
  rewrite (add_int_float 1 X1 d H1). fold e. cbn [bind].
  rewrite add_float_float. fold xm. cbn [bind].
  rewrite (mul_int_float base_out Xo c H2). fold h. cbn [bind].
  rewrite (add_float_int base_in Xi h H3). fold xn. cbn [bind].
  reflexivity.
Qed.

Section Finite.

(** Coefficients as [init_returns] gives them. *)
Variables xm xn : spec_float.
Hypothesis Rm : regular (-248) 43 xm.
Hypothesis Rn : regular (-176) 60 xn.

Let fee : FeeStructure := {| m := Float xm; n := Float xn |}.

Lemma f_returns (x : Z) :
  (Z.abs x < 2 ^ 53)%Z ->
  exists fx, f fee (Int x) = Return (Float fx) /\ regular (-300) 100 fx.
Proof.
  intro Hx.
  destruct (of_int_spec x Hx) as (X & HX & RX & _).
  destruct (SFmul_spec (-248) 43 (-52) 1 xm X Rm RX) as [Rp _]; [lia|lia|].
  destruct (SFadd_spec (-248) 98 (SFmul prec emax xm X) xn) as [Rf _];
    [exact Rp|eapply regular_weaken; [exact Rn|lia|lia]|lia|lia|].
  eexists. split; [exact (f_of_int xm xn x X HX)|exact Rf].
Qed.

Lemma inbound_returns (x : Z) :
  (Z.abs x < 2 ^ 53)%Z ->
  exists r, inbound_from_outbound fee (Int x) = Return r /\ finite r.
Proof.
  intro Hx.
  destruct (f_returns x Hx) as (fx & Hf & Rf).
  unfold inbound_from_outbound. rewrite Hf. cbn [bind].
  eexists. split; [reflexivity|].
  unfold max. destruct (gt (Int x) (Float fx)); [exact I|].
  simpl. eapply regular_weaken; [exact Rf|lia|lia].
Qed.

Lemma outbound_returns (y : Z) :
  (Z.abs y < 2 ^ 53)%Z ->
  (exists r, outbound_from_inbound fee (Int y) = Return r /\ finite r) \/
  (is_zero xm = true /\
   outbound_from_inbound fee (Int y) = Raise ZeroDivisionError).
Proof.
  intro Hy.
  destruct (f_returns y Hy) as (g & Hg & Rg).
  destruct (of_int_spec y Hy) as (Y & HY & RY & _).
  unfold outbound_from_inbound. rewrite Hg. cbn [bind].
  destruct (gt (Float g) (Int y)).
  - unfold op2, pure, fee. cbn [bind m n].
    unfold sub, arith, to_float. rewrite HY. cbn [bind].
    unfold truediv, arith, to_float. cbn [bind].
    destruct (is_zero xm) eqn:Z; [right; split; reflexivity|].
    left. eexists. split; [reflexivity|].
    destruct (SFsub_spec (-176) 60 Y xn) as [Rw _];
      [eapply regular_weaken; [exact RY|lia|lia]|exact Rn|lia|lia|].
    destruct (SFdiv_spec (-228) 62 (-248) 43 (SFsub prec emax Y xn) xm)
      as [Rv _]; [exact Rw|exact Rm|exact Z|lia|lia|].
    simpl. eapply regular_weaken; [exact Rv|lia|lia].
  - left. exists (Int y). split; [reflexivity|exact I].
Qed.

End Finite.

(** *** The distance to the exact transform *)

(** Python's comparison of two finite numbers is the order of their
    values. *)
Lemma compare_value (a b : number) :
  finite a -> finite b ->
  compare a b = Some (number_value a ?= number_value b).
Proof.
  destruct a as [x|x], b as [y|y]; simpl finite; intros Fa Fb;
    cbn [compare number_value].
  - now rewrite Qcompare_inject_Z.
  - exact (compare_int_float_value _ _ x y Fb).
  - rewrite (compare_int_float_value _ _ y x Fa). cbn [option_map].
    now rewrite Qcompare_antisym.
  - exact (SFcompare_value _ _ _ _ x y Fa Fb).
Qed.

Lemma gt_value (a b : number) :
  finite a -> finite b ->
  (gt a b = true <-> number_value b < number_value a).
Proof.
  intros Fa Fb. unfold gt. rewrite (compare_value a b Fa Fb).
  rewrite (Qgt_alt (number_value a) (number_value b)).
  destruct (number_value a ?= number_value b); split; intro H; congruence.
Qed.

Section Growth.

Variable exact : Exact.FeeStructure.
Hypothesis M : 97 # 100 <= Exact.m exact <= 104 # 100.

(** The exact forward direction grows by at least [0.97] per unit. *)
Lemma exact_inbound_growth (a b : Q) :
  a <= b ->
  (97 # 100) * (b - a)
  <= Exact.inbound_from_outbound exact b
     - Exact.inbound_from_outbound exact a.
Proof.
  intro Hab. unfold Exact.inbound_from_outbound.
  rewrite !ExactFacts.max_Qmax. unfold Exact.f.
  assert (P : 0 <= (Exact.m exact - (97 # 100)) * (b - a))
    by (apply Qmult_le_0_compat; lra).
  pose proof (Q.le_max_l (Exact.m exact * b + Exact.n exact) b) as L1.
  pose proof (Q.le_max_r (Exact.m exact * b + Exact.n exact) b) as L2.
  destruct (Q.max_spec (Exact.m exact * a + Exact.n exact) a)
    as [[_ ->]|[_ ->]]; lra.
Qed.

(** The exact inverse grows by at least [0.96] per unit. *)
Lemma exact_outbound_growth (a b qa qb : Q) :
  a <= b ->
  Exact.outbound_from_inbound exact a = Return qa ->
  Exact.outbound_from_inbound exact b = Return qb ->
  (96 # 100) * (b - a) <= qb - qa.
Proof.
  intros Hab Ea Eb.
  set (La := (a - Exact.n exact) / Exact.m exact).
  set (Lb := (b - Exact.n exact) / Exact.m exact).
  assert (Ha : La * Exact.m exact == a - Exact.n exact)
    by (unfold La; field; lra).
  assert (Hb : Lb * Exact.m exact == b - Exact.n exact)
    by (unfold Lb; field; lra).
  (* the quotients grow *)
  assert (G : (96 # 100) * (b - a) <= Lb - La).
  { destruct (Qlt_le_dec (Lb - La) 0) as [S|S].
    - assert (0 < Exact.m exact * (La - Lb))
        by (apply Qmult_lt_0_compat; lra).
      lra.
    - assert (0 <= ((104 # 100) - Exact.m exact) * (Lb - La))
        by (apply Qmult_le_0_compat; lra).
      lra. }
  (* each result is the smaller of the amount and the quotient *)
  assert (Below : forall y q,
            Exact.outbound_from_inbound exact y = Return q ->
            q <= y /\ q <= (y - Exact.n exact) / Exact.m exact /\
            (q == y \/ q == (y - Exact.n exact) / Exact.m exact)).
  { intros y q E.
    set (L := (y - Exact.n exact) / Exact.m exact).
    assert (HL : L * Exact.m exact == y - Exact.n exact)
      by (unfold L; field; lra).
    destruct (Qlt_le_dec y (Exact.f exact y)) as [C|C].
    - rewrite (@ExactFacts.outbound_linear exact _ C) in E.
      rewrite ExactFacts.div_nonzero in E by lra.
      injection E as <-. fold L.
      unfold Exact.f in C.
      assert (L <= y).
      { destruct (Qlt_le_dec y L) as [S|S]; [|exact S].
        assert (0 < Exact.m exact * (L - y))
          by (apply Qmult_lt_0_compat; lra).
        lra. }
      split; [assumption|]. split; [lra|right; reflexivity].
    - rewrite (@ExactFacts.outbound_identity exact _ C) in E.
      injection E as <-.
      unfold Exact.f in C.
      assert (y <= L).
      { destruct (Qlt_le_dec L y) as [S|S]; [|exact S].
        assert (0 < Exact.m exact * (y - L))
          by (apply Qmult_lt_0_compat; lra).
        lra. }
      split; [lra|]. split; [assumption|left; reflexivity]. }
  destruct (Below a qa Ea) as (A1 & A2 & _).
  destruct (Below b qb Eb) as (_ & _ & [B|B]).
  - rewrite B. lra.
  - rewrite B. fold La in A2. fold Lb. lra.
Qed.

End Growth.

Section Accuracy.

(** The coefficients on doubles, as [init_analysis] gives them, and the
    exact ones. *)
Variables xm xn : spec_float.
Variable exact : Exact.FeeStructure.
Hypothesis Rm : regular (-53) (-52) xm.
Hypothesis Vm : 98 # 100 <= value xm <= 103 # 100.
Hypothesis Rn : regular (-400) 100 xn.
Hypothesis Vn : -4100 <= value xn <= 4100.
Hypothesis Cm : Qabs (value xm - Exact.m exact) <= 1 # 1000000000000000.
Hypothesis Cn : Qabs (value xn - Exact.n exact) <= 2 # 1000000000000.

Let fee : FeeStructure := {| m := Float xm; n := Float xn |}.

(** [f] on doubles, within [4 * 10^-4] of the exact value. *)
Lemma f_close (x : Z) :
  (0 <= x <= 100000000000)%Z ->
  exists fx,
    f fee (Int x) = Return (Float fx) /\ regular (-452) 102 fx /\
    Qabs (value fx - Exact.f exact (inject_Z x)) <= 4 # 10000.
Proof.
  intro Hx.
  destruct (of_int_spec x) as (X & HX & RX & VX); [lia|].
  assert (Qx : 0 <= inject_Z x <= 100000000000).
  { change 0 with (inject_Z 0).
    change 100000000000 with (inject_Z 100000000000).
    rewrite <- !Zle_Qle. exact Hx. }
  destruct (linear_step xm xn Rm Vm Rn Vn (-52) 1 X RX) as [Rf Ef];
    [lia|lia|rewrite VX; lra|].
  simpl Z.min in Rf. simpl Z.max in Rf. simpl Z.add in Rf. simpl Z.sub in Rf.
  set (fx := SFadd prec emax (SFmul prec emax xm X) xn) in *.
  rewrite VX in Ef.
  exists fx. split; [exact (f_of_int xm xn x X HX)|].
  split; [exact Rf|].
  apply Qabs_le_iff in Ef.
  pose proof Cn as Cn'. apply Qabs_le_iff in Cn'.
  assert (P : - ((1 # 1000000000000000) * 100000000000)
              <= (value xm - Exact.m exact) * inject_Z x
              <= (1 # 1000000000000000) * 100000000000).
  { apply Qabs_prod_bound; [exact Cm|apply Qabs_bound; lra]. }
  unfold Exact.f. apply Qabs_bound. lra.
Qed.

(** The exact multiplier is near one as well. *)
Lemma exact_m_range : 97 # 100 <= Exact.m exact <= 104 # 100.
Proof.
  pose proof Cm as C. apply Qabs_le_iff in C. lra.
Qed.

(** The forward direction on doubles, within [10^-3] of the exact one. *)
Lemma inbound_close (x : Z) :
  (0 <= x <= 100000000000)%Z ->
  exists r,
    inbound_from_outbound fee (Int x) = Return r /\ finite r /\
    Qabs (number_value r - Exact.inbound_from_outbound exact (inject_Z x))
    <= 1 # 1000.
Proof.
  intro Hx.
  destruct (f_close x Hx) as (fx & Hf & Rf & Ef).
  apply Qabs_le_iff in Ef.
  unfold inbound_from_outbound. rewrite Hf. cbn [bind].
  eexists. split; [reflexivity|].
  unfold max, gt. cbn [compare].
  rewrite (compare_int_float_value _ _ x fx Rf).
  unfold Exact.inbound_from_outbound.
  rewrite ExactFacts.max_Qmax.
  set (F := Exact.f exact (inject_Z x)) in *.
  assert (Ff : finite (Float fx))
    by (simpl; eapply regular_weaken; [exact Rf|lia|lia]).
  destruct (Qcompare_spec (inject_Z x) (value fx)) as [C|C|C];
    (split; [exact Ff || exact I|]);
    apply Qabs_bound;
    destruct (Q.max_spec F (inject_Z x)) as [[L ->]|[L ->]];
    cbn [number_value]; lra.
Qed.

Lemma inverse_of_int (y : Z) (Y : spec_float) :
  of_int y = Return Y ->
  ((Int y - n fee) / m fee)%py
  = Return (Float (SFdiv prec emax (SFsub prec emax Y xn) xm)).
Proof.
  intro H. unfold op2, pure, fee. cbn [bind m n].
  unfold sub, arith, to_float. rewrite H. cbn [bind].
  unfold truediv, arith, to_float. cbn [bind].
  now rewrite (xm_not_zero xm xn Rm Vm).
Qed.

(** The exact inverse of an amount up to [10^11]. *)
Lemma exact_quotient (y : Q) :
  0 <= y <= 100000000000 ->
  let q := (y - Exact.n exact) / Exact.m exact in
  q * Exact.m exact == y - Exact.n exact /\
  Qabs q <= 104000000000.
Proof.
  intros Hy q.
  pose proof exact_m_range as M.
  pose proof Cn as Cn'. apply Qabs_le_iff in Cn'.
  assert (E : q * Exact.m exact == y - Exact.n exact)
    by (unfold q; field; lra).
  split; [exact E|].
  apply Qabs_bound.
  destruct (Qlt_le_dec q 0) as [S|S].
  - assert (K : 0 <= (Exact.m exact - (97 # 100)) * (- q))
      by (apply Qmult_le_0_compat; lra).
    lra.
  - assert (K : 0 <= (Exact.m exact - (97 # 100)) * q)
      by (apply Qmult_le_0_compat; lra).
    lra.
Qed.

(** The linear branch of the inverse on doubles, within [4 * 10^-4] of the
    exact quotient. *)
Lemma inverse_close (y : Z) (Y : spec_float) :
  (0 <= y <= 100000000000)%Z -> of_int y = Return Y ->
  regular (-52) 1 Y -> value Y == inject_Z y ->
  let v := SFdiv prec emax (SFsub prec emax Y xn) xm in
  regular (-557) 157 v /\
  Qabs (value v - (inject_Z y - Exact.n exact) / Exact.m exact)
  <= 4 # 10000.
Proof.
  intros Hy HY RY VY v.
  assert (Qy : 0 <= inject_Z y <= 100000000000).
  { change 0 with (inject_Z 0).
    change 100000000000 with (inject_Z 100000000000).
    rewrite <- !Zle_Qle. exact Hy. }
  destruct (exact_quotient (inject_Z y) Qy) as [Eq Bq].
  set (q := (inject_Z y - Exact.n exact) / Exact.m exact) in *.
  pose proof exact_m_range as M.
  pose proof Cn as Cn'. apply Qabs_le_iff in Cn'.
  destruct (SFsub_spec (-400) 100 Y xn) as [R1 E1];
    [eapply regular_weaken; [exact RY|lia|lia]|exact Rn|lia|lia|].
  set (w := SFsub prec emax Y xn) in *.
  rewrite VY in E1.
  destruct (SFdiv_spec (-452) 102 (-53) (-52) w xm) as [R2 E2];
    [exact R1|exact Rm|exact (xm_not_zero xm xn Rm Vm)|lia|lia|].
  fold v in R2, E2.
  split; [eapply regular_weaken; [exact R2|lia|lia]|].
  assert (A1 : Qabs (inject_Z y - value xn) <= 200000000000)
    by (apply Qabs_bound; lra).
  assert (B1 : Qabs (value w - (inject_Z y - value xn)) <= 1 # 10000)
    by (apply (rel_to_abs _ _ u52); [exact E1|split; discriminate|exact A1]).
  apply Qabs_le_iff in B1.
  (* the quotient of the two doubles before it is rounded *)
  set (rho := value w / value xm) in *.
  assert (Er : rho * value xm == value w) by (unfold rho; field; lra).
  (* [rho] is close to [q] *)
  assert (P : - ((1 # 1000000000000000) * 104000000000)
              <= (value xm - Exact.m exact) * q
              <= (1 # 1000000000000000) * 104000000000).
  { apply Qabs_prod_bound; [exact Cm|exact Bq]. }
  assert (C1 : - (21 # 100000) <= value xm * (rho - q) <= 21 # 100000).
  { assert (T : value xm * (rho - q)
                == value w - (inject_Z y - Exact.n exact)
                   - (value xm - Exact.m exact) * q)
      by (rewrite <- Er, <- Eq; ring).
    rewrite T. lra. }
  assert (C2 : - (22 # 100000) <= rho - q <= 22 # 100000).
  { destruct (Qlt_le_dec (rho - q) 0) as [S|S].
    - assert (K : 0 <= (value xm - (98 # 100)) * (q - rho))
        by (apply Qmult_le_0_compat; lra).
      lra.
    - assert (K : 0 <= (value xm - (98 # 100)) * (rho - q))
        by (apply Qmult_le_0_compat; lra).
      lra. }
  apply Qabs_le_iff in Bq.
  assert (A2 : Qabs rho <= 200000000000) by (apply Qabs_bound; lra).
  assert (B2 : Qabs (value v - rho) <= 1 # 10000)
    by (apply (rel_to_abs _ _ u51); [exact E2|split; discriminate|exact A2]).
  apply Qabs_le_iff in B2.
  apply Qabs_bound. lra.
Qed.

(** The inverse on doubles, within [10^-3] of the exact one; the two may
    take different branches next to the breakpoint, where the branches
    meet. *)
Lemma outbound_close (y : Z) :
  (0 <= y <= 100000000000)%Z ->
  exists r q,
    outbound_from_inbound fee (Int y) = Return r /\ finite r /\
    Exact.outbound_from_inbound exact (inject_Z y) = Return q /\
    Qabs (number_value r - q) <= 1 # 1000.
Proof.
  intro Hy.
  assert (Qy : 0 <= inject_Z y <= 100000000000).
  { change 0 with (inject_Z 0).
    change 100000000000 with (inject_Z 100000000000).
    rewrite <- !Zle_Qle. exact Hy. }
  destruct (f_close y Hy) as (g & Hg & Rg & Eg).
  apply Qabs_le_iff in Eg.
  destruct (of_int_spec y) as (Y & HY & RY & VY); [lia|].
  destruct (inverse_close y Y Hy HY RY VY) as [Rv Ev].
  set (v := SFdiv prec emax (SFsub prec emax Y xn) xm) in *.
  assert (Fv : finite (Float v))
    by (simpl; eapply regular_weaken; [exact Rv|lia|lia]).
  destruct (exact_quotient (inject_Z y) Qy) as [Eq Bq].
  set (q := (inject_Z y - Exact.n exact) / Exact.m exact) in *.
  apply Qabs_le_iff in Ev.
  pose proof exact_m_range as M.
  set (F := Exact.f exact (inject_Z y)) in *.
  (* the distance between the two exact branches *)
  assert (D : (q - inject_Z y) * Exact.m exact == inject_Z y - F).
  { unfold F, Exact.f. lra. }
  assert (Near : Qabs (inject_Z y - F) <= 4 # 10000 ->
                 Qabs (q - inject_Z y) <= 5 # 10000).
  { intro N. apply Qabs_le_iff in N. apply Qabs_bound.
    destruct (Qlt_le_dec (q - inject_Z y) 0) as [S|S].
    - assert (K : 0 <= (Exact.m exact - (97 # 100)) * (inject_Z y - q))
        by (apply Qmult_le_0_compat; lra).
      lra.
    - assert (K : 0 <= (Exact.m exact - (97 # 100)) * (q - inject_Z y))
        by (apply Qmult_le_0_compat; lra).
      lra. }
  unfold outbound_from_inbound. rewrite Hg. cbn [bind].
  unfold gt. cbn [compare].
  rewrite (compare_int_float_value _ _ y g Rg).
  destruct (Qlt_le_dec (inject_Z y) F) as [L|L].
  - (* the exact inverse divides *)
    rewrite (@ExactFacts.outbound_linear exact _ L).
    rewrite ExactFacts.div_nonzero by lra. fold q.
    destruct (Qcompare_spec (inject_Z y) (value g)) as [C|C|C];
      cbn [option_map CompOpp].
    + exists (Int y), q. split; [reflexivity|]. split; [exact I|].
      split; [reflexivity|].
      cbn [number_value]. rewrite Qabs_Qminus.
      eapply Qle_trans; [apply Near; apply Qabs_bound; lra|discriminate].
    + rewrite (inverse_of_int y Y HY). fold v.
      exists (Float v), q. split; [reflexivity|]. split; [exact Fv|].
      split; [reflexivity|].
      cbn [number_value]. apply Qabs_bound. lra.
    + exists (Int y), q. split; [reflexivity|]. split; [exact I|].
      split; [reflexivity|].
      cbn [number_value]. rewrite Qabs_Qminus.
      eapply Qle_trans; [apply Near; apply Qabs_bound; lra|discriminate].
  - (* the exact inverse returns the amount *)
    rewrite (@ExactFacts.outbound_identity exact _ L).
    destruct (Qcompare_spec (inject_Z y) (value g)) as [C|C|C];
      cbn [option_map CompOpp].
    + exists (Int y), (inject_Z y).
      split; [reflexivity|]. split; [exact I|]. split; [reflexivity|].
      cbn [number_value]. apply Qabs_bound. lra.
    + rewrite (inverse_of_int y Y HY). fold v.
      exists (Float v), (inject_Z y).
      split; [reflexivity|]. split; [exact Fv|]. split; [reflexivity|].
      cbn [number_value].
      assert (N : Qabs (q - inject_Z y) <= 5 # 10000)
        by (apply Near; apply Qabs_bound; lra).
      apply Qabs_le_iff in N. apply Qabs_bound. lra.
    + exists (Int y), (inject_Z y).
      split; [reflexivity|]. split; [exact I|]. split; [reflexivity|].
      cbn [number_value]. apply Qabs_bound. lra.
Qed.

(** On integer amounts both directions are strictly increasing on doubles:
    one unit more moves the exact value by more than rounding can undo. *)
Lemma inbound_increasing (a b : Z) :
  (0 <= a)%Z -> (a < b)%Z -> (b <= 100000000000)%Z ->
  exists ra rb,
    inbound_from_outbound fee (Int a) = Return ra /\
    inbound_from_outbound fee (Int b) = Return rb /\
    gt rb ra = true.
Proof.
  intros H0 Hab Hb.
  destruct (inbound_close a) as (ra & Ea & Fa & Ca); [lia|].
  destruct (inbound_close b) as (rb & Eb & Fb & Cb); [lia|].
  exists ra, rb. split; [exact Ea|]. split; [exact Eb|].
  apply (gt_value rb ra Fb Fa).
  assert (Q1 : inject_Z a + 1 <= inject_Z b).
  { change 1 with (inject_Z 1). rewrite <- inject_Z_plus, <- Zle_Qle. lia. }
  pose proof (exact_inbound_growth exact exact_m_range
                (inject_Z a) (inject_Z b)) as G.
  apply Qabs_le_iff in Ca, Cb. lra.
Qed.

Lemma outbound_increasing (a b : Z) :
  (0 <= a)%Z -> (a < b)%Z -> (b <= 100000000000)%Z ->
  exists ra rb,
    outbound_from_inbound fee (Int a) = Return ra /\
    outbound_from_inbound fee (Int b) = Return rb /\
    gt rb ra = true.
Proof.
  intros H0 Hab Hb.
  destruct (outbound_close a) as (ra & qa & Ea & Fa & Xa & Ca); [lia|].
  destruct (outbound_close b) as (rb & qb & Eb & Fb & Xb & Cb); [lia|].
  exists ra, rb. split; [exact Ea|]. split; [exact Eb|].
  apply (gt_value rb ra Fb Fa).
  assert (Q1 : inject_Z a + 1 <= inject_Z b).
  { change 1 with (inject_Z 1). rewrite <- inject_Z_plus, <- Zle_Qle. lia. }
  pose proof (exact_outbound_growth exact exact_m_range
                (inject_Z a) (inject_Z b) qa qb) as G.
  apply Qabs_le_iff in Ca, Cb.
  assert (G' : (96 # 100) * (inject_Z b - inject_Z a) <= qb - qa)
    by (apply G; [lra|exact Xa|exact Xb]).
  lra.
Qed.

End Accuracy.

(** *** The margin of the round trip *)

Section Margin.

Variables xm xn : spec_float.
Hypothesis Rm : regular (-53) (-52) xm.
Hypothesis Vm : 98 # 100 <= value xm <= 103 # 100.
Hypothesis Rn : regular (-400) 100 xn.
Hypothesis Vn : -4100 <= value xn <= 4100.

Let fee : FeeStructure := {| m := Float xm; n := Float xn |}.

(** The inverse applied to a double that the forward direction returned,
    within [10^-3] of the amount that was sent forward. *)
Lemma outbound_of_forward_close (fx : spec_float) (x : Z) :
  regular (-452) 102 fx -> (0 <= x <= 100000000000)%Z ->
  Qabs (value fx - (value xm * inject_Z x + value xn)) <= 2 # 10000 ->
  inject_Z x <= value fx ->
  exists inv,
    outbound_from_inbound fee (Float fx) = Return (Float inv) /\
    regular (-557) 157 inv /\
    Qabs (value inv - inject_Z x) <= 1 # 1000.
Proof.
  intros Rf Hx Ef Hge.
  assert (Qx : 0 <= inject_Z x <= 100000000000).
  { change 0 with (inject_Z 0).
    change 100000000000 with (inject_Z 100000000000).
    rewrite <- !Zle_Qle. exact Hx. }
  pose proof Ef as Ef'. apply Qabs_le_iff in Ef'.
  destruct (prod_bound (value xm) (inject_Z x) (103 # 100) 100000000000)
    as [P0 P1]; [lra|lra|].
  assert (X1 : (103 # 100) * 100000000000 <= 103000000000) by discriminate.
  destruct (linear_step xm xn Rm Vm Rn Vn (-452) 102 fx Rf) as [Rg Eg];
    [lia|lia|lra|].
  set (g := SFadd prec emax (SFmul prec emax xm fx) xn) in *.
  unfold outbound_from_inbound. rewrite (f_of_float xm xn). fold g.
  cbn [bind]. unfold gt. cbn [compare].
  rewrite (SFcompare_value _ _ _ _ g fx Rg Rf).
  apply Qabs_le_iff in Eg.
  assert (K : 0 <= (value xm - (98 # 100)) * (value fx - inject_Z x))
    by (apply Qmult_le_0_compat; lra).
  destruct (Qcompare_spec (value g) (value fx)) as [C|C|C].
  - exists fx. split; [reflexivity|].
    split; [eapply regular_weaken; [exact Rf|lia|lia]|].
    apply Qabs_bound. lra.
  - exists fx. split; [reflexivity|].
    split; [eapply regular_weaken; [exact Rf|lia|lia]|].
    apply Qabs_bound. lra.
  - rewrite (inverse_of_float xm xn Rm Vm).
    destruct (inverse_step xm xn Rm Vm Rn fx (inject_Z x) Rf Qx Ef)
      as [Ri Ei].
    eexists. split; [reflexivity|]. split; [exact Ri|exact Ei].
Qed.

(** Forward, then inverse: the amount comes back within [10^-3]. *)
Lemma round_trip_close (x : Z) :
  (0 <= x <= 100000000000)%Z ->
  exists inv,
    (amt_in <- inbound_from_outbound fee (Int x) ;;
     outbound_from_inbound fee amt_in) = Return inv /\
    finite inv /\ Qabs (number_value inv - inject_Z x) <= 1 # 1000.
Proof.
  intro Hx.
  destruct (of_int_spec x) as (X & HX & RX & VX); [lia|].
  assert (Qx : 0 <= inject_Z x <= 100000000000).
  { change 0 with (inject_Z 0).
    change 100000000000 with (inject_Z 100000000000).
    rewrite <- !Zle_Qle. exact Hx. }
  destruct (linear_step xm xn Rm Vm Rn Vn (-52) 1 X RX) as [Rf Ef];
    [lia|lia|rewrite VX; lra|].
  simpl Z.min in Rf. simpl Z.max in Rf. simpl Z.add in Rf. simpl Z.sub in Rf.
  set (fx := SFadd prec emax (SFmul prec emax xm X) xn) in *.
  rewrite VX in Ef.
  unfold inbound_from_outbound.
  change (f fee (Int x)) with (f {| m := Float xm; n := Float xn |} (Int x)).
  rewrite (f_of_int xm xn x X HX). fold fx. cbn [bind].
  unfold max, gt at 1. cbn [compare].
  rewrite (compare_int_float_value _ _ x fx Rf).
  assert (Float_case :
            inject_Z x <= value fx ->
            exists inv,
              outbound_from_inbound fee (Float fx) = Return inv /\
              finite inv /\
              Qabs (number_value inv - inject_Z x) <= 1 # 1000).
  { intro Hge.
    destruct (outbound_of_forward_close fx x Rf Hx Ef Hge)
      as (inv & E & Ri & Vi).
    exists (Float inv). split; [exact E|].
    split; [simpl; eapply regular_weaken; [exact Ri|lia|lia]|exact Vi]. }
  destruct (Qcompare_spec (inject_Z x) (value fx)) as [C|C|C].
  - apply Float_case. lra.
  - apply Float_case. lra.
  - exists (Int x). split.
    + unfold outbound_from_inbound.
      change (f fee (Int x))
        with (f {| m := Float xm; n := Float xn |} (Int x)).
      rewrite (f_of_int xm xn x X HX). fold fx. cbn [bind].
      unfold gt. cbn [compare].
      rewrite (compare_int_float_value _ _ x fx Rf).
      assert (G : (inject_Z x ?= value fx) = Gt) by now apply Qgt_alt.
      now rewrite G.
    + split; [exact I|]. cbn [number_value].
      apply Qabs_bound. lra.
Qed.

End Margin.

End Binary64Error.

(** ** Exceptions on doubles *)

Module Binary64Exceptions.
Import Binary64 Binary64Round.
Local Open Scope Z_scope.

(** *** Conversion of large integers *)

(** [binary_round] of an integer gives a 53-digit mantissa or infinity,
    never a zero or NaN. *)
Lemma binary_round_int (b : bool) (p : positive) :
  let d := Zpos (digits2_pos p) in
  exists (M : positive) (E : Z),
    Zpos (digits2_pos M) = prec /\
    d - prec <= E <= Z.max (d - prec) 0 + 1 /\
    binary_round prec emax b p 0
    = (if E <=? emax - prec then S754_finite b M E else S754_infinity b).
Proof.
  intro d.
  destruct (Z_le_gt_dec d 1023) as [Hle|Hgt].
  - destruct (Binary64Error.binary_round_spec b p 0) as (m & e & -> & R & _);
      [lia|fold d; lia|].
    fold d in R. destruct R as [Dm He].
    exists m, e. split; [exact Dm|]. split; [unfold prec; lia|].
    assert (L : (e <=? emax - prec) = true)
      by (apply Z.leb_le; unfold emax, prec; lia).
    now rewrite L.
  - unfold binary_round.
    rewrite fexp_normal by (fold d; lia). fold d.
    rewrite Binary64Error.shl_align_keep by (fold d; lia).
    destruct (binary_round_aux_large b p 0 loc_Exact) as (M & E & -> & D & B);
      [fold d; unfold prec; lia|lia|].
    fold d in B. exists M, E. split; [exact D|].
    split; [unfold prec in *; lia|reflexivity].
Qed.

(** [float(z)] is a zero for [z = 0] only. *)
Lemma of_int_zero (z : Z) (s : bool) :
  of_int z = Return (S754_zero s) -> z = 0.
Proof.
  unfold of_int.
  destruct z as [|p|p]; [reflexivity| |]; simpl binary_normalize.
  - destruct (binary_round_int false p) as (M & E & _ & _ & ->).
    destruct (E <=? emax - prec); discriminate.
  - destruct (binary_round_int true p) as (M & E & _ & _ & ->).
    destruct (E <=? emax - prec); discriminate.
Qed.

(** [float(z)] raises for an integer of more than 1024 bits. *)
Lemma of_int_overflow (z : Z) :
  2 ^ 1024 <= Z.abs z -> of_int z = Raise OverflowError.
Proof.
  intro H. unfold of_int.
  assert (G : forall p : positive, 2 ^ 1024 <= Zpos p ->
              1025 <= Zpos (digits2_pos p)).
  { intros p Hp. pose proof (digits2_pos_bounds p) as [_ Bu].
    destruct (Z_lt_le_dec (Zpos (digits2_pos p)) 1025) as [C|C]; [|exact C].
    assert (2 ^ Zpos (digits2_pos p) <= 2 ^ 1024)
      by (apply Z.pow_le_mono_r; lia).
    lia. }
  destruct z as [|p|p]; simpl binary_normalize.
  - simpl in H. lia.
  - destruct (binary_round_int false p) as (M & E & _ & B & ->).
    specialize (G p H).
    assert (L : (E <=? emax - prec) = false)
      by (apply Z.leb_gt; unfold emax, prec in *; lia).
    now rewrite L.
  - destruct (binary_round_int true p) as (M & E & _ & B & ->).
    specialize (G p H).
    assert (L : (E <=? emax - prec) = false)
      by (apply Z.leb_gt; unfold emax, prec in *; lia).
    now rewrite L.
Qed.

(** *** Where [ZeroDivisionError] cannot come from *)

Lemma bind_no_zde (A B : Type) (r : result A) (k : A -> result B) :
  r <> Raise ZeroDivisionError ->
  (forall a, k a <> Raise ZeroDivisionError) ->
  bind r k <> Raise ZeroDivisionError.
Proof.
  intros Hr Hk. destruct r as [a|e]; simpl; [apply Hk|].
  intro H. apply Hr. congruence.
Qed.

Lemma of_int_no_zde (z : Z) : of_int z <> Raise ZeroDivisionError.
Proof.
  unfold of_int. destruct (binary_normalize prec emax z 0 false); discriminate.
Qed.

Lemma to_float_no_zde (a : number) : to_float a <> Raise ZeroDivisionError.
Proof.
  destruct a; simpl; [apply of_int_no_zde|discriminate].
Qed.

Lemma arith_no_zde (on_int : Z -> Z -> result number)
    (on_float : spec_float -> spec_float -> result number) (a b : number) :
  (forall x y, on_int x y <> Raise ZeroDivisionError) ->
  (forall x y, on_float x y <> Raise ZeroDivisionError) ->
  arith on_int on_float a b <> Raise ZeroDivisionError.
Proof.
  intros Hi Hf.
  assert (G : (x <- to_float a ;; y <- to_float b ;; on_float x y)
              <> Raise ZeroDivisionError).
  { apply bind_no_zde; [apply to_float_no_zde|]. intro x.
    apply bind_no_zde; [apply to_float_no_zde|]. intro y. apply Hf. }
  destruct a as [x|x], b as [y|y]; simpl arith; try exact G. apply Hi.
Qed.

Lemma add_no_zde (a b : number) : add a b <> Raise ZeroDivisionError.
Proof. apply arith_no_zde; discriminate. Qed.

Lemma sub_no_zde (a b : number) : sub a b <> Raise ZeroDivisionError.
Proof. apply arith_no_zde; discriminate. Qed.

Lemma mul_no_zde (a b : number) : mul a b <> Raise ZeroDivisionError.
Proof. apply arith_no_zde; discriminate. Qed.

Lemma op2_no_zde (op : number -> number -> result number)
    (a b : result number) :
  (forall x y, op x y <> Raise ZeroDivisionError) ->
  a <> Raise ZeroDivisionError -> b <> Raise ZeroDivisionError ->
  op2 op a b <> Raise ZeroDivisionError.
Proof.
  intros Ho Ha Hb. unfold op2.
  apply bind_no_zde; [exact Ha|]. intro x.
  apply bind_no_zde; [exact Hb|]. intro y. apply Ho.
Qed.

Lemma pure_no_zde (a : number) : pure a <> Raise ZeroDivisionError.
Proof. discriminate. Qed.

Lemma int_truediv_no_zde (x y : Z) :
  y <> 0 -> int_truediv x y <> Raise ZeroDivisionError.
Proof.
  intro Hy. unfold int_truediv.
  destruct x, y; try discriminate; try (now elim Hy);
    destruct (SFdiv _ _ _ _); discriminate.
Qed.

(** A division by the literal [UNIT_M]. *)
Lemma truediv_UNIT_M_no_zde (a : number) :
  truediv a (Int UNIT_M) <> Raise ZeroDivisionError.
Proof.
  destruct a as [x|x].
  - unfold truediv, arith.
    apply bind_no_zde; [|discriminate].
    apply int_truediv_no_zde. discriminate.
  - unfold truediv, arith, to_float. cbn [bind].
    replace (of_int UNIT_M)
      with (Return (S754_finite false 8589934592000000 (-33)))
      by (vm_compute; reflexivity).
    discriminate.
Qed.

Lemma f_no_zde (self : FeeStructure) (x : number) :
  f self x <> Raise ZeroDivisionError.
Proof.
  unfold f.
  apply op2_no_zde; [apply add_no_zde| |apply pure_no_zde].
  apply op2_no_zde; [apply mul_no_zde|apply pure_no_zde|apply pure_no_zde].
Qed.

End Binary64Exceptions.

(** ** Inputs of moderate size *)

(** Construction for parameters below [2^53] and both directions for an
    amount of moderate size: no operation overflows, and the rounding error
    of each result is bounded relative to its size. *)

Module Binary64Moderate.
Import Binary64 Binary64Value Binary64Round Binary64Error.
Local Open Scope Q_scope.

(** *** Construction *)

Lemma Qabs_both (a : Q) : 0 <= Qabs a /\ - Qabs a <= a <= Qabs a.
Proof.
  split; [apply Qabs_nonneg|]. apply Qabs_le_iff. apply Qle_refl.
Qed.

(** Construction on doubles for parameters below [2^53], operation by
    operation: six roundings lie between the parameters and [m], four
    between the parameters and [n]. *)
Lemma init_error (fee_rate_out base_out fee_rate_in base_in : Z) :
  (Z.abs fee_rate_out < 2 ^ 53)%Z -> (Z.abs base_out < 2 ^ 53)%Z ->
  (Z.abs fee_rate_in < 2 ^ 53)%Z -> (Z.abs base_in < 2 ^ 53)%Z ->
  exists xm xn,
    __init__ fee_rate_out base_out fee_rate_in base_in
    = Return {| m := Float xm; n := Float xn |} /\
    regular (-248) 43 xm /\ regular (-176) 60 xn /\
    Qabs (value xm
          - (1 + inject_Z fee_rate_out * (1 # 1000000)
                 * (1 + inject_Z fee_rate_in * (1 # 1000000))
             + inject_Z fee_rate_in * (1 # 1000000)))
    <= (1 # 281474976710656)
       * ((1 + Qabs (inject_Z fee_rate_out * (1 # 1000000)))
          * (1 + Qabs (inject_Z fee_rate_in * (1 # 1000000)))) /\
    Qabs (value xn
          - (inject_Z base_out
             * (1 + inject_Z fee_rate_in * (1 # 1000000))
             + inject_Z base_in))
    <= (1 # 562949953421312)
       * (Qabs (inject_Z base_out)
          * (1 + Qabs (inject_Z fee_rate_in * (1 # 1000000)))
          + Qabs (inject_Z base_in)).
Proof.
  intros Ho Hbo Hi Hbi.
  destruct (int_truediv_spec fee_rate_out Ho) as (a & Ha & Ra & Ea).
  destruct (int_truediv_spec fee_rate_in Hi) as (b & Hb & Rb & Eb).
  rewrite ppm_fraction in Ea, Eb.
  destruct (of_int_spec 1) as (X1 & H1 & R1 & V1); [simpl; lia|].
  destruct (of_int_spec base_out Hbo) as (Xo & H2 & R2 & V2).
  destruct (of_int_spec base_in Hbi) as (Xi & H3 & R3 & V3).
  change (inject_Z 1) with 1 in V1.
  set (ta := inject_Z fee_rate_out * (1 # 1000000)) in *.
  set (tb := inject_Z fee_rate_in * (1 # 1000000)) in *.
  set (bo := inject_Z base_out) in *.
  set (bi := inject_Z base_in) in *.
  clearbody ta tb bo bi.
  destruct (Qabs_both ta) as [A0 A1].
  destruct (Qabs_both tb) as [B0 B1].
  destruct (Qabs_both bo) as [G0 G1].
  destruct (Qabs_both bi) as [I0 I1].
  set (al := Qabs ta) in *. set (be := Qabs tb) in *.
  set (ga := Qabs bo) in *. set (io := Qabs bi) in *.
  clearbody al be ga io.
  assert (AB : 0 <= al * be) by (apply Qmult_le_0_compat; assumption).
  assert (GB : 0 <= ga * be) by (apply Qmult_le_0_compat; assumption).
  apply Qabs_le_iff in Ea, Eb. unfold u51 in Ea, Eb.
  (* c = 1 + fee_rate_in / UNIT_M *)
  destruct (SFadd_spec (-72) 1 X1 b) as [Rc Ec];
    [eapply regular_weaken; [exact R1|lia|lia]
    |eapply regular_weaken; [exact Rb|lia|lia]|lia|lia|].
  set (c := SFadd prec emax X1 b) in *.
  rewrite V1 in Ec.
  assert (Tc : Qabs (1 + value b) <= 1 + 2 * be) by (apply Qabs_bound; lra).
  apply Qabs_le_iff in Ec. unfold u52 in Ec.
  assert (Kc : Qabs (value c - (1 + tb))
               <= (4 # 4503599627370496) * (1 + be))
    by (apply Qabs_bound; lra).
  assert (Cc : Qabs (value c) <= 2 * (1 + be)) by (apply Qabs_bound; lra).
  assert (Ca : Qabs (value a) <= 2 * al) by (apply Qabs_bound; lra).
  assert (Da : Qabs (value a - ta) <= (2 # 4503599627370496) * al)
    by (apply Qabs_bound; lra).
  assert (Aa : Qabs ta <= al) by (apply Qabs_bound; lra).
  assert (Ao : Qabs bo <= ga) by (apply Qabs_bound; lra).
  (* d = fee_rate_out / UNIT_M * c *)
  destruct (SFmul_spec (-72) (-18) (-124) 3 a c Ra Rc) as [Rd Ed]; [lia|lia|].
  set (d := SFmul prec emax a c) in *.
  pose proof (Qabs_prod_bound _ _ _ _ Ca Cc) as P1.
  pose proof (Qabs_prod_bound _ _ _ _ Da Cc) as P2.
  pose proof (Qabs_prod_bound _ _ _ _ Aa Kc) as P3.
  assert (Cb : Qabs (1 + tb) <= 1 + be) by (apply Qabs_bound; lra).
  pose proof (Qabs_prod_bound _ _ _ _ Aa Cb) as P6.
  assert (Td : Qabs (value a * value c) <= 4 * (al + al * be))
    by (apply Qabs_bound; lra).
  apply Qabs_le_iff in Ed. unfold u52 in Ed.
  (* e = 1 + d *)
  destruct (SFadd_spec (-144) 39 X1 d) as [Re Ee];
    [eapply regular_weaken; [exact R1|lia|lia]
    |eapply regular_weaken; [exact Rd|lia|lia]|lia|lia|].
  set (e := SFadd prec emax X1 d) in *.
  rewrite V1 in Ee.
  assert (Te : Qabs (1 + value d) <= 1 + 2 * (al + al * be))
    by (apply Qabs_bound; lra).
  apply Qabs_le_iff in Ee. unfold u52 in Ee.
  (* m = e + fee_rate_in / UNIT_M *)
  destruct (SFadd_spec (-196) 41 e b) as [Rm Em];
    [exact Re|eapply regular_weaken; [exact Rb|lia|lia]|lia|lia|].
  set (xm := SFadd prec emax e b) in *.
  assert (Tm : Qabs (value e + value b)
               <= 2 + 2 * (al + al * be) + 2 * be)
    by (apply Qabs_bound; lra).
  apply Qabs_le_iff in Em. unfold u52 in Em.
  (* n = base_out * c + base_in *)
  destruct (SFmul_spec (-52) 1 (-124) 3 Xo c R2 Rc) as [Rh Eh]; [lia|lia|].
  set (h := SFmul prec emax Xo c) in *.
  rewrite V2 in Eh.
  pose proof (Qabs_prod_bound _ _ _ _ Ao Cc) as P4.
  pose proof (Qabs_prod_bound _ _ _ _ Ao Kc) as P5.
  pose proof (Qabs_prod_bound _ _ _ _ Ao Cb) as P7.
  assert (Th : Qabs (bo * value c) <= 2 * (ga + ga * be))
    by (apply Qabs_bound; lra).
  apply Qabs_le_iff in Eh. unfold u52 in Eh.
  destruct (SFadd_spec (-124) 58 h Xi) as [Rn En];
    [exact Rh|eapply regular_weaken; [exact R3|lia|lia]|lia|lia|].
  set (xn := SFadd prec emax h Xi) in *.
  rewrite V3 in En.
  assert (Tn : Qabs (value h + bi) <= 2 * (ga + ga * be) + io)
    by (apply Qabs_bound; lra).
  apply Qabs_le_iff in En. unfold u52 in En.
  exists xm, xn.
  split.
  - unfold __init__, op2, pure. cbn [bind].
    rewrite (truediv_int _ _ a Ha). cbn [bind].
    rewrite (truediv_int _ _ b Hb). cbn [bind].
    rewrite (add_int_float 1 X1 b H1). fold c. cbn [bind].
    rewrite mul_float_float. fold d. cbn [bind].
    rewrite (add_int_float 1 X1 d H1). fold e. cbn [bind].
    rewrite add_float_float. fold xm. cbn [bind].
    rewrite (mul_int_float base_out Xo c H2). fold h. cbn [bind].
    rewrite (add_float_int base_in Xi h H3). fold xn. cbn [bind].
    reflexivity.
  - split; [exact Rm|]. split; [exact Rn|].
    split; apply Qabs_bound; lra.
Qed.

(** *** Amounts of moderate size *)

Lemma to_float_moderate (a : number) :
  moderate a ->
  exists X,
    to_float a = Return X /\ regular (-350) 300 X /\
    value X == number_value a.
Proof.
  destruct a as [z|x]; simpl moderate; intro H.
  - destruct (of_int_spec z H) as (X & HX & RX & VX).
    exists X. split; [exact HX|].
    split; [eapply regular_weaken; [exact RX|lia|lia]|exact VX].
  - exists x. split; [reflexivity|]. split; [exact H|reflexivity].
Qed.

Lemma moderate_finite (a : number) : moderate a -> finite a.
Proof.
  destruct a as [z|x]; simpl; intro H; [exact I|].
  eapply regular_weaken; [exact H|lia|lia].
Qed.

(** *** The expressions of the two directions, operation by operation *)

Lemma f_of_number (xm xn : spec_float) (a : number) (X : spec_float) :
  to_float a = Return X ->
  f {| m := Float xm; n := Float xn |} a
  = Return (Float (SFadd prec emax (SFmul prec emax xm X) xn)).
Proof.
  intro H. unfold f, op2, pure. cbn [bind m n].
  destruct a as [z|x]; unfold mul, arith.
  - cbn [to_float bind] in *. rewrite H. reflexivity.
  - cbn [to_float bind] in *. injection H as <-. reflexivity.
Qed.

Lemma inverse_of_number (xm xn : spec_float) (a : number) (X : spec_float) :
  to_float a = Return X ->
  ((a - n {| m := Float xm; n := Float xn |})
   / m {| m := Float xm; n := Float xn |})%py
  = if is_zero xm then Raise ZeroDivisionError
    else Return (Float (SFdiv prec emax (SFsub prec emax X xn) xm)).
Proof.
  intro H. unfold op2, pure. cbn [bind m n].
  destruct a as [z|x]; unfold sub, arith.
  - cbn [to_float bind] in *. rewrite H. cbn [bind]. reflexivity.
  - cbn [to_float bind] in *. injection H as <-. reflexivity.
Qed.

Section Rounded.

(** Coefficients as construction gives them for parameters below [2^53]. *)
Variables xm xn : spec_float.
Hypothesis Rm : regular (-248) 43 xm.
Hypothesis Rn : regular (-176) 60 xn.

Let fee : FeeStructure := {| m := Float xm; n := Float xn |}.

(** [f] rounds twice: the product and the sum. *)
Lemma f_rounded (a : number) :
  moderate a ->
  exists fx,
    f fee a = Return (Float fx) /\ regular (-598) 399 fx /\
    Qabs (value fx - (value xm * number_value a + value xn))
    <= (1 # 1125899906842624)
       * (Qabs (value xm * number_value a) + Qabs (value xn)).
Proof.
  intro Ha.
  destruct (to_float_moderate a Ha) as (X & HX & RX & VX).
  destruct (SFmul_spec (-248) 43 (-350) 300 xm X Rm RX) as [Rp Ep];
    [lia|lia|].
  set (p := SFmul prec emax xm X) in *.
  destruct (SFadd_spec (-546) 397 p xn) as [Rf Ef];
    [exact Rp|eapply regular_weaken; [exact Rn|lia|lia]|lia|lia|].
  set (fx := SFadd prec emax p xn) in *.
  exists fx. split; [exact (f_of_number xm xn a X HX)|].
  split; [exact Rf|].
  rewrite VX in Ep.
  destruct (Qabs_both (value xm * number_value a)) as [T0 T1].
  destruct (Qabs_both (value xn)) as [N0 N1].
  apply Qabs_le_iff in Ep. unfold u52 in Ep.
  assert (S : Qabs (value p + value xn)
              <= (1 + (1 # 4503599627370496))
                 * Qabs (value xm * number_value a) + Qabs (value xn))
    by (apply Qabs_bound; lra).
  apply Qabs_le_iff in Ef. unfold u52 in Ef.
  apply Qabs_bound. lra.
Qed.

(** The quotient of the inverse rounds twice: the difference and the
    quotient. *)
Lemma inverse_rounded (lo hi : Z) (X : spec_float) :
  is_zero xm = false -> regular lo hi X ->
  (-350 <= lo)%Z -> (lo <= -176)%Z -> (60 <= hi)%Z -> (hi <= 300)%Z ->
  regular (lo - 148) (hi + 199)
    (SFdiv prec emax (SFsub prec emax X xn) xm) /\
  Qabs (value (SFdiv prec emax (SFsub prec emax X xn) xm)
        - (value X - value xn) / value xm)
  <= (1 # 1125899906842624) * Qabs ((value X - value xn) / value xm).
Proof.
  intros Z RX L1 L2 L3 L4.
  destruct (SFsub_spec lo hi X xn) as [Rw Ew];
    [exact RX|eapply regular_weaken; [exact Rn|lia|lia]|lia|lia|].
  set (w := SFsub prec emax X xn) in *.
  destruct (SFdiv_spec (lo - 52) (hi + 2) (-248) 43 w xm Rw Rm Z)
    as [Rv Ev]; [lia|lia|].
  set (v := SFdiv prec emax w xm) in *.
  split; [eapply regular_weaken; [exact Rv|lia|lia]|].
  set (t := value X - value xn) in *.
  unfold Qdiv in *. set (i := / value xm) in *.
  assert (D : Qabs ((value w - t) * i) <= u52 * Qabs (t * i)).
  { rewrite !Qabs_Qmult, Qmult_assoc.
    apply Qmult_le_compat_r; [exact Ew|apply Qabs_nonneg]. }
  destruct (Qabs_both (t * i)) as [Q0 Q1].
  apply Qabs_le_iff in D. unfold u52 in D.
  assert (S : Qabs (value w * i)
              <= (1 + (1 # 4503599627370496)) * Qabs (t * i))
    by (apply Qabs_bound; lra).
  apply Qabs_le_iff in Ev. unfold u51 in Ev.
  apply Qabs_bound. lra.
Qed.

(** The forward direction: the larger of the rounded [f] and the amount. *)
Lemma inbound_rounded (a : number) :
  moderate a ->
  exists fx r,
    f fee a = Return (Float fx) /\
    inbound_from_outbound fee a = Return r /\
    finite (Float fx) /\ finite r /\
    Qabs (value fx - (value xm * number_value a + value xn))
    <= (1 # 1125899906842624)
       * (Qabs (value xm * number_value a) + Qabs (value xn)) /\
    number_value r == Qmax (value fx) (number_value a) /\
    ge r a = true.
Proof.
  intro Ha.
  destruct (f_rounded a Ha) as (fx & Hf & Rf & Ef).
  assert (Ff : finite (Float fx))
    by (simpl; eapply regular_weaken; [exact Rf|lia|lia]).
  pose proof (moderate_finite a Ha) as Fa.
  exists fx, (max (Float fx) a).
  split; [exact Hf|].
  split; [unfold inbound_from_outbound; rewrite Hf; reflexivity|].
  split; [exact Ff|].
  assert (Fr : finite (max (Float fx) a))
    by (unfold max; destruct (gt a (Float fx)); assumption).
  split; [exact Fr|].
  split; [exact Ef|].
  split.
  - unfold max. pose proof (gt_value a (Float fx) Fa Ff) as G.
    destruct (gt a (Float fx)).
    + assert (L : number_value (Float fx) < number_value a)
        by now apply G.
      cbn [number_value] in L. rewrite Q.max_r; [reflexivity|lra].
    + cbn [number_value].
      destruct (Qlt_le_dec (value fx) (number_value a)) as [L|L].
      * apply G in L. discriminate.
      * rewrite Q.max_l; [reflexivity|exact L].
  - apply Binary64Facts.max_ge_second_on_doubles.
    rewrite (compare_value _ _ Fr Fa). discriminate.
Qed.

(** The inverse: which branch is taken is decided by the rounded [f]. *)
Lemma outbound_rounded (a : number) :
  moderate a ->
  exists fx,
    f fee a = Return (Float fx) /\ finite (Float fx) /\
    Qabs (value fx - (value xm * number_value a + value xn))
    <= (1 # 1125899906842624)
       * (Qabs (value xm * number_value a) + Qabs (value xn)) /\
    (number_value a < value fx ->
       (is_zero xm = true ->
          outbound_from_inbound fee a = Raise ZeroDivisionError) /\
       (is_zero xm = false ->
          exists v,
            outbound_from_inbound fee a = Return (Float v) /\
            finite (Float v) /\
            Qabs (value v - (number_value a - value xn) / value xm)
            <= (1 # 1125899906842624)
               * Qabs ((number_value a - value xn) / value xm))) /\
    (value fx <= number_value a ->
       outbound_from_inbound fee a = Return a).
Proof.
  intro Ha.
  destruct (f_rounded a Ha) as (fx & Hf & Rf & Ef).
  assert (Ff : finite (Float fx))
    by (simpl; eapply regular_weaken; [exact Rf|lia|lia]).
  pose proof (moderate_finite a Ha) as Fa.
  pose proof (gt_value (Float fx) a Ff Fa) as G. cbn [number_value] in G.
  exists fx. split; [exact Hf|]. split; [exact Ff|]. split; [exact Ef|].
  destruct (to_float_moderate a Ha) as (X & HX & RX & VX).
  split.
  - intro L. apply G in L.
    unfold outbound_from_inbound. rewrite Hf. cbn [bind]. rewrite L.
    unfold fee. rewrite (inverse_of_number xm xn a X HX).
    split; intro Z; rewrite Z; [reflexivity|].
    destruct (inverse_rounded (-350) 300 X Z RX) as [Rv Ev];
      [lia|lia|lia|lia|].
    eexists. split; [reflexivity|].
    split; [simpl; eapply regular_weaken; [exact Rv|lia|lia]|].
    rewrite VX in Ev. exact Ev.
  - intro L.
    unfold outbound_from_inbound. rewrite Hf. cbn [bind].
    destruct (gt (Float fx) a); [|reflexivity].
    pose proof (proj1 G eq_refl). lra.
Qed.

End Rounded.

(** *** A multiplier near one *)

Lemma positive_not_zero (x : spec_float) : 0 < value x -> is_zero x = false.
Proof.
  destruct x; try reflexivity. simpl. intro H. lra.
Qed.

Section NearOne.

(** Coefficients as construction gives them for parameters inside the
    ranges of the test. *)
Variables xm xn : spec_float.
Hypothesis Rm : regular (-248) 43 xm.
Hypothesis Rn : regular (-176) 60 xn.
Hypothesis Vm : 98 # 100 <= value xm <= 103 # 100.
Hypothesis Vn : -4100 <= value xn <= 4100.

Let fee : FeeStructure := {| m := Float xm; n := Float xn |}.

(** The inverse of a non-negative [int] is negative exactly below the
    offset. *)
Lemma outbound_sign (y : Z) :
  (0 <= y < 2 ^ 53)%Z ->
  exists r,
    outbound_from_inbound fee (Int y) = Return r /\ finite r /\
    (number_value r < 0 <-> inject_Z y < value xn).
Proof.
  intro Hy.
  assert (Ha : moderate (Int y)) by (simpl; lia).
  assert (Y0 : 0 <= inject_Z y)
    by (change 0 with (inject_Z 0); rewrite <- Zle_Qle; lia).
  destruct (outbound_rounded xm xn Rm Rn (Int y) Ha)
    as (fx & Hf & Ff & Ef & Lin & Idn).
  cbn [number_value] in *.
  destruct (prod_bound (value xm) (inject_Z y) (103 # 100) (inject_Z y))
    as [P0 _]; [lra|lra|].
  assert (P1 : 0 <= (value xm - (98 # 100)) * inject_Z y)
    by (apply Qmult_le_0_compat; lra).
  destruct (Qlt_le_dec (inject_Z y) (value fx)) as [L|L].
  - assert (Z : is_zero xm = false) by (apply positive_not_zero; lra).
    destruct (proj2 (Lin L) Z) as (v & Hv & Fv & Ev).
    exists (Float v). split; [exact Hv|]. split; [exact Fv|].
    cbn [number_value].
    set (q := (inject_Z y - value xn) / value xm) in *.
    assert (Eq : q * value xm == inject_Z y - value xn)
      by (unfold q; field; lra).
    destruct (Qabs_both q) as [Q0 Q1].
    apply Qabs_le_iff in Ev.
    split; intro H.
    + destruct (Qlt_le_dec (inject_Z y) (value xn)) as [K|K]; [exact K|].
      exfalso.
      assert (0 <= q).
      { destruct (Qlt_le_dec q 0) as [S|S]; [|exact S].
        assert (0 < (- q) * value xm) by (apply Qmult_lt_0_compat; lra).
        lra. }
      rewrite (Qabs_pos q) in Ev by assumption. lra.
    + assert (S : q < 0).
      { destruct (Qlt_le_dec q 0) as [S|S]; [exact S|].
        assert (0 <= q * value xm) by (apply Qmult_le_0_compat; lra).
        lra. }
      rewrite (Qabs_neg q) in Ev by lra. lra.
  - exists (Int y). split; [exact (Idn L)|]. split; [exact I|].
    cbn [number_value].
    split; intro H; [lra|]. exfalso.
    rewrite (Qabs_pos (value xm * inject_Z y)) in Ef by exact P0.
    rewrite (Qabs_pos (value xn)) in Ef by lra.
    apply Qabs_le_iff in Ef. lra.
Qed.


(** Inverse, then forward: the inbound amount comes back within
    [10^-3]. *)
Lemma inbound_of_outbound_close (y : Z) :
  (0 <= y <= 100000000000)%Z ->
  exists r,
    (x <- outbound_from_inbound fee (Int y) ;;
     inbound_from_outbound fee x) = Return r /\
    finite r /\ Qabs (number_value r - inject_Z y) <= 1 # 1000.
Proof.
  intro Hy.
  assert (Ha : moderate (Int y)) by (simpl; lia).
  assert (Qy : 0 <= inject_Z y <= 100000000000).
  { change 0 with (inject_Z 0).
    change 100000000000 with (inject_Z 100000000000).
    rewrite <- !Zle_Qle. exact Hy. }
  destruct (of_int_spec y) as (Y & HY & RY & VY); [lia|].
  pose proof (f_of_number xm xn (Int y) Y HY) as Hf0.
  destruct (f_rounded xm xn Rm Rn (Int y) Ha) as (fx & Hf & Rf & Ef).
  fold fee in Hf0, Hf.
  assert (Ff : finite (Float fx))
    by (simpl; eapply regular_weaken; [exact Rf|lia|lia]).
  cbn [number_value] in Ef.
  destruct (prod_bound (value xm) (inject_Z y) (103 # 100) 100000000000)
    as [P0 P1]; [lra|lra|].
  assert (X1 : (103 # 100) * 100000000000 <= 103000000000) by discriminate.
  assert (Tf : Qabs (value xm * inject_Z y) + Qabs (value xn)
               <= 103000004100).
  { rewrite (Qabs_pos (value xm * inject_Z y)) by exact P0.
    assert (Qabs (value xn) <= 4100) by (apply Qabs_bound; lra). lra. }
  assert (Ef' : Qabs (value fx - (value xm * inject_Z y + value xn))
                <= 1 # 10000).
  { eapply Qle_trans; [exact Ef|].
    eapply Qle_trans;
      [apply Qmult_le_l; [reflexivity|exact Tf]|discriminate]. }
  apply Qabs_le_iff in Ef'.
  pose proof (gt_value (Float fx) (Int y) Ff I) as G.
  cbn [number_value] in G.
  unfold outbound_from_inbound at 1. rewrite Hf. cbn [bind].
  destruct (gt (Float fx) (Int y)) eqn:C.
  - (* the linear branch *)
    assert (L : inject_Z y < value fx) by (apply G; reflexivity).
    unfold fee at 1 2.
    rewrite (inverse_of_number xm xn (Int y) Y HY).
    assert (Z : is_zero xm = false) by (apply positive_not_zero; lra).
    rewrite Z.
    destruct (inverse_rounded xm xn Rm Rn (-176) 60 Y Z) as [Rv Ev];
      [eapply regular_weaken; [exact RY|lia|lia]|lia|lia|lia|lia|].
    set (v := SFdiv prec emax (SFsub prec emax Y xn) xm) in *.
    rewrite VY in Ev.
    cbn [bind].
    assert (Hv : moderate (Float v))
      by (simpl; eapply regular_weaken; [exact Rv|lia|lia]).
    destruct (inbound_rounded xm xn Rm Rn (Float v) Hv)
      as (gx & r & Hg & Hr & Fg & Fr & Eg & Vr & _).
    exists r. split; [exact Hr|]. split; [exact Fr|].
    cbn [number_value] in *.
    set (q := (inject_Z y - value xn) / value xm) in *.
    assert (Eq : q * value xm == inject_Z y - value xn)
      by (unfold q; field; lra).
    (* the size of the quotient *)
    assert (Bq : Qabs q <= 103000000000).
    { apply Qabs_bound. split.
      - destruct (Qlt_le_dec q (- (103000000000))) as [S|S]; [|lra].
        assert (0 <= (value xm - (98 # 100)) * (- q - 4200))
          by (apply Qmult_le_0_compat; lra).
        lra.
      - destruct (Qlt_le_dec 103000000000 q) as [S|S]; [|lra].
        assert (0 <= (value xm - (98 # 100)) * (q - 4200))
          by (apply Qmult_le_0_compat; lra).
        lra. }
    assert (Ev' : Qabs (value v - q) <= 1 # 10000).
    { eapply Qle_trans; [exact Ev|].
      eapply Qle_trans;
        [apply Qmult_le_l; [reflexivity|exact Bq]|discriminate]. }
    apply Qabs_le_iff in Ev', Bq.
    (* the quotient is below the amount, up to rounding *)
    assert (Uq : q <= inject_Z y + (2 # 10000)).
    { destruct (Qlt_le_dec (inject_Z y + (2 # 10000)) q) as [S|S]; [|lra].
      assert (0 <= (value xm - (98 # 100)) * (q - inject_Z y))
        by (apply Qmult_le_0_compat; lra).
      lra. }
    (* the forward direction at the quotient *)
    destruct (Qabs_prod_bound (value xm) (value v - q)
                (103 # 100) (1 # 10000)) as [M0 M1];
      [apply Qabs_bound; lra|apply Qabs_bound; lra|].
    destruct (Qabs_prod_bound (value xm) (value v)
                (103 # 100) 103000000001) as [V0 V1];
      [apply Qabs_bound; lra|apply Qabs_bound; lra|].
    assert (Tg : Qabs (value xm * value v) + Qabs (value xn)
                 <= 107000000000).
    { assert (Qabs (value xm * value v) <= (103 # 100) * 103000000001)
        by (apply Qabs_bound; lra).
      assert (Qabs (value xn) <= 4100) by (apply Qabs_bound; lra).
      assert ((103 # 100) * 103000000001 + 4100 <= 107000000000)
        by discriminate.
      lra. }
    assert (Eg' : Qabs (value gx - (value xm * value v + value xn))
                  <= 1 # 10000).
    { eapply Qle_trans; [exact Eg|].
      eapply Qle_trans;
        [apply Qmult_le_l; [reflexivity|exact Tg]|discriminate]. }
    apply Qabs_le_iff in Eg'.
    assert (X2 : (103 # 100) * (1 # 10000) <= 2 # 10000) by discriminate.
    rewrite Vr. apply Qabs_bound.
    destruct (Q.max_spec (value gx) (value v)) as [[O ->]|[O ->]]; lra.
  - (* the identity branch *)
    assert (L : value fx <= inject_Z y).
    { destruct (Qlt_le_dec (inject_Z y) (value fx)) as [S|S]; [|exact S].
      apply G in S. discriminate. }
    cbn [bind].
    destruct (inbound_rounded xm xn Rm Rn (Int y) Ha)
      as (gx & r & Hg & Hr & _ & Fr & _ & Vr & _).
    fold fee in Hg, Hr.
    rewrite Hf in Hg. injection Hg as <-.
    exists r. split; [exact Hr|]. split; [exact Fr|].
    cbn [number_value] in Vr. rewrite Vr, Q.max_r by exact L.
    apply Qabs_bound. lra.
Qed.

End NearOne.

(** *** A zero multiplier *)

(** With a zero multiplier [f] is the offset, whatever the amount. *)
Lemma f_zero_m (xm xn X : spec_float) :
  is_zero xm = true -> regular (-1074) 971 xn -> regular (-350) 300 X ->
  regular (-1074) 971 (SFadd prec emax (SFmul prec emax xm X) xn) /\
  value (SFadd prec emax (SFmul prec emax xm X) xn) == value xn.
Proof.
  intros Z Rn RX.
  destruct xm as [sm|sm| |sm mm em]; try discriminate.
  destruct X as [sx|sx| |sx mx ex]; simpl in RX; try contradiction;
    destruct xn as [sn|sn| |sn mn en]; simpl in Rn; try contradiction;
    cbn [SFmul SFadd]; split;
    solve [exact I | exact Rn | reflexivity
          | destruct (xorb sm sx), sn; exact I
          | destruct (xorb sm sx), sn; reflexivity ].
Qed.

Lemma outbound_zero_m (xm xn : spec_float) (a : number) :
  is_zero xm = true -> regular (-1074) 971 xn -> moderate a ->
  (number_value a < value xn ->
     outbound_from_inbound {| m := Float xm; n := Float xn |} a
     = Raise ZeroDivisionError) /\
  (value xn <= number_value a ->
     outbound_from_inbound {| m := Float xm; n := Float xn |} a
     = Return a).
Proof.
  intros Z Rn Ha.
  destruct (to_float_moderate a Ha) as (X & HX & RX & VX).
  destruct (f_zero_m xm xn X Z Rn RX) as [Rf Vf].
  pose proof (moderate_finite a Ha) as Fa.
  set (fx := SFadd prec emax (SFmul prec emax xm X) xn) in *.
  pose proof (gt_value (Float fx) a Rf Fa) as G. cbn [number_value] in G.
  rewrite Vf in G.
  unfold outbound_from_inbound. rewrite (f_of_number xm xn a X HX).
  fold fx. cbn [bind].
  split; intro L.
  - apply G in L. rewrite L.
    rewrite (inverse_of_number xm xn a X HX). now rewrite Z.
  - destruct (gt (Float fx) a); [|reflexivity].
    pose proof (proj1 G eq_refl). lra.
Qed.

(** A [fee_rate_in] of [-UNIT_M] is stored as the multiplier [0.0], whatever
    the other parameters; the offset is then [base_in]. *)
Lemma init_zero_m (fee_rate_out base_out base_in : Z) :
  (Z.abs fee_rate_out < 2 ^ 53)%Z -> (Z.abs base_out < 2 ^ 53)%Z ->
  (Z.abs base_in < 2 ^ 53)%Z ->
  exists xn,
    __init__ fee_rate_out base_out (- UNIT_M) base_in
    = Return {| m := Float (S754_zero false); n := Float xn |} /\
    regular (-1074) 971 xn /\ value xn == inject_Z base_in.
Proof.
  intros Ho Hbo Hbi.
  destruct (int_truediv_spec fee_rate_out Ho) as (a & Ha & Ra & _).
  destruct (of_int_spec base_out Hbo) as (Xo & H2 & R2 & _).
  destruct (of_int_spec base_in Hbi) as (Xi & H3 & R3 & V3).
  assert (Hb : int_truediv (- UNIT_M) UNIT_M
               = Return (S754_finite true 4503599627370496 (-52)))
    by (vm_compute; reflexivity).
  assert (H1 : of_int 1 = Return (S754_finite false 4503599627370496 (-52)))
    by (vm_compute; reflexivity).
  set (one := S754_finite false 4503599627370496 (-52)) in *.
  set (b := S754_finite true 4503599627370496 (-52)) in *.
  assert (Ec : SFadd prec emax one b = S754_zero false)
    by (vm_compute; reflexivity).
  assert (Ed : exists s, SFmul prec emax a (S754_zero false) = S754_zero s).
  { destruct a as [sa|sa| |sa ma ea]; simpl in Ra; try contradiction;
      eexists; reflexivity. }
  destruct Ed as [sd Ed].
  assert (Ee : SFadd prec emax one (S754_zero sd) = one) by reflexivity.
  assert (Em : SFadd prec emax one b = S754_zero false) by exact Ec.
  assert (Eh : exists s, SFmul prec emax Xo (S754_zero false) = S754_zero s).
  { destruct Xo as [so|so| |so mo eo]; simpl in R2; try contradiction;
      eexists; reflexivity. }
  destruct Eh as [sh Eh].
  exists (SFadd prec emax (S754_zero sh) Xi).
  split.
  - unfold __init__, op2, pure. cbn [bind].
    rewrite (truediv_int _ _ a Ha). cbn [bind].
    rewrite (truediv_int _ _ b Hb). cbn [bind].
    rewrite (add_int_float 1 one b H1). rewrite Ec. cbn [bind].
    rewrite mul_float_float. rewrite Ed. cbn [bind].
    rewrite (add_int_float 1 one (S754_zero sd) H1). rewrite Ee. cbn [bind].
    rewrite add_float_float. rewrite Em. cbn [bind].
    rewrite (mul_int_float base_out Xo (S754_zero false) H2). rewrite Eh.
    cbn [bind].
    rewrite (add_float_int base_in Xi (S754_zero sh) H3). cbn [bind].
    reflexivity.
  - destruct Xi as [si|si| |si mi ei]; simpl in R3; try contradiction.
    + cbn [SFadd]. split; [destruct sh, si; exact I|].
      rewrite <- V3. destruct sh, si; reflexivity.
    + cbn [SFadd]. split; [|exact V3].
      simpl. split; [apply R3|lia].
Qed.

End Binary64Moderate.

(** ** Facts about the test program *)

Module MainFacts.
Import Binary64.
Local Open Scope Z_scope.

Section Generator.

(** Any generator whose [randint] stays inside the range it is asked
    for. *)
Variable generator : Type.
Variable randint : Z -> Z -> generator -> Z * generator.
Hypothesis randint_range :
  forall lo hi g, lo <= hi -> lo <= fst (randint lo hi g) <= hi.

Lemma test_prints_nothing (fee_rate_out base_out fee_rate_in base_in : Z)
    (fee : FeeStructure) (lo hi : Z) (g : generator) :
  (forall x, 0 <= x <= 100000000000 -> test_amount fee x = Return true) ->
  0 <= lo -> lo <= hi -> hi <= 100000000000 ->
  exists g',
    Main.test randint fee_rate_out base_out fee_rate_in base_in fee lo hi
      (g, nil) = Return (g', nil).
Proof.
  intros Hfee Hlo Hle Hhi. unfold Main.test.
  pose proof (randint_range lo hi g Hle) as Hr.
  destruct (randint lo hi g) as [x g']. cbn [fst] in Hr.
  specialize (Hfee x ltac:(lia)). unfold test_amount in Hfee.
  destruct (inbound_from_outbound fee x) as [amt_in|e];
    cbn [bind] in *; [|discriminate].
  destruct (outbound_from_inbound fee amt_in) as [amt_inv|e];
    cbn [bind] in *; [|discriminate].
  destruct (ne (round amt_inv) x); [discriminate|].
  exists g'. reflexivity.
Qed.

Lemma iteration_prints_nothing (g : generator) :
  exists g', Main.iteration randint (g, nil) = Return (g', nil).
Proof.
  unfold Main.iteration.
  pose proof (randint_range 0 10000 g ltac:(lia)) as H1.
  destruct (randint 0 10000 g) as [fee_rate_out g1]. cbn [fst] in H1.
  pose proof (randint_range 0 2000 g1 ltac:(lia)) as H2.
  destruct (randint 0 2000 g1) as [base_out g2]. cbn [fst] in H2.
  pose proof (randint_range (-10000) 10000 g2 ltac:(lia)) as H3.
  destruct (randint (-10000) 10000 g2) as [fee_rate_in g3]. cbn [fst] in H3.
  pose proof (randint_range (-2000) 2000 g3 ltac:(lia)) as H4.
  destruct (randint (-2000) 2000 g3) as [base_in g4]. cbn [fst] in H4.
  destruct (Binary64Error.init_on_doubles fee_rate_out base_out fee_rate_in
              base_in) as (xm & xn & -> & Rm & Vm & Rn & Vn).
  { unfold Exact.valid_params. lia. }
  cbn [bind].
  pose proof (Binary64Error.test_passes_for xm xn Rm Vm Rn Vn) as Hfee.
  destruct (test_prints_nothing fee_rate_out base_out fee_rate_in base_in
              _ 0 1000 g4 Hfee) as (g5 & ->); [lia|lia|lia|].
  cbn [bind].
  destruct (test_prints_nothing fee_rate_out base_out fee_rate_in base_in
              _ 1000 1000000000 g5 Hfee) as (g6 & ->); [lia|lia|lia|].
  cbn [bind].
  apply test_prints_nothing; [exact Hfee|lia|lia|lia].
Qed.

Lemma loop_prints_nothing (count : N) (g : generator) :
  exists g', Main.loop randint count (g, nil) = Return (g', nil).
Proof.
  unfold Main.loop.
  apply (N.iter_invariant count _ _
           (fun r => exists g', r = Return (g', @nil Main.TestCase))).
  - intros r (g' & ->). cbn [bind]. apply iteration_prints_nothing.
  - exists g. reflexivity.
Qed.

End Generator.

End MainFacts.

Set Implicit Arguments.

(** ** Properties of the transform *)

Import Exact ExactFacts.
Local Open Scope Q_scope.
Local Coercion inject_Z : Z >-> Q.

(** *** Construction *)

(** The literal [1e6] of the formulas. *)
Lemma per_million (z : Z) : z / 1e6 == z * (1 # 1000000).
Proof.
  change 1e6 with 1000000. field.
Qed.

(** C3, as amended: for all four fee parameters below [2^53] in absolute
    value, construction raises nothing and stores two finite doubles: the
    formulas [1 + (fee_rate_out/1e6) * (1 + fee_rate_in/1e6) + fee_rate_in/1e6]
    and [base_out * (1 + fee_rate_in/1e6) + base_in] evaluated with a rounding
    after every operation.  The stored [m] is within
    [2^-48 * (1 + |fee_rate_out/1e6|) * (1 + |fee_rate_in/1e6|)] of the first
    formula and the stored [n] within
    [2^-49 * (|base_out| * (1 + |fee_rate_in/1e6|) + |base_in|)] of the
    second. *)
Theorem construction_rounds_the_formulas
    (fee_rate_out base_out fee_rate_in base_in : Z) :
  (Z.abs fee_rate_out < 2 ^ 53)%Z -> (Z.abs base_out < 2 ^ 53)%Z ->
  (Z.abs fee_rate_in < 2 ^ 53)%Z -> (Z.abs base_in < 2 ^ 53)%Z ->
  exists xm xn,
    Binary64.__init__ fee_rate_out base_out fee_rate_in base_in
    = Return {| Binary64.m := Binary64.Float xm;
                Binary64.n := Binary64.Float xn |} /\
    Binary64Value.finite (Binary64.Float xm) /\
    Binary64Value.finite (Binary64.Float xn) /\
    Qabs (Binary64Value.value xm - spec_m fee_rate_out fee_rate_in)
    <= (1 # 281474976710656)
       * ((1 + Qabs (fee_rate_out / 1e6))
          * (1 + Qabs (fee_rate_in / 1e6))) /\
    Qabs (Binary64Value.value xn - spec_n base_out fee_rate_in base_in)
    <= (1 # 562949953421312)
       * (Qabs base_out * (1 + Qabs (fee_rate_in / 1e6)) + Qabs base_in).
Proof.
  intros Ho Hbo Hi Hbi.
  destruct (Binary64Moderate.init_error _ _ _ _ Ho Hbo Hi Hbi)
    as (xm & xn & E & Rm & Rn & Cm & Cn).
  exists xm, xn. split; [exact E|].
  split; [simpl; eapply Binary64Error.regular_weaken; [exact Rm|lia|lia]|].
  split; [simpl; eapply Binary64Error.regular_weaken; [exact Rn|lia|lia]|].
  unfold spec_m, spec_n. rewrite !per_million.
  split; [exact Cm|exact Cn].
Qed.

(** The two fee legs compound: [m] is the product of the two growth factors. *)
Lemma m_factored (fee_rate_out base_out fee_rate_in base_in : Z) :
  m (__init__ fee_rate_out base_out fee_rate_in base_in) ==
  (1 + fee_rate_out / UNIT_M) * (1 + fee_rate_in / UNIT_M).
Proof.
  simpl. field. discriminate.
Qed.

Lemma valid_params_m_pos (fee_rate_out base_out fee_rate_in base_in : Z) :
  valid_params fee_rate_out base_out fee_rate_in base_in ->
  0 < m (__init__ fee_rate_out base_out fee_rate_in base_in).
Proof.
  intros ([Ho _] & _ & [Hi _] & _).
  rewrite m_factored.
  rewrite Zle_Qle in Ho, Hi.
  change (0 <= fee_rate_out) in Ho. change (-10000 <= fee_rate_in) in Hi.
  unfold UNIT_M.
  apply Qmult_lt_0_compat.
  - assert (E : fee_rate_out / 1000000 == fee_rate_out * (1 # 1000000))
      by (field; discriminate).
    rewrite E. lra.
  - assert (E : fee_rate_in / 1000000 == fee_rate_in * (1 # 1000000))
      by (field; discriminate).
    rewrite E. lra.
Qed.

(** *** The forward direction *)

(** C4, as amended: for all four fee parameters below [2^53] in absolute
    value and every amount of moderate size (negative ones included), the
    forward direction raises nothing.  [f(amount)] is a finite double [fx]:
    [m * amount + n] with the stored coefficients, rounded after the product
    and after the sum, hence within [2^-50 * (|m * amount| + |n|)] of it.
    [inbound_from_outbound(amount)] returns the larger of [fx] and
    [amount], compared without rounding. *)
Theorem inbound_is_rounded_max
    (fee_rate_out base_out fee_rate_in base_in : Z)
    (amount : Binary64.number) :
  (Z.abs fee_rate_out < 2 ^ 53)%Z -> (Z.abs base_out < 2 ^ 53)%Z ->
  (Z.abs fee_rate_in < 2 ^ 53)%Z -> (Z.abs base_in < 2 ^ 53)%Z ->
  Binary64Value.moderate amount ->
  exists xm xn fx r,
    Binary64.__init__ fee_rate_out base_out fee_rate_in base_in
    = Return {| Binary64.m := Binary64.Float xm;
                Binary64.n := Binary64.Float xn |} /\
    Binary64.f {| Binary64.m := Binary64.Float xm;
                  Binary64.n := Binary64.Float xn |} amount
    = Return (Binary64.Float fx) /\
    Binary64.inbound_from_outbound
      {| Binary64.m := Binary64.Float xm;
         Binary64.n := Binary64.Float xn |} amount = Return r /\
    Binary64Value.finite (Binary64.Float fx) /\
    Binary64Value.finite r /\
    Qabs (Binary64Value.value fx
          - (Binary64Value.value xm * Binary64Value.number_value amount
             + Binary64Value.value xn))
    <= (1 # 1125899906842624)
       * (Qabs (Binary64Value.value xm * Binary64Value.number_value amount)
          + Qabs (Binary64Value.value xn)) /\
    Binary64Value.number_value r
    == Qmax (Binary64Value.value fx) (Binary64Value.number_value amount).
Proof.
  intros Ho Hbo Hi Hbi Ha.
  destruct (Binary64Error.init_returns _ _ _ _ Ho Hbo Hi Hbi)
    as (xm & xn & E & Rm & Rn).
  destruct (Binary64Moderate.inbound_rounded xm xn Rm Rn amount Ha)
    as (fx & r & Hf & Hr & Ff & Fr & Ef & Vr & _).
  exists xm, xn, fx, r.
  repeat (split; [assumption|]). exact Vr.
Qed.

(** Rounding cannot break the floor: on doubles the forward direction is
    [>=] the amount whenever the two compare at all, that is, unless
    overflowing coefficients have produced a NaN. *)
Lemma floor_on_doubles
    (self : Binary64.FeeStructure) (amount r : Binary64.number) :
  Binary64.inbound_from_outbound self amount = Return r ->
  Binary64.compare r amount <> None -> Binary64.ge r amount = true.
Proof.
  unfold Binary64.inbound_from_outbound.
  destruct (Binary64.f self amount) as [fx|e]; simpl; [|discriminate].
  intro H. injection H as <-.
  apply Binary64Facts.max_ge_second_on_doubles.
Qed.

(** C6, as amended: the floor on doubles.  For every transform and every
    amount, whenever [inbound_from_outbound(amount)] returns a number that
    compares with the amount at all (it is not NaN), it is [>=] the amount,
    by Python's own comparison.  This is the case for all four fee parameters
    below [2^53] in absolute value and every amount of moderate size: there
    the forward direction raises nothing and returns a finite number that is
    [>=] the amount. *)
Theorem floor_unless_nan
    (self : Binary64.FeeStructure) (a r : Binary64.number)
    (fee_rate_out base_out fee_rate_in base_in : Z)
    (amount : Binary64.number) :
  (Binary64.inbound_from_outbound self a = Return r ->
   Binary64.compare r a <> None -> Binary64.ge r a = true) /\
  ((Z.abs fee_rate_out < 2 ^ 53)%Z -> (Z.abs base_out < 2 ^ 53)%Z ->
   (Z.abs fee_rate_in < 2 ^ 53)%Z -> (Z.abs base_in < 2 ^ 53)%Z ->
   Binary64Value.moderate amount ->
   exists r',
     (fee <- Binary64.__init__ fee_rate_out base_out fee_rate_in base_in ;;
      Binary64.inbound_from_outbound fee amount) = Return r' /\
     Binary64Value.finite r' /\
     Binary64.ge r' amount = true /\
     Binary64Value.number_value amount <= Binary64Value.number_value r').
Proof.
  split; [apply floor_on_doubles|].
  intros Ho Hbo Hi Hbi Ha.
  destruct (Binary64Error.init_returns _ _ _ _ Ho Hbo Hi Hbi)
    as (xm & xn & -> & Rm & Rn).
  cbn [bind].
  destruct (Binary64Moderate.inbound_rounded xm xn Rm Rn amount Ha)
    as (fx & r' & _ & Hr & _ & Fr & _ & Vr & G).
  exists r'. split; [exact Hr|]. split; [exact Fr|]. split; [exact G|].
  rewrite Vr. apply Q.le_max_r.
Qed.


(** *** The inverse *)

(** C5, as amended: for all four fee parameters below [2^53] in absolute
    value and every inbound amount of moderate size, the branch of the
    inverse is decided by the rounded [f(amount)], a finite double [fx]
    within [2^-50 * (|m * amount| + |n|)] of [m * amount + n], and not by
    the exact [m * amount + n].  When [fx > amount],
    [outbound_from_inbound(amount)] raises [ZeroDivisionError] if the stored
    [m] is a zero and otherwise returns a finite double: [(amount - n) / m]
    rounded after the difference and after the quotient, hence within
    [2^-50] of it, relatively.  When [fx <= amount] it returns the amount
    itself. *)
Theorem outbound_rounded_branches
    (fee_rate_out base_out fee_rate_in base_in : Z)
    (amount : Binary64.number) :
  (Z.abs fee_rate_out < 2 ^ 53)%Z -> (Z.abs base_out < 2 ^ 53)%Z ->
  (Z.abs fee_rate_in < 2 ^ 53)%Z -> (Z.abs base_in < 2 ^ 53)%Z ->
  Binary64Value.moderate amount ->
  exists xm xn fx,
    Binary64.__init__ fee_rate_out base_out fee_rate_in base_in
    = Return {| Binary64.m := Binary64.Float xm;
                Binary64.n := Binary64.Float xn |} /\
    Binary64.f {| Binary64.m := Binary64.Float xm;
                  Binary64.n := Binary64.Float xn |} amount
    = Return (Binary64.Float fx) /\
    Binary64Value.finite (Binary64.Float fx) /\
    Qabs (Binary64Value.value fx
          - (Binary64Value.value xm * Binary64Value.number_value amount
             + Binary64Value.value xn))
    <= (1 # 1125899906842624)
       * (Qabs (Binary64Value.value xm * Binary64Value.number_value amount)
          + Qabs (Binary64Value.value xn)) /\
    (Binary64Value.number_value amount < Binary64Value.value fx ->
       (Binary64.is_zero xm = true ->
          Binary64.outbound_from_inbound
            {| Binary64.m := Binary64.Float xm;
               Binary64.n := Binary64.Float xn |} amount
          = Raise ZeroDivisionError) /\
       (Binary64.is_zero xm = false ->
          exists v,
            Binary64.outbound_from_inbound
              {| Binary64.m := Binary64.Float xm;
                 Binary64.n := Binary64.Float xn |} amount
            = Return (Binary64.Float v) /\
            Binary64Value.finite (Binary64.Float v) /\
            Qabs (Binary64Value.value v
                  - (Binary64Value.number_value amount
                     - Binary64Value.value xn) / Binary64Value.value xm)
            <= (1 # 1125899906842624)
               * Qabs ((Binary64Value.number_value amount
                        - Binary64Value.value xn)
                       / Binary64Value.value xm))) /\
    (Binary64Value.value fx <= Binary64Value.number_value amount ->
       Binary64.outbound_from_inbound
         {| Binary64.m := Binary64.Float xm;
            Binary64.n := Binary64.Float xn |} amount
       = Return amount).
Proof.
  intros Ho Hbo Hi Hbi Ha.
  destruct (Binary64Error.init_returns _ _ _ _ Ho Hbo Hi Hbi)
    as (xm & xn & E & Rm & Rn).
  destruct (Binary64Moderate.outbound_rounded xm xn Rm Rn amount Ha)
    as (fx & Hf & Ff & Ef & Lin & Idn).
  exists xm, xn, fx.
  split; [exact E|]. split; [exact Hf|]. split; [exact Ff|].
  split; [exact Ef|]. split; [exact Lin|exact Idn].
Qed.


(** C9, as amended: for every transform whose stored multiplier is a zero
    ([0.0] or [-0.0]) and whose offset [n] is a finite double, and every
    amount of moderate size, [outbound_from_inbound(amount)] raises
    [ZeroDivisionError] when [amount < n], where it divides by [m], and
    returns the amount itself when [n <= amount], where nothing is
    divided. *)
Theorem outbound_from_inbound_zero_m_on_doubles
    (xm xn : spec_float) (amount : Binary64.number) :
  Binary64.is_zero xm = true ->
  Binary64Value.finite (Binary64.Float xn) ->
  Binary64Value.moderate amount ->
  (Binary64Value.number_value amount < Binary64Value.value xn ->
     Binary64.outbound_from_inbound
       {| Binary64.m := Binary64.Float xm;
          Binary64.n := Binary64.Float xn |} amount
     = Raise ZeroDivisionError) /\
  (Binary64Value.value xn <= Binary64Value.number_value amount ->
     Binary64.outbound_from_inbound
       {| Binary64.m := Binary64.Float xm;
          Binary64.n := Binary64.Float xn |} amount
     = Return amount).
Proof.
  intros Z Rn Ha. exact (Binary64Moderate.outbound_zero_m xm xn amount Z Rn Ha).
Qed.

(** C10: there are fee parameters inside the ranges ([base_out > 0] and the
    other three zero, so that [m = 1] and [n > 0]) and a non-negative inbound
    amount for which [outbound_from_inbound] returns a strictly negative
    value: the inverse has no floor at zero. *)
Theorem outbound_can_be_negative :
  exists (base_out : Z) (amount q : Q),
    let fee := __init__ 0 base_out 0 0 in
    valid_params 0 base_out 0 0 /\ (0 < base_out)%Z /\
    m fee == 1 /\ 0 < n fee /\ 0 <= amount /\
    outbound_from_inbound fee amount = Return q /\ q < 0.
Proof.
  exists 1%Z, 0. eexists. cbv zeta.
  split; [unfold valid_params; lia|].
  split; [lia|].
  split; [reflexivity|].
  split; [reflexivity|].
  split; [discriminate|].
  split; [vm_compute; reflexivity|reflexivity].
Qed.

(** *** Forward, then inverse *)

(** C2: for every transform with a positive multiplier and every non-negative
    amount [x], the comparison [f(amount) > amount] made by the inverse at
    [inbound_from_outbound(x)] holds exactly when the forward floor was not
    active at [x], and the inverse gives [x] back exactly. *)
Theorem branch_selection_exact (self : FeeStructure) (x : Q) :
  0 < m self -> 0 <= x ->
  let y := inbound_from_outbound self x in
  (gt (f self y) y = true <-> x < f self x) /\
  exists q, outbound_from_inbound self y = Return q /\ q == x.
Proof.
  intros Hm _ y. split; [|now apply round_trip].
  rewrite gt_spec. subst y.
  destruct (inbound_cases self x) as [[H E]|[H E]].
  - rewrite E. pose proof (f_gap self x) as G.
    assert (0 < m self * (f self x - x)) by (apply Qmult_lt_0_compat; lra).
    split; intro; lra.
  - rewrite (f_comp self E), E. split; intro; lra.
Qed.

(** In exact arithmetic the test of the prototype passes for every amount. *)
Lemma test_passes_exactly
    (fee_rate_out base_out fee_rate_in base_in x : Z) :
  valid_params fee_rate_out base_out fee_rate_in base_in ->
  test_amount (__init__ fee_rate_out base_out fee_rate_in base_in) x
  = Return true.
Proof.
  intro Hv. unfold test_amount.
  destruct (round_trip (__init__ fee_rate_out base_out fee_rate_in base_in)
              x (valid_params_m_pos Hv)) as (q & -> & Hq).
  simpl. rewrite (round_comp Hq), round_inject_Z, Z.eqb_refl. reflexivity.
Qed.

(** C1, as amended: for all fee parameters with [fee_rate_out] in
    [0, 10000], [base_out] in [0, 2000], [fee_rate_in] in [-10000, 10000],
    [base_in] in [-2000, 2000] and every non-negative integer [x],
    [round(outbound_from_inbound(inbound_from_outbound(x))) == x] holds in
    exact arithmetic, and it holds on the doubles of the prototype for
    every [x] up to [10^11], the largest amount its test draws. *)
Theorem round_trip_law
    (fee_rate_out base_out fee_rate_in base_in x : Z) :
  valid_params fee_rate_out base_out fee_rate_in base_in -> (0 <= x)%Z ->
  test_amount (__init__ fee_rate_out base_out fee_rate_in base_in) x
  = Return true /\
  ((x <= 100000000000)%Z ->
   (fee <- Binary64.__init__ fee_rate_out base_out fee_rate_in base_in ;;
    Binary64.test_amount fee x) = Return true).
Proof.
  intros Hv Hx. split.
  - now apply test_passes_exactly.
  - intro Hle. apply Binary64Error.test_passes_on_doubles; [exact Hv|lia].
Qed.

(** *** Where the statements of the description stop *)

(** C3 does not hold as stated.  [FeeStructure(1, 0, 0, 0)] stores the double
    [4503604130970123 * 2^-52] as [m], which is not the value [1.000001] of
    the formula; and construction from [fee_rate_out = 10^400] raises
    [OverflowError] instead of setting anything. *)
Lemma stored_multiplier_is_rounded :
  (exists xm,
     Binary64.__init__ 1 0 0 0
     = Return {| Binary64.m := Binary64.Float xm;
                 Binary64.n := Binary64.Float (S754_zero false) |} /\
     xm = S754_finite false 4503604130970123 (-52) /\
     ~ Binary64Value.value xm == spec_m 1 0) /\
  Binary64.__init__ (10 ^ 400) 0 0 0 = Raise OverflowError.
Proof.
  split; [|vm_compute; reflexivity].
  eexists. split; [vm_compute; reflexivity|]. split; [reflexivity|].
  intro H. vm_compute in H. discriminate.
Qed.

(** C4 does not hold as stated.  [FeeStructure(1, 0, -2, 1)] stores a
    multiplier just below one and the offset [1.0].  At the amount [999998]
    the exact [m * amount + n] is above the amount, so that the maximum of
    the two is above it as well; the code rounds [f(999998)] to [999998.0]
    and returns that.  And at the amount [2^1024] the forward direction
    returns nothing: it raises [OverflowError]. *)
Lemma inbound_is_not_the_exact_max :
  valid_params 1 0 (-2) 1 /\ (0 <= 999998)%Z /\
  exists xm xn r,
    Binary64.__init__ 1 0 (-2) 1
    = Return {| Binary64.m := Binary64.Float xm;
                Binary64.n := Binary64.Float xn |} /\
    Binary64.inbound_from_outbound
      {| Binary64.m := Binary64.Float xm;
         Binary64.n := Binary64.Float xn |} (Binary64.Int 999998)
    = Return r /\
    Binary64Value.number_value r == 999998 /\
    999998 < Qmax (Binary64Value.value xm * 999998 + Binary64Value.value xn)
               999998 /\
    Binary64.inbound_from_outbound
      {| Binary64.m := Binary64.Float xm;
         Binary64.n := Binary64.Float xn |} (Binary64.Int (2 ^ 1024))
    = Raise OverflowError.
Proof.
  split; [unfold valid_params; lia|]. split; [lia|].
  do 3 eexists. split; [vm_compute; reflexivity|].
  split; [vm_compute; reflexivity|].
  split; [vm_compute; reflexivity|].
  split; vm_compute; reflexivity.
Qed.

(** C5 does not hold as stated.  For [FeeStructure(1, 0, -2, 1)] and the
    inbound amount [999998] the exact [m * amount + n] is above the amount,
    but the rounded one is not: the inverse returns the amount itself, which
    is not [(amount - n) / m]. *)
Lemma inverse_takes_the_rounded_branch :
  valid_params 1 0 (-2) 1 /\ (0 <= 999998)%Z /\
  exists xm xn,
    Binary64.__init__ 1 0 (-2) 1
    = Return {| Binary64.m := Binary64.Float xm;
                Binary64.n := Binary64.Float xn |} /\
    999998 < Binary64Value.value xm * 999998 + Binary64Value.value xn /\
    Binary64.outbound_from_inbound
      {| Binary64.m := Binary64.Float xm;
         Binary64.n := Binary64.Float xn |} (Binary64.Int 999998)
    = Return (Binary64.Int 999998) /\
    ~ (999998 - Binary64Value.value xn) / Binary64Value.value xm == 999998.
Proof.
  split; [unfold valid_params; lia|]. split; [lia|].
  do 2 eexists. split; [vm_compute; reflexivity|].
  split; [vm_compute; reflexivity|].
  split; [vm_compute; reflexivity|].
  intro H. vm_compute in H. discriminate.
Qed.

(** C6 does not hold for every four parameters.  [FeeStructure(10^300, 0,
    10^300, 0)] stores the multiplier [inf]; at the amount [0] the product
    [m * amount] is NaN and so is what the forward direction returns, and
    [NaN >= 0] is false. *)
Lemma floor_fails_at_nan :
  exists r,
    (fee <- Binary64.__init__ (10 ^ 300) 0 (10 ^ 300) 0 ;;
     Binary64.inbound_from_outbound fee (Binary64.Int 0)) = Return r /\
    r = Binary64.Float S754_nan /\
    Binary64.ge r (Binary64.Int 0) = false.
Proof.
  eexists. split; [vm_compute; reflexivity|]. split; reflexivity.
Qed.



(** C9 does not hold for every amount.  [FeeStructure(0, 0, -1000000, 0)]
    stores [m = 0.0] and [n = 0.0]; the inbound amount [5] is on the identity
    branch, nothing is divided and [5] is returned. *)
Lemma zero_m_returns_the_amount_on_doubles :
  Binary64.__init__ 0 0 (-1000000) 0
  = Return {| Binary64.m := Binary64.Float (S754_zero false);
              Binary64.n := Binary64.Float (S754_zero false) |} /\
  (0 <= 5)%Z /\
  Binary64.outbound_from_inbound
    {| Binary64.m := Binary64.Float (S754_zero false);
       Binary64.n := Binary64.Float (S754_zero false) |} (Binary64.Int 5)
  = Return (Binary64.Int 5).
Proof.
  split; [vm_compute; reflexivity|]. split; [lia|].
  vm_compute. reflexivity.
Qed.

(** C1 does not hold for every amount: the prototype computes on doubles.
    With the four parameters zero the coefficients are [m = 1.0] and
    [n = 0.0].  The amount [2^53 + 3] is not a double: [m * amount] converts
    it to [2^53 + 4], which is what both directions return, and the test of
    the prototype fails. *)
Lemma round_trip_fails_on_doubles :
  valid_params 0 0 0 0 /\ (0 <= 9007199254740995)%Z /\
  (fee <- Binary64.__init__ 0 0 0 0 ;;
   amt_in <- Binary64.inbound_from_outbound fee
               (Binary64.Int 9007199254740995) ;;
   Binary64.outbound_from_inbound fee amt_in)
  = Return (Binary64.Float (S754_finite false 4503599627370498 1)) /\
  (fee <- Binary64.__init__ 0 0 0 0 ;;
   Binary64.test_amount fee 9007199254740995) = Return false.
Proof.
  split; [unfold valid_params; lia|]. split; [lia|].
  vm_compute. split; reflexivity.
Qed.

(** *** Instances *)

(** A fee of 1000 ppm plus one unit, forwarding 1000000. *)
Lemma branch_selection_exact_witness :
  0 < m (__init__ 1000 1 0 0) /\ 0 <= 1000000 /\
  let y := inbound_from_outbound (__init__ 1000 1 0 0) 1000000 in
  (gt (f (__init__ 1000 1 0 0) y) y = true
   <-> 1000000 < f (__init__ 1000 1 0 0) 1000000) /\
  exists q,
    outbound_from_inbound (__init__ 1000 1 0 0) y = Return q /\
    q == 1000000.
Proof.
  split; [reflexivity|]. split; [discriminate|].
  apply (@branch_selection_exact (__init__ 1000 1 0 0) 1000000);
    [reflexivity|discriminate].
Defined.

(** The largest outbound fee against the largest inbound discount, at the
    largest amount of the test. *)
Lemma round_trip_law_witness :
  valid_params 10000 2000 (-10000) (-2000) /\
  (0 <= 100000000000)%Z /\
  test_amount (__init__ 10000 2000 (-10000) (-2000)) 100000000000
  = Return true /\
  (fee <- Binary64.__init__ 10000 2000 (-10000) (-2000) ;;
   Binary64.test_amount fee 100000000000) = Return true.
Proof.
  assert (Hv : valid_params 10000 2000 (-10000) (-2000))
    by (unfold valid_params; lia).
  assert (Hx : (0 <= 100000000000)%Z) by lia.
  assert (Hle : (100000000000 <= 100000000000)%Z) by lia.
  exact (conj Hv (conj Hx (conj (proj1 (round_trip_law Hv Hx))
                             (proj2 (round_trip_law Hv Hx) Hle)))).
Defined.

(** The largest outbound fee against the largest inbound discount. *)
Lemma construction_rounds_the_formulas_witness :
  (Z.abs 10000 < 2 ^ 53)%Z /\ (Z.abs 2000 < 2 ^ 53)%Z /\
  (Z.abs (-10000) < 2 ^ 53)%Z /\ (Z.abs (-2000) < 2 ^ 53)%Z /\
  exists xm xn,
    Binary64.__init__ 10000 2000 (-10000) (-2000)
    = Return {| Binary64.m := Binary64.Float xm;
                Binary64.n := Binary64.Float xn |} /\
    Binary64Value.finite (Binary64.Float xm) /\
    Binary64Value.finite (Binary64.Float xn) /\
    Qabs (Binary64Value.value xm - spec_m 10000 (-10000))
    <= (1 # 281474976710656)
       * ((1 + Qabs (10000%Z / 1e6)) * (1 + Qabs ((-10000)%Z / 1e6))) /\
    Qabs (Binary64Value.value xn - spec_n 2000 (-10000) (-2000))
    <= (1 # 562949953421312)
       * (Qabs 2000%Z * (1 + Qabs ((-10000)%Z / 1e6)) + Qabs (-2000)%Z).
Proof.
  assert (H1 : (Z.abs 10000 < 2 ^ 53)%Z) by lia.
  assert (H2 : (Z.abs 2000 < 2 ^ 53)%Z) by lia.
  assert (H3 : (Z.abs (-10000) < 2 ^ 53)%Z) by lia.
  assert (H4 : (Z.abs (-2000) < 2 ^ 53)%Z) by lia.
  split; [exact H1|]. split; [exact H2|]. split; [exact H3|].
  split; [exact H4|].
  exact (@construction_rounds_the_formulas 10000 2000 (-10000) (-2000)
           H1 H2 H3 H4).
Defined.

(** [FeeStructure(1, 0, -2, 1)] at the amount [999998], where rounding
    decides. *)
Lemma inbound_is_rounded_max_witness :
  (Z.abs 1 < 2 ^ 53)%Z /\ (Z.abs 0 < 2 ^ 53)%Z /\
  (Z.abs (-2) < 2 ^ 53)%Z /\ (Z.abs 1 < 2 ^ 53)%Z /\
  Binary64Value.moderate (Binary64.Int 999998) /\
  exists xm xn fx r,
    Binary64.__init__ 1 0 (-2) 1
    = Return {| Binary64.m := Binary64.Float xm;
                Binary64.n := Binary64.Float xn |} /\
    Binary64.f {| Binary64.m := Binary64.Float xm;
                  Binary64.n := Binary64.Float xn |} (Binary64.Int 999998)
    = Return (Binary64.Float fx) /\
    Binary64.inbound_from_outbound
      {| Binary64.m := Binary64.Float xm;
         Binary64.n := Binary64.Float xn |} (Binary64.Int 999998)
    = Return r /\
    Binary64Value.finite (Binary64.Float fx) /\
    Binary64Value.finite r /\
    Qabs (Binary64Value.value fx
          - (Binary64Value.value xm
             * Binary64Value.number_value (Binary64.Int 999998)
             + Binary64Value.value xn))
    <= (1 # 1125899906842624)
       * (Qabs (Binary64Value.value xm
                * Binary64Value.number_value (Binary64.Int 999998))
          + Qabs (Binary64Value.value xn)) /\
    Binary64Value.number_value r
    == Qmax (Binary64Value.value fx)
         (Binary64Value.number_value (Binary64.Int 999998)).
Proof.
  assert (H1 : (Z.abs 1 < 2 ^ 53)%Z) by lia.
  assert (H2 : (Z.abs 0 < 2 ^ 53)%Z) by lia.
  assert (H3 : (Z.abs (-2) < 2 ^ 53)%Z) by lia.
  assert (Ha : Binary64Value.moderate (Binary64.Int 999998))
    by (simpl; lia).
  split; [exact H1|]. split; [exact H2|]. split; [exact H3|].
  split; [exact H1|]. split; [exact Ha|].
  exact (@inbound_is_rounded_max 1 0 (-2) 1 (Binary64.Int 999998)
           H1 H2 H3 H1 Ha).
Defined.

(** The floor at work for the multiplier [0.99], and the forward direction
    of a double amount, [2.0]. *)
Lemma floor_unless_nan_witness :
  let self :=
    {| Binary64.m :=
         Binary64.Float (S754_finite false 8917127262193582 (-53));
       Binary64.n := Binary64.Float (S754_zero false) |} in
  let amount := Binary64.Float (S754_finite false 4503599627370496 (-51)) in
  Binary64.inbound_from_outbound self (Binary64.Int 1000)
  = Return (Binary64.Int 1000) /\
  Binary64.compare (Binary64.Int 1000) (Binary64.Int 1000) <> None /\
  Binary64.ge (Binary64.Int 1000) (Binary64.Int 1000) = true /\
  (Z.abs 0 < 2 ^ 53)%Z /\ (Z.abs (-10000) < 2 ^ 53)%Z /\
  (Z.abs (-2000) < 2 ^ 53)%Z /\ Binary64Value.moderate amount /\
  exists r',
    (fee <- Binary64.__init__ 0 0 (-10000) (-2000) ;;
     Binary64.inbound_from_outbound fee amount) = Return r' /\
    Binary64Value.finite r' /\
    Binary64.ge r' amount = true /\
    Binary64Value.number_value amount <= Binary64Value.number_value r'.
Proof.
  intros self amount.
  assert (E : Binary64.inbound_from_outbound self (Binary64.Int 1000)
              = Return (Binary64.Int 1000)) by (vm_compute; reflexivity).
  assert (C : Binary64.compare (Binary64.Int 1000) (Binary64.Int 1000)
              <> None) by discriminate.
  assert (H1 : (Z.abs 0 < 2 ^ 53)%Z) by lia.
  assert (H3 : (Z.abs (-10000) < 2 ^ 53)%Z) by lia.
  assert (H4 : (Z.abs (-2000) < 2 ^ 53)%Z) by lia.
  assert (Ha : Binary64Value.moderate amount)
    by (simpl; split; [reflexivity|lia]).
  split; [exact E|]. split; [exact C|].
  split;
    [exact (proj1 (@floor_unless_nan self (Binary64.Int 1000)
                     (Binary64.Int 1000) 0 0 (-10000) (-2000) amount) E C)|].
  split; [exact H1|]. split; [exact H3|]. split; [exact H4|].
  split; [exact Ha|].
  exact (proj2 (@floor_unless_nan self (Binary64.Int 1000)
                  (Binary64.Int 1000) 0 0 (-10000) (-2000) amount)
           H1 H1 H3 H4 Ha).
Defined.


(** [FeeStructure(1, 0, -2, 1)] at the inbound amount [999998], where the
    rounded [f] puts the inverse on the identity branch. *)
Lemma outbound_rounded_branches_witness :
  (Z.abs 1 < 2 ^ 53)%Z /\ (Z.abs 0 < 2 ^ 53)%Z /\
  (Z.abs (-2) < 2 ^ 53)%Z /\ (Z.abs 1 < 2 ^ 53)%Z /\
  Binary64Value.moderate (Binary64.Int 999998) /\
  exists xm xn fx,
    Binary64.__init__ 1 0 (-2) 1
    = Return {| Binary64.m := Binary64.Float xm;
                Binary64.n := Binary64.Float xn |} /\
    Binary64.f {| Binary64.m := Binary64.Float xm;
                  Binary64.n := Binary64.Float xn |} (Binary64.Int 999998)
    = Return (Binary64.Float fx) /\
    Binary64Value.finite (Binary64.Float fx) /\
    Qabs (Binary64Value.value fx
          - (Binary64Value.value xm
             * Binary64Value.number_value (Binary64.Int 999998)
             + Binary64Value.value xn))
    <= (1 # 1125899906842624)
       * (Qabs (Binary64Value.value xm
                * Binary64Value.number_value (Binary64.Int 999998))
          + Qabs (Binary64Value.value xn)) /\
    (Binary64Value.number_value (Binary64.Int 999998)
     < Binary64Value.value fx ->
       (Binary64.is_zero xm = true ->
          Binary64.outbound_from_inbound
            {| Binary64.m := Binary64.Float xm;
               Binary64.n := Binary64.Float xn |} (Binary64.Int 999998)
          = Raise ZeroDivisionError) /\
       (Binary64.is_zero xm = false ->
          exists v,
            Binary64.outbound_from_inbound
              {| Binary64.m := Binary64.Float xm;
                 Binary64.n := Binary64.Float xn |} (Binary64.Int 999998)
            = Return (Binary64.Float v) /\
            Binary64Value.finite (Binary64.Float v) /\
            Qabs (Binary64Value.value v
                  - (Binary64Value.number_value (Binary64.Int 999998)
                     - Binary64Value.value xn) / Binary64Value.value xm)
            <= (1 # 1125899906842624)
               * Qabs ((Binary64Value.number_value (Binary64.Int 999998)
                        - Binary64Value.value xn)
                       / Binary64Value.value xm))) /\
    (Binary64Value.value fx
     <= Binary64Value.number_value (Binary64.Int 999998) ->
       Binary64.outbound_from_inbound
         {| Binary64.m := Binary64.Float xm;
            Binary64.n := Binary64.Float xn |} (Binary64.Int 999998)
       = Return (Binary64.Int 999998)).
Proof.
  assert (H1 : (Z.abs 1 < 2 ^ 53)%Z) by lia.
  assert (H2 : (Z.abs 0 < 2 ^ 53)%Z) by lia.
  assert (H3 : (Z.abs (-2) < 2 ^ 53)%Z) by lia.
  assert (Ha : Binary64Value.moderate (Binary64.Int 999998))
    by (simpl; lia).
  split; [exact H1|]. split; [exact H2|]. split; [exact H3|].
  split; [exact H1|]. split; [exact Ha|].
  exact (@outbound_rounded_branches 1 0 (-2) 1 (Binary64.Int 999998)
           H1 H2 H3 H1 Ha).
Defined.


(** The multiplier [0.0] and the offset [7.0], as [FeeStructure(0, 0,
    -1000000, 7)] constructs them: the inbound amount [3] reaches the
    division. *)
Lemma outbound_from_inbound_zero_m_on_doubles_witness :
  let xn := S754_finite false 7881299347898368 (-50) in
  Binary64.__init__ 0 0 (-1000000) 7
  = Return {| Binary64.m := Binary64.Float (S754_zero false);
              Binary64.n := Binary64.Float xn |} /\
  Binary64.is_zero (S754_zero false) = true /\
  Binary64Value.finite (Binary64.Float xn) /\
  Binary64Value.moderate (Binary64.Int 3) /\
  Binary64Value.number_value (Binary64.Int 3) < Binary64Value.value xn /\
  Binary64.outbound_from_inbound
    {| Binary64.m := Binary64.Float (S754_zero false);
       Binary64.n := Binary64.Float xn |} (Binary64.Int 3)
  = Raise ZeroDivisionError.
Proof.
  intro xn.
  assert (Z : Binary64.is_zero (S754_zero false) = true) by reflexivity.
  assert (Fn : Binary64Value.finite (Binary64.Float xn))
    by (simpl; split; [reflexivity|lia]).
  assert (Ha : Binary64Value.moderate (Binary64.Int 3)) by (simpl; lia).
  assert (L : Binary64Value.number_value (Binary64.Int 3)
              < Binary64Value.value xn) by reflexivity.
  split; [vm_compute; reflexivity|].
  split; [exact Z|]. split; [exact Fn|]. split; [exact Ha|].
  split; [exact L|].
  exact (proj1 (@outbound_from_inbound_zero_m_on_doubles
                  (S754_zero false) xn (Binary64.Int 3) Z Fn Ha) L).
Defined.

(** *** Runs on doubles *)

(** Further runs on doubles: a negative multiplier in the inverse and in the
    forward direction, a zero multiplier on the two branches of the inverse,
    and the negative result of C10. *)
Example doubles_agree_on_the_exact_runs :
  (fee <- Binary64.__init__ 0 0 (-2000000) 1 ;;
   x <- Binary64.outbound_from_inbound fee (Binary64.Int 0) ;;
   Return (Binary64.gt x (Binary64.Int 0))) = Return true /\
  (fee <- Binary64.__init__ 0 0 (-2000000) 100 ;;
   a <- Binary64.inbound_from_outbound fee (Binary64.Int 0) ;;
   b <- Binary64.inbound_from_outbound fee (Binary64.Int 1) ;;
   Return (Binary64.gt a b)) = Return true /\
  (fee <- Binary64.__init__ 0 0 (-1000000) 0 ;;
   Binary64.outbound_from_inbound fee (Binary64.Int 5))
  = Return (Binary64.Int 5) /\
  (fee <- Binary64.__init__ 0 0 (-1000000) 7 ;;
   Binary64.outbound_from_inbound fee (Binary64.Int 3))
  = Raise ZeroDivisionError /\
  (fee <- Binary64.__init__ 0 1 0 0 ;;
   x <- Binary64.outbound_from_inbound fee (Binary64.Int 0) ;;
   Return (Binary64.gt (Binary64.Int 0) x)) = Return true.
Proof.
  vm_compute. repeat split.
Qed.

(** ** Further properties of the transform *)

(** *** The two directions on doubles *)

(** X1: inverse, then forward.  For parameters inside the ranges of the test
    and an integer inbound amount [y] between [0] and [10^11], the inverse
    followed by the forward direction, on doubles, raises nothing and
    returns a finite number within [10^-3] of [y]: the forward direction
    undoes the inverse as well, up to rounding. *)
Theorem inbound_undoes_outbound_on_doubles
    (fee_rate_out base_out fee_rate_in base_in y : Z) :
  valid_params fee_rate_out base_out fee_rate_in base_in ->
  (0 <= y <= 100000000000)%Z ->
  exists r,
    (fee <- Binary64.__init__ fee_rate_out base_out fee_rate_in base_in ;;
     x <- Binary64.outbound_from_inbound fee (Binary64.Int y) ;;
     Binary64.inbound_from_outbound fee x) = Return r /\
    Binary64Value.finite r /\
    Qabs (Binary64Value.number_value r - y) <= 1 # 1000.
Proof.
  intros Hv Hy.
  destruct (Binary64Error.init_analysis _ _ _ _ Hv)
    as (xm & xn & E & Rm & Vm & _ & Vn & _).
  destruct (Binary64Error.init_returns fee_rate_out base_out fee_rate_in
              base_in) as (xm' & xn' & E' & _ & Rn);
    try (unfold valid_params in Hv; lia).
  rewrite E in E'. injection E' as <- <-.
  rewrite E. cbn [bind].
  apply Binary64Moderate.inbound_of_outbound_close;
    [eapply Binary64Error.regular_weaken; [exact Rm|lia|lia]
    |exact Rn|exact Vm|exact Vn|exact Hy].
Qed.

(** X4: for parameters inside the ranges of the test and a non-negative
    integer inbound amount below [2^53], the inverse on doubles raises
    nothing and returns a finite number that is negative exactly when the
    amount is below the stored offset [n]: an inbound amount that does not
    cover the fixed cost. *)
Theorem outbound_negative_iff_on_doubles
    (fee_rate_out base_out fee_rate_in base_in y : Z) :
  valid_params fee_rate_out base_out fee_rate_in base_in ->
  (0 <= y < 2 ^ 53)%Z ->
  exists xm xn r,
    Binary64.__init__ fee_rate_out base_out fee_rate_in base_in
    = Return {| Binary64.m := Binary64.Float xm;
                Binary64.n := Binary64.Float xn |} /\
    Binary64.outbound_from_inbound
      {| Binary64.m := Binary64.Float xm;
         Binary64.n := Binary64.Float xn |} (Binary64.Int y) = Return r /\
    Binary64Value.finite r /\
    (Binary64Value.number_value r < 0 <-> y < Binary64Value.value xn).
Proof.
  intros Hv Hy.
  destruct (Binary64Error.init_analysis _ _ _ _ Hv)
    as (xm & xn & E & Rm & Vm & _).
  destruct (Binary64Error.init_returns fee_rate_out base_out fee_rate_in
              base_in) as (xm' & xn' & E' & _ & Rn);
    try (unfold valid_params in Hv; lia).
  rewrite E in E'. injection E' as <- <-.
  destruct (Binary64Moderate.outbound_sign xm xn) with (y := y)
    as (r & Hr & Fr & S);
    [eapply Binary64Error.regular_weaken; [exact Rm|lia|lia]
    |exact Rn|exact Vm|exact Hy|].
  exists xm, xn, r. split; [exact E|]. split; [exact Hr|].
  split; [exact Fr|exact S].
Qed.

(** *** The coefficients in terms of the parameters *)

(** X6: a [fee_rate_in] of [-UNIT_M] (minus 100 %) is stored as the
    multiplier [0.0], whatever the other three parameters below [2^53] in
    absolute value are; the stored offset is then [base_in]. *)
Theorem zero_multiplier_is_stored (fee_rate_out base_out base_in : Z) :
  (Z.abs fee_rate_out < 2 ^ 53)%Z -> (Z.abs base_out < 2 ^ 53)%Z ->
  (Z.abs base_in < 2 ^ 53)%Z ->
  exists xn,
    Binary64.__init__ fee_rate_out base_out (- UNIT_M) base_in
    = Return {| Binary64.m := Binary64.Float (S754_zero false);
                Binary64.n := Binary64.Float xn |} /\
    Binary64Value.finite (Binary64.Float xn) /\
    Binary64Value.value xn == base_in.
Proof.
  intros Ho Hbo Hbi.
  exact (Binary64Moderate.init_zero_m _ _ _ Ho Hbo Hbi).
Qed.

(** The other rate does not do the same.  With [fee_rate_out = -UNIT_M] the
    exact multiplier is zero as well, but [FeeStructure(-1000000, 0, 500, 0)]
    stores [8936830510563328 * 2^-107], about [5.5e-17]. *)
Example minus_unit_out_is_not_stored_as_zero :
  m (__init__ (-1000000) 0 500 0) == 0 /\
  Binary64.__init__ (-1000000) 0 500 0
  = Return {| Binary64.m :=
                Binary64.Float (S754_finite false 8936830510563328 (-107));
              Binary64.n := Binary64.Float (S754_zero false) |}.
Proof.
  split; [reflexivity|vm_compute; reflexivity].
Qed.

(** *** Doubles against exact arithmetic *)

(** X8: for parameters inside the ranges of the test, construction on
    doubles raises nothing and returns two finite doubles; the multiplier is
    within [10^-15] and the offset within [2 * 10^-12] of the exact
    coefficients. *)
Theorem construction_close_to_exact
    (fee_rate_out base_out fee_rate_in base_in : Z) :
  valid_params fee_rate_out base_out fee_rate_in base_in ->
  exists xm xn,
    Binary64.__init__ fee_rate_out base_out fee_rate_in base_in
    = Return {| Binary64.m := Binary64.Float xm;
                Binary64.n := Binary64.Float xn |} /\
    Binary64Value.finite (Binary64.Float xm) /\
    Binary64Value.finite (Binary64.Float xn) /\
    Qabs (Binary64Value.value xm
          - m (__init__ fee_rate_out base_out fee_rate_in base_in))
    <= 1 # 1000000000000000 /\
    Qabs (Binary64Value.value xn
          - n (__init__ fee_rate_out base_out fee_rate_in base_in))
    <= 2 # 1000000000000.
Proof.
  intro Hv.
  destruct (Binary64Error.init_analysis _ _ _ _ Hv)
    as (xm & xn & E & Rm & _ & Rn & _ & Cm & Cn).
  exists xm, xn. split; [exact E|].
  split; [simpl; eapply Binary64Error.regular_weaken; [exact Rm|lia|lia]|].
  split; [simpl; eapply Binary64Error.regular_weaken; [exact Rn|lia|lia]|].
  split; [exact Cm|exact Cn].
Qed.

(** X9: for parameters inside the ranges of the test and an integer amount
    between [0] and [10^11], the forward direction on doubles raises nothing
    and returns a finite number within [10^-3] of the exact inbound
    amount. *)
Theorem inbound_close_to_exact
    (fee_rate_out base_out fee_rate_in base_in x : Z) :
  valid_params fee_rate_out base_out fee_rate_in base_in ->
  (0 <= x <= 100000000000)%Z ->
  exists r,
    (fee <- Binary64.__init__ fee_rate_out base_out fee_rate_in base_in ;;
     Binary64.inbound_from_outbound fee (Binary64.Int x)) = Return r /\
    Binary64Value.finite r /\
    Qabs (Binary64Value.number_value r
          - inbound_from_outbound
              (__init__ fee_rate_out base_out fee_rate_in base_in) x)
    <= 1 # 1000.
Proof.
  intros Hv Hx.
  destruct (Binary64Error.init_analysis _ _ _ _ Hv)
    as (xm & xn & -> & Rm & Vm & Rn & Vn & Cm & Cn).
  cbn [bind].
  exact (Binary64Error.inbound_close xm xn _ Rm Vm Rn Vn Cm Cn x Hx).
Qed.

(** X10: for parameters inside the ranges of the test and an integer inbound
    amount between [0] and [10^11], the inverse on doubles raises nothing and
    returns a finite number within [10^-3] of what the exact inverse
    returns. *)
Theorem outbound_close_to_exact
    (fee_rate_out base_out fee_rate_in base_in y : Z) :
  valid_params fee_rate_out base_out fee_rate_in base_in ->
  (0 <= y <= 100000000000)%Z ->
  exists r q,
    (fee <- Binary64.__init__ fee_rate_out base_out fee_rate_in base_in ;;
     Binary64.outbound_from_inbound fee (Binary64.Int y)) = Return r /\
    Binary64Value.finite r /\
    outbound_from_inbound
      (__init__ fee_rate_out base_out fee_rate_in base_in) y = Return q /\
    Qabs (Binary64Value.number_value r - q) <= 1 # 1000.
Proof.
  intros Hv Hy.
  destruct (Binary64Error.init_analysis _ _ _ _ Hv)
    as (xm & xn & -> & Rm & Vm & Rn & Vn & Cm & Cn).
  cbn [bind].
  exact (Binary64Error.outbound_close xm xn _ Rm Vm Rn Vn Cm Cn y Hy).
Qed.

(** X11: for parameters inside the ranges of the test and an integer amount
    [x] between [0] and [10^11], the forward direction followed by the
    inverse, on doubles, raises nothing and returns a finite number within
    [10^-3] of [x]: the test of the prototype, which rounds to the nearest
    integer, passes with a wide margin. *)
Theorem round_trip_close_on_doubles
    (fee_rate_out base_out fee_rate_in base_in x : Z) :
  valid_params fee_rate_out base_out fee_rate_in base_in ->
  (0 <= x <= 100000000000)%Z ->
  exists inv,
    (fee <- Binary64.__init__ fee_rate_out base_out fee_rate_in base_in ;;
     amt_in <- Binary64.inbound_from_outbound fee (Binary64.Int x) ;;
     Binary64.outbound_from_inbound fee amt_in) = Return inv /\
    Binary64Value.finite inv /\
    Qabs (Binary64Value.number_value inv - x) <= 1 # 1000.
Proof.
  intros Hv Hx.
  destruct (Binary64Error.init_on_doubles _ _ _ _ Hv)
    as (xm & xn & -> & Rm & Vm & Rn & Vn).
  cbn [bind].
  exact (Binary64Error.round_trip_close xm xn Rm Vm Rn Vn x Hx).
Qed.

(** X12: for parameters inside the ranges of the test the forward direction
    on doubles is strictly increasing on integer amounts between [0] and
    [10^11]: for [a < b], what it returns for [b] compares greater, by
    Python's [>], than what it returns for [a]. *)
Theorem inbound_increasing_on_doubles
    (fee_rate_out base_out fee_rate_in base_in a b : Z) :
  valid_params fee_rate_out base_out fee_rate_in base_in ->
  (0 <= a)%Z -> (a < b)%Z -> (b <= 100000000000)%Z ->
  exists ra rb,
    (fee <- Binary64.__init__ fee_rate_out base_out fee_rate_in base_in ;;
     Binary64.inbound_from_outbound fee (Binary64.Int a)) = Return ra /\
    (fee <- Binary64.__init__ fee_rate_out base_out fee_rate_in base_in ;;
     Binary64.inbound_from_outbound fee (Binary64.Int b)) = Return rb /\
    Binary64.gt rb ra = true.
Proof.
  intros Hv H0 Hab Hb.
  destruct (Binary64Error.init_analysis _ _ _ _ Hv)
    as (xm & xn & -> & Rm & Vm & Rn & Vn & Cm & Cn).
  cbn [bind].
  exact (Binary64Error.inbound_increasing xm xn _ Rm Vm Rn Vn Cm Cn
           a b H0 Hab Hb).
Qed.

(** X13: for parameters inside the ranges of the test the inverse on doubles
    is strictly increasing on integer inbound amounts between [0] and
    [10^11], across its two branches as well. *)
Theorem outbound_increasing_on_doubles
    (fee_rate_out base_out fee_rate_in base_in a b : Z) :
  valid_params fee_rate_out base_out fee_rate_in base_in ->
  (0 <= a)%Z -> (a < b)%Z -> (b <= 100000000000)%Z ->
  exists ra rb,
    (fee <- Binary64.__init__ fee_rate_out base_out fee_rate_in base_in ;;
     Binary64.outbound_from_inbound fee (Binary64.Int a)) = Return ra /\
    (fee <- Binary64.__init__ fee_rate_out base_out fee_rate_in base_in ;;
     Binary64.outbound_from_inbound fee (Binary64.Int b)) = Return rb /\
    Binary64.gt rb ra = true.
Proof.
  intros Hv H0 Hab Hb.
  destruct (Binary64Error.init_analysis _ _ _ _ Hv)
    as (xm & xn & -> & Rm & Vm & Rn & Vn & Cm & Cn).
  cbn [bind].
  exact (Binary64Error.outbound_increasing xm xn _ Rm Vm Rn Vn Cm Cn
           a b H0 Hab Hb).
Qed.

(** *** Doubles: the floor, exceptions and the range of the inputs *)

(** X14: on doubles, whatever the coefficients and however large the
    amount: when the [int] amount compares strictly greater than [f(amount)],
    the forward direction returns the amount itself, the inverse gives it
    back unchanged and the test of the prototype passes. *)
Theorem floor_round_trip_on_doubles
    (self : Binary64.FeeStructure) (x : Z) (fx : Binary64.number) :
  Binary64.f self (Binary64.Int x) = Return fx ->
  Binary64.gt (Binary64.Int x) fx = true ->
  Binary64.inbound_from_outbound self (Binary64.Int x)
  = Return (Binary64.Int x) /\
  Binary64.outbound_from_inbound self (Binary64.Int x)
  = Return (Binary64.Int x) /\
  Binary64.test_amount self x = Return true.
Proof.
  intros Hf Hgt.
  assert (Hin : Binary64.inbound_from_outbound self (Binary64.Int x)
                = Return (Binary64.Int x)).
  { unfold Binary64.inbound_from_outbound. rewrite Hf. cbn [bind].
    unfold Binary64.max. now rewrite Hgt. }
  assert (Hout : Binary64.outbound_from_inbound self (Binary64.Int x)
                 = Return (Binary64.Int x)).
  { unfold Binary64.outbound_from_inbound. rewrite Hf. cbn [bind].
    unfold Binary64.gt in *.
    destruct (Binary64.compare (Binary64.Int x) fx) as [[]|] eqn:E;
      try discriminate.
    now rewrite (Binary64Facts.compare_antisym _ _ E). }
  split; [exact Hin|]. split; [exact Hout|].
  unfold Binary64.test_amount. rewrite Hin. cbn [bind].
  rewrite Hout. cbn [bind].
  unfold Binary64.ne, Binary64.round. cbn [Binary64.compare].
  now rewrite Z.compare_refl.
Qed.

(** X15: construction never raises [ZeroDivisionError], whatever the four
    integers: its only divisor is the literal [UNIT_M]. *)
Theorem init_never_divides_by_zero
    (fee_rate_out base_out fee_rate_in base_in : Z) :
  Binary64.__init__ fee_rate_out base_out fee_rate_in base_in
  <> Raise ZeroDivisionError.
Proof.
  assert (D : forall z : Z,
             Binary64.op2 Binary64.truediv
               (Binary64.pure (Binary64.Int z))
               (Binary64.pure (Binary64.Int UNIT_M))
             <> Raise ZeroDivisionError).
  { intro z. unfold Binary64.op2, Binary64.pure. cbn [bind].
    apply Binary64Exceptions.truediv_UNIT_M_no_zde. }
  assert (C : Binary64.op2 Binary64.add
                (Binary64.pure (Binary64.Int 1))
                (Binary64.op2 Binary64.truediv
                   (Binary64.pure (Binary64.Int fee_rate_in))
                   (Binary64.pure (Binary64.Int UNIT_M)))
              <> Raise ZeroDivisionError).
  { apply Binary64Exceptions.op2_no_zde;
      [apply Binary64Exceptions.add_no_zde
      |apply Binary64Exceptions.pure_no_zde|apply D]. }
  unfold Binary64.__init__.
  apply Binary64Exceptions.bind_no_zde.
  - apply Binary64Exceptions.op2_no_zde;
      [apply Binary64Exceptions.add_no_zde| |apply D].
    apply Binary64Exceptions.op2_no_zde;
      [apply Binary64Exceptions.add_no_zde
      |apply Binary64Exceptions.pure_no_zde|].
    apply Binary64Exceptions.op2_no_zde;
      [apply Binary64Exceptions.mul_no_zde|apply D|exact C].
  - intro xm. apply Binary64Exceptions.bind_no_zde; [|discriminate].
    apply Binary64Exceptions.op2_no_zde;
      [apply Binary64Exceptions.add_no_zde|
      |apply Binary64Exceptions.pure_no_zde].
    apply Binary64Exceptions.op2_no_zde;
      [apply Binary64Exceptions.mul_no_zde
      |apply Binary64Exceptions.pure_no_zde|exact C].
Qed.

(** X16: on doubles the forward direction never raises
    [ZeroDivisionError], and the inverse raises it only for a transform
    whose multiplier is a zero: the [int] [0] or one of the doubles [0.0] and
    [-0.0]. *)
Theorem division_by_zero_needs_zero_m
    (self : Binary64.FeeStructure) (amount : Binary64.number) :
  Binary64.inbound_from_outbound self amount <> Raise ZeroDivisionError /\
  (Binary64.outbound_from_inbound self amount = Raise ZeroDivisionError ->
   Binary64.m self = Binary64.Int 0 \/
   exists s, Binary64.m self = Binary64.Float (S754_zero s)).
Proof.
  split.
  - unfold Binary64.inbound_from_outbound.
    apply Binary64Exceptions.bind_no_zde;
      [apply Binary64Exceptions.f_no_zde|discriminate].
  - unfold Binary64.outbound_from_inbound.
    pose proof (Binary64Exceptions.f_no_zde self amount) as Hf.
    destruct (Binary64.f self amount) as [fx|e]; cbn [bind];
      [|intro H; now elim Hf].
    destruct (Binary64.gt fx amount); [|discriminate].
    unfold Binary64.op2, Binary64.pure. cbn [bind].
    pose proof (Binary64Exceptions.sub_no_zde amount (Binary64.n self))
      as Hs.
    destruct (Binary64.sub amount (Binary64.n self)) as [d|e]; cbn [bind];
      [|intro H; now elim Hs].
    unfold Binary64.truediv, Binary64.arith.
    pose proof (Binary64Exceptions.to_float_no_zde d) as Hd.
    destruct d as [x|x], (Binary64.m self) as [y|y].
    + destruct (Z.eq_dec y 0) as [->|Hy]; [left; reflexivity|].
      intro H. exfalso. revert H.
      apply Binary64Exceptions.bind_no_zde; [|discriminate].
      now apply Binary64Exceptions.int_truediv_no_zde.
    + destruct (Binary64.to_float (Binary64.Int x)) as [X|e];
        cbn [bind Binary64.to_float];
        [|intro H; exfalso; apply Hd; congruence].
      destruct y; simpl; try discriminate. right. eauto.
    + cbn [Binary64.to_float bind].
      pose proof (Binary64Exceptions.of_int_no_zde y) as Hy.
      destruct (Binary64.of_int y) as [Y|e] eqn:EY; cbn [bind];
        [|intro H; exfalso; apply Hy; congruence].
      destruct Y as [s|s| |s mY eY]; simpl; try discriminate.
      intros _. left. f_equal.
      exact (Binary64Exceptions.of_int_zero y s EY).
    + cbn [Binary64.to_float bind].
      destruct y; simpl; try discriminate. right. eauto.
Qed.

(** X17: with a [float] multiplier, an [int] amount of absolute value
    [2^1024] or more cannot be converted to a double: both directions raise
    [OverflowError] instead of returning an infinity. *)
Theorem huge_amount_overflows
    (xm : spec_float) (xn : Binary64.number) (x : Z) :
  (2 ^ 1024 <= Z.abs x)%Z ->
  Binary64.inbound_from_outbound
    {| Binary64.m := Binary64.Float xm; Binary64.n := xn |}
    (Binary64.Int x) = Raise OverflowError /\
  Binary64.outbound_from_inbound
    {| Binary64.m := Binary64.Float xm; Binary64.n := xn |}
    (Binary64.Int x) = Raise OverflowError.
Proof.
  intro Hx.
  assert (Hf : Binary64.f
                 {| Binary64.m := Binary64.Float xm; Binary64.n := xn |}
                 (Binary64.Int x) = Raise OverflowError).
  { unfold Binary64.f, Binary64.op2, Binary64.pure.
    cbn [bind Binary64.m Binary64.n].
    unfold Binary64.mul, Binary64.arith, Binary64.to_float. cbn [bind].
    now rewrite (Binary64Exceptions.of_int_overflow x Hx). }
  unfold Binary64.inbound_from_outbound, Binary64.outbound_from_inbound.
  rewrite Hf. split; reflexivity.
Qed.

(** X18: construction on doubles raises nothing when the four parameters
    are below [2^53] in absolute value: it returns two finite doubles. *)
Theorem construction_returns
    (fee_rate_out base_out fee_rate_in base_in : Z) :
  (Z.abs fee_rate_out < 2 ^ 53)%Z -> (Z.abs base_out < 2 ^ 53)%Z ->
  (Z.abs fee_rate_in < 2 ^ 53)%Z -> (Z.abs base_in < 2 ^ 53)%Z ->
  exists xm xn,
    Binary64.__init__ fee_rate_out base_out fee_rate_in base_in
    = Return {| Binary64.m := Binary64.Float xm;
                Binary64.n := Binary64.Float xn |} /\
    Binary64Value.finite (Binary64.Float xm) /\
    Binary64Value.finite (Binary64.Float xn).
Proof.
  intros Ho Hbo Hi Hbi.
  destruct (Binary64Error.init_returns _ _ _ _ Ho Hbo Hi Hbi)
    as (xm & xn & E & Rm & Rn).
  exists xm, xn. split; [exact E|].
  split; simpl; eapply Binary64Error.regular_weaken;
    solve [eassumption | lia].
Qed.

(** X19: when the four parameters and the [int] inbound amount are below
    [2^53] in absolute value, the inverse on doubles returns a finite number
    or raises [ZeroDivisionError]; it raises nothing else and returns no
    infinity and no NaN. *)
Theorem outbound_returns_below_2_53
    (fee_rate_out base_out fee_rate_in base_in y : Z) :
  (Z.abs fee_rate_out < 2 ^ 53)%Z -> (Z.abs base_out < 2 ^ 53)%Z ->
  (Z.abs fee_rate_in < 2 ^ 53)%Z -> (Z.abs base_in < 2 ^ 53)%Z ->
  (Z.abs y < 2 ^ 53)%Z ->
  (exists r,
     (fee <- Binary64.__init__ fee_rate_out base_out fee_rate_in base_in ;;
      Binary64.outbound_from_inbound fee (Binary64.Int y)) = Return r /\
     Binary64Value.finite r) \/
  (fee <- Binary64.__init__ fee_rate_out base_out fee_rate_in base_in ;;
   Binary64.outbound_from_inbound fee (Binary64.Int y))
  = Raise ZeroDivisionError.
Proof.
  intros Ho Hbo Hi Hbi Hy.
  destruct (Binary64Error.init_returns _ _ _ _ Ho Hbo Hi Hbi)
    as (xm & xn & -> & Rm & Rn).
  cbn [bind].
  destruct (Binary64Error.outbound_returns xm xn Rm Rn y Hy)
    as [H|[_ H]]; [left; exact H|right; exact H].
Qed.

(** X20: the floor on doubles.  When the four parameters and the [int]
    amount are below [2^53] in absolute value, the forward direction raises
    nothing and returns a finite number that compares [>=] the amount, by
    Python's own comparison: rounding never takes the result below the
    floor. *)
Theorem floor_holds_on_doubles
    (fee_rate_out base_out fee_rate_in base_in x : Z) :
  (Z.abs fee_rate_out < 2 ^ 53)%Z -> (Z.abs base_out < 2 ^ 53)%Z ->
  (Z.abs fee_rate_in < 2 ^ 53)%Z -> (Z.abs base_in < 2 ^ 53)%Z ->
  (Z.abs x < 2 ^ 53)%Z ->
  exists r,
    (fee <- Binary64.__init__ fee_rate_out base_out fee_rate_in base_in ;;
     Binary64.inbound_from_outbound fee (Binary64.Int x)) = Return r /\
    Binary64Value.finite r /\
    Binary64.ge r (Binary64.Int x) = true.
Proof.
  intros Ho Hbo Hi Hbi Hx.
  destruct (Binary64Error.init_returns _ _ _ _ Ho Hbo Hi Hbi)
    as (xm & xn & -> & Rm & Rn).
  cbn [bind].
  destruct (Binary64Error.inbound_returns xm xn Rm Rn x Hx) as (r & E & F).
  exists r. split; [exact E|]. split; [exact F|].
  apply (floor_on_doubles _ _ E).
  rewrite (Binary64Error.compare_value r (Binary64.Int x) F I).
  discriminate.
Qed.

(** *** The test program *)

(** X21: the program under [__main__] raises no exception and prints no
    failed test, whatever the generator, as long as [randint(lo, hi)] returns
    a number between [lo] and [hi]. *)
Theorem main_prints_nothing (generator : Type) (seed : Z -> generator)
    (randint : Z -> Z -> generator -> Z * generator) :
  (forall lo hi g, (lo <= hi)%Z -> (lo <= fst (randint lo hi g) <= hi)%Z) ->
  exists g, Main.main seed randint = Return (g, nil).
Proof.
  intro H. unfold Main.main. now apply MainFacts.loop_prints_nothing.
Qed.

(** *** Instances of the further properties *)

(** The inbound amount [1073741463], at which the inverse is rounded up. *)
Lemma inbound_undoes_outbound_on_doubles_witness :
  valid_params 370 389 (-369) (-1316) /\
  (0 <= 1073741463 <= 100000000000)%Z /\
  exists r,
    (fee <- Binary64.__init__ 370 389 (-369) (-1316) ;;
     x <- Binary64.outbound_from_inbound fee (Binary64.Int 1073741463) ;;
     Binary64.inbound_from_outbound fee x) = Return r /\
    Binary64Value.finite r /\
    Qabs (Binary64Value.number_value r - 1073741463%Z) <= 1 # 1000.
Proof.
  assert (Hv : valid_params 370 389 (-369) (-1316))
    by (unfold valid_params; lia).
  assert (Hy : (0 <= 1073741463 <= 100000000000)%Z) by lia.
  split; [exact Hv|]. split; [exact Hy|].
  exact (@inbound_undoes_outbound_on_doubles 370 389 (-369) (-1316)
           1073741463 Hv Hy).
Defined.

(** An outbound base fee of 5 and the inbound amount 3. *)
Lemma outbound_negative_iff_on_doubles_witness :
  valid_params 0 5 0 0 /\ (0 <= 3 < 2 ^ 53)%Z /\
  exists xm xn r,
    Binary64.__init__ 0 5 0 0
    = Return {| Binary64.m := Binary64.Float xm;
                Binary64.n := Binary64.Float xn |} /\
    Binary64.outbound_from_inbound
      {| Binary64.m := Binary64.Float xm;
         Binary64.n := Binary64.Float xn |} (Binary64.Int 3) = Return r /\
    Binary64Value.finite r /\
    (Binary64Value.number_value r < 0 <-> 3%Z < Binary64Value.value xn).
Proof.
  assert (Hv : valid_params 0 5 0 0) by (unfold valid_params; lia).
  assert (Hy : (0 <= 3 < 2 ^ 53)%Z) by lia.
  split; [exact Hv|]. split; [exact Hy|].
  exact (@outbound_negative_iff_on_doubles 0 5 0 0 3 Hv Hy).
Defined.

Lemma zero_multiplier_is_stored_witness :
  (Z.abs 12345 < 2 ^ 53)%Z /\ (Z.abs 678 < 2 ^ 53)%Z /\
  (Z.abs (-7) < 2 ^ 53)%Z /\
  exists xn,
    Binary64.__init__ 12345 678 (- UNIT_M) (-7)
    = Return {| Binary64.m := Binary64.Float (S754_zero false);
                Binary64.n := Binary64.Float xn |} /\
    Binary64Value.finite (Binary64.Float xn) /\
    Binary64Value.value xn == (-7)%Z.
Proof.
  assert (H1 : (Z.abs 12345 < 2 ^ 53)%Z) by lia.
  assert (H2 : (Z.abs 678 < 2 ^ 53)%Z) by lia.
  assert (H3 : (Z.abs (-7) < 2 ^ 53)%Z) by lia.
  split; [exact H1|]. split; [exact H2|]. split; [exact H3|].
  exact (@zero_multiplier_is_stored 12345 678 (-7) H1 H2 H3).
Defined.

Lemma construction_close_to_exact_witness :
  valid_params 10000 2000 (-10000) (-2000) /\
  exists xm xn,
    Binary64.__init__ 10000 2000 (-10000) (-2000)
    = Return {| Binary64.m := Binary64.Float xm;
                Binary64.n := Binary64.Float xn |} /\
    Binary64Value.finite (Binary64.Float xm) /\
    Binary64Value.finite (Binary64.Float xn) /\
    Qabs (Binary64Value.value xm
          - m (__init__ 10000 2000 (-10000) (-2000)))
    <= 1 # 1000000000000000 /\
    Qabs (Binary64Value.value xn
          - n (__init__ 10000 2000 (-10000) (-2000)))
    <= 2 # 1000000000000.
Proof.
  assert (Hv : valid_params 10000 2000 (-10000) (-2000))
    by (unfold valid_params; lia).
  split; [exact Hv|].
  exact (construction_close_to_exact Hv).
Defined.

Lemma inbound_close_to_exact_witness :
  valid_params 10000 2000 (-10000) (-2000) /\
  (0 <= 100000000000 <= 100000000000)%Z /\
  exists r,
    (fee <- Binary64.__init__ 10000 2000 (-10000) (-2000) ;;
     Binary64.inbound_from_outbound fee (Binary64.Int 100000000000))
    = Return r /\
    Binary64Value.finite r /\
    Qabs (Binary64Value.number_value r
          - inbound_from_outbound
              (__init__ 10000 2000 (-10000) (-2000)) 100000000000%Z)
    <= 1 # 1000.
Proof.
  assert (Hv : valid_params 10000 2000 (-10000) (-2000))
    by (unfold valid_params; lia).
  assert (Hx : (0 <= 100000000000 <= 100000000000)%Z) by lia.
  split; [exact Hv|]. split; [exact Hx|].
  exact (inbound_close_to_exact Hv Hx).
Defined.

Lemma outbound_close_to_exact_witness :
  valid_params 10000 2000 (-10000) (-2000) /\
  (0 <= 1000 <= 100000000000)%Z /\
  exists r q,
    (fee <- Binary64.__init__ 10000 2000 (-10000) (-2000) ;;
     Binary64.outbound_from_inbound fee (Binary64.Int 1000)) = Return r /\
    Binary64Value.finite r /\
    outbound_from_inbound
      (__init__ 10000 2000 (-10000) (-2000)) 1000%Z = Return q /\
    Qabs (Binary64Value.number_value r - q) <= 1 # 1000.
Proof.
  assert (Hv : valid_params 10000 2000 (-10000) (-2000))
    by (unfold valid_params; lia).
  assert (Hy : (0 <= 1000 <= 100000000000)%Z) by lia.
  split; [exact Hv|]. split; [exact Hy|].
  exact (outbound_close_to_exact Hv Hy).
Defined.

Lemma round_trip_close_on_doubles_witness :
  valid_params 10000 2000 (-10000) (-2000) /\
  (0 <= 100000000000 <= 100000000000)%Z /\
  exists inv,
    (fee <- Binary64.__init__ 10000 2000 (-10000) (-2000) ;;
     amt_in <- Binary64.inbound_from_outbound fee
                 (Binary64.Int 100000000000) ;;
     Binary64.outbound_from_inbound fee amt_in) = Return inv /\
    Binary64Value.finite inv /\
    Qabs (Binary64Value.number_value inv - 100000000000%Z) <= 1 # 1000.
Proof.
  assert (Hv : valid_params 10000 2000 (-10000) (-2000))
    by (unfold valid_params; lia).
  assert (Hx : (0 <= 100000000000 <= 100000000000)%Z) by lia.
  split; [exact Hv|]. split; [exact Hx|].
  exact (round_trip_close_on_doubles Hv Hx).
Defined.

(** Two neighbouring amounts at the upper end of the range. *)
Lemma inbound_increasing_on_doubles_witness :
  valid_params 10000 2000 (-10000) (-2000) /\
  (0 <= 99999999999)%Z /\ (99999999999 < 100000000000)%Z /\
  (100000000000 <= 100000000000)%Z /\
  exists ra rb,
    (fee <- Binary64.__init__ 10000 2000 (-10000) (-2000) ;;
     Binary64.inbound_from_outbound fee (Binary64.Int 99999999999))
    = Return ra /\
    (fee <- Binary64.__init__ 10000 2000 (-10000) (-2000) ;;
     Binary64.inbound_from_outbound fee (Binary64.Int 100000000000))
    = Return rb /\
    Binary64.gt rb ra = true.
Proof.
  assert (Hv : valid_params 10000 2000 (-10000) (-2000))
    by (unfold valid_params; lia).
  assert (H0 : (0 <= 99999999999)%Z) by lia.
  assert (Hab : (99999999999 < 100000000000)%Z) by lia.
  assert (Hb : (100000000000 <= 100000000000)%Z) by lia.
  split; [exact Hv|]. split; [exact H0|]. split; [exact Hab|].
  split; [exact Hb|].
  exact (inbound_increasing_on_doubles Hv H0 Hab Hb).
Defined.

Lemma outbound_increasing_on_doubles_witness :
  valid_params 10000 2000 (-10000) (-2000) /\
  (0 <= 99999999999)%Z /\ (99999999999 < 100000000000)%Z /\
  (100000000000 <= 100000000000)%Z /\
  exists ra rb,
    (fee <- Binary64.__init__ 10000 2000 (-10000) (-2000) ;;
     Binary64.outbound_from_inbound fee (Binary64.Int 99999999999))
    = Return ra /\
    (fee <- Binary64.__init__ 10000 2000 (-10000) (-2000) ;;
     Binary64.outbound_from_inbound fee (Binary64.Int 100000000000))
    = Return rb /\
    Binary64.gt rb ra = true.
Proof.
  assert (Hv : valid_params 10000 2000 (-10000) (-2000))
    by (unfold valid_params; lia).
  assert (H0 : (0 <= 99999999999)%Z) by lia.
  assert (Hab : (99999999999 < 100000000000)%Z) by lia.
  assert (Hb : (100000000000 <= 100000000000)%Z) by lia.
  split; [exact Hv|]. split; [exact H0|]. split; [exact Hab|].
  split; [exact Hb|].
  exact (outbound_increasing_on_doubles Hv H0 Hab Hb).
Defined.

(** A discount of 1 %, as [FeeStructure(0, 0, -10000, 0)] constructs it:
    [m = 0.99], [n = 0.0] and [f(1000) = 990.0]. *)
Lemma floor_round_trip_on_doubles_witness :
  let fee :=
    {| Binary64.m :=
         Binary64.Float (S754_finite false 8917127262193582 (-53));
       Binary64.n := Binary64.Float (S754_zero false) |} in
  let fx := Binary64.Float (S754_finite false 8708132091985920 (-43)) in
  Binary64.f fee (Binary64.Int 1000) = Return fx /\
  Binary64.gt (Binary64.Int 1000) fx = true /\
  Binary64.inbound_from_outbound fee (Binary64.Int 1000)
  = Return (Binary64.Int 1000) /\
  Binary64.outbound_from_inbound fee (Binary64.Int 1000)
  = Return (Binary64.Int 1000) /\
  Binary64.test_amount fee 1000 = Return true.
Proof.
  intros fee fx.
  assert (Hf : Binary64.f fee (Binary64.Int 1000) = Return fx)
    by (vm_compute; reflexivity).
  assert (Hg : Binary64.gt (Binary64.Int 1000) fx = true)
    by (vm_compute; reflexivity).
  split; [exact Hf|]. split; [exact Hg|].
  exact (floor_round_trip_on_doubles fee 1000 Hf Hg).
Defined.

(** A zero multiplier and the offset [7]: the inbound amount [3] reaches the
    division. *)
Lemma division_by_zero_needs_zero_m_witness :
  let fee :=
    {| Binary64.m := Binary64.Float (S754_zero false);
       Binary64.n := Binary64.Int 7 |} in
  Binary64.outbound_from_inbound fee (Binary64.Int 3)
  = Raise ZeroDivisionError /\
  (Binary64.m fee = Binary64.Int 0 \/
   exists s, Binary64.m fee = Binary64.Float (S754_zero s)).
Proof.
  intro fee.
  assert (H : Binary64.outbound_from_inbound fee (Binary64.Int 3)
              = Raise ZeroDivisionError) by (vm_compute; reflexivity).
  split; [exact H|].
  exact (proj2 (division_by_zero_needs_zero_m fee (Binary64.Int 3)) H).
Defined.

(** The multiplier [1.0] and the amount [2^1024]. *)
Lemma huge_amount_overflows_witness :
  (2 ^ 1024 <= Z.abs (2 ^ 1024))%Z /\
  Binary64.inbound_from_outbound
    {| Binary64.m :=
         Binary64.Float (S754_finite false 4503599627370496 (-52));
       Binary64.n := Binary64.Int 0 |}
    (Binary64.Int (2 ^ 1024)) = Raise OverflowError /\
  Binary64.outbound_from_inbound
    {| Binary64.m :=
         Binary64.Float (S754_finite false 4503599627370496 (-52));
       Binary64.n := Binary64.Int 0 |}
    (Binary64.Int (2 ^ 1024)) = Raise OverflowError.
Proof.
  assert (H : (2 ^ 1024 <= Z.abs (2 ^ 1024))%Z) by lia.
  split; [exact H|].
  exact (huge_amount_overflows
           (S754_finite false 4503599627370496 (-52)) (Binary64.Int 0)
           (2 ^ 1024) H).
Defined.

Lemma construction_returns_witness :
  (Z.abs 9007199254740991 < 2 ^ 53)%Z /\ (Z.abs (-5) < 2 ^ 53)%Z /\
  (Z.abs (-1000000) < 2 ^ 53)%Z /\ (Z.abs 7 < 2 ^ 53)%Z /\
  exists xm xn,
    Binary64.__init__ 9007199254740991 (-5) (-1000000) 7
    = Return {| Binary64.m := Binary64.Float xm;
                Binary64.n := Binary64.Float xn |} /\
    Binary64Value.finite (Binary64.Float xm) /\
    Binary64Value.finite (Binary64.Float xn).
Proof.
  assert (H1 : (Z.abs 9007199254740991 < 2 ^ 53)%Z) by lia.
  assert (H2 : (Z.abs (-5) < 2 ^ 53)%Z) by lia.
  assert (H3 : (Z.abs (-1000000) < 2 ^ 53)%Z) by lia.
  assert (H4 : (Z.abs 7 < 2 ^ 53)%Z) by lia.
  split; [exact H1|]. split; [exact H2|]. split; [exact H3|].
  split; [exact H4|].
  exact (@construction_returns _ _ _ _ H1 H2 H3 H4).
Defined.

Lemma outbound_returns_below_2_53_witness :
  (Z.abs 0 < 2 ^ 53)%Z /\ (Z.abs 0 < 2 ^ 53)%Z /\
  (Z.abs (-1000000) < 2 ^ 53)%Z /\ (Z.abs 7 < 2 ^ 53)%Z /\
  (Z.abs 3 < 2 ^ 53)%Z /\
  ((exists r,
      (fee <- Binary64.__init__ 0 0 (-1000000) 7 ;;
       Binary64.outbound_from_inbound fee (Binary64.Int 3)) = Return r /\
      Binary64Value.finite r) \/
   (fee <- Binary64.__init__ 0 0 (-1000000) 7 ;;
    Binary64.outbound_from_inbound fee (Binary64.Int 3))
   = Raise ZeroDivisionError).
Proof.
  assert (H1 : (Z.abs 0 < 2 ^ 53)%Z) by lia.
  assert (H3 : (Z.abs (-1000000) < 2 ^ 53)%Z) by lia.
  assert (H4 : (Z.abs 7 < 2 ^ 53)%Z) by lia.
  assert (H5 : (Z.abs 3 < 2 ^ 53)%Z) by lia.
  split; [exact H1|]. split; [exact H1|]. split; [exact H3|].
  split; [exact H4|]. split; [exact H5|].
  exact (@outbound_returns_below_2_53 _ _ _ _ _ H1 H1 H3 H4 H5).
Defined.

Lemma floor_holds_on_doubles_witness :
  (Z.abs 0 < 2 ^ 53)%Z /\ (Z.abs 0 < 2 ^ 53)%Z /\
  (Z.abs (-10000) < 2 ^ 53)%Z /\ (Z.abs (-2000) < 2 ^ 53)%Z /\
  (Z.abs 9007199254740991 < 2 ^ 53)%Z /\
  exists r,
    (fee <- Binary64.__init__ 0 0 (-10000) (-2000) ;;
     Binary64.inbound_from_outbound fee (Binary64.Int 9007199254740991))
    = Return r /\
    Binary64Value.finite r /\
    Binary64.ge r (Binary64.Int 9007199254740991) = true.
Proof.
  assert (H1 : (Z.abs 0 < 2 ^ 53)%Z) by lia.
  assert (H3 : (Z.abs (-10000) < 2 ^ 53)%Z) by lia.
  assert (H4 : (Z.abs (-2000) < 2 ^ 53)%Z) by lia.
  assert (H5 : (Z.abs 9007199254740991 < 2 ^ 53)%Z) by lia.
  split; [exact H1|]. split; [exact H1|]. split; [exact H3|].
  split; [exact H4|]. split; [exact H5|].
  exact (@floor_holds_on_doubles _ _ _ _ _ H1 H1 H3 H4 H5).
Defined.

(** The program run with a counter as the generator: the state [g] gives
    the number [lo + g mod (hi - lo + 1)] and becomes [g + 1]. *)
Lemma main_prints_nothing_witness :
  (forall lo hi g : Z,
     (lo <= hi)%Z ->
     (lo <= fst (lo + g mod (hi - lo + 1), g + 1)%Z <= hi)%Z) /\
  exists g,
    Main.main (fun z : Z => z)
      (fun lo hi g : Z => (lo + g mod (hi - lo + 1), g + 1)%Z)
    = Return (g, nil).
Proof.
  assert (H : forall lo hi g : Z,
            (lo <= hi)%Z ->
            (lo <= fst (lo + g mod (hi - lo + 1), g + 1)%Z <= hi)%Z).
  { intros lo hi g Hle. cbn [fst].
    pose proof (Z.mod_pos_bound g (hi - lo + 1)). lia. }
  split; [exact H|].
  exact (main_prints_nothing (fun z : Z => z)
           (fun lo hi g : Z => (lo + g mod (hi - lo + 1), g + 1)%Z) H).
Defined.
